(** * The message pipeline of [wechat_listener.py]

  A shallow embedding of the reply pipeline of the listener:
  [DeepSeekAPI.get_reply], [WeChatListener.process_message],
  [WeChatListener.send_long_message], [WeChatListener.send_time_report]
  and the polling cycle of [WeChatListener.listen_messages].

  Python strings are sequences of Unicode code points, and [len], slicing,
  [rfind], [in] and [replace] all count code points; a string is therefore
  a list of code points here.  Python integers are [Z]. *)

From Stdlib Require Import ZArith Lia List Bool Ascii String Sorted.
From stdpp Require Import base list gmap.
Import ListNotations.

Local Open Scope Z_scope.
Local Set Warnings "-register-all".

(** ** Python strings *)

Module PyStr.

Definition char := N.
Definition str := list char.

Definition len (s : str) : Z := Z.of_nat (length s).

Definition newline : char := 10%N.

(** How a slice bound [i] is clipped against a sequence of length [n]:
    a negative bound counts from the end, and both ends saturate. *)
Definition adjust_index (n i : Z) : Z :=
  if i <? 0 then Z.max 0 (i + n) else Z.min i n.

(** [s[:i]] and [s[i:]]. *)
Definition slice_to (s : str) (i : Z) : str :=
  take (Z.to_nat (adjust_index (len s) i)) s.

Definition slice_from (s : str) (i : Z) : str :=
  drop (Z.to_nat (adjust_index (len s) i)) s.

(** [s[a:b]] for bounds that are already clipped. *)
Definition slice (s : str) (a b : Z) : str :=
  take (Z.to_nat (b - a)) (drop (Z.to_nat a) s).

(** Index of the last occurrence of [c] in [s]. *)
Fixpoint rindex (c : char) (s : str) : option nat :=
  match s with
  | [] => None
  | x :: s' =>
      match rindex c s' with
      | Some i => Some (S i)
      | None => if N.eqb x c then Some 0%nat else None
      end
  end.

(** [s.rfind(c, start, stop)] for a needle of one character: the highest
    index in [s[start:stop]] holding [c], or [-1]. *)
Definition rfind (c : char) (s : str) (start stop : Z) : Z :=
  let a := adjust_index (len s) start in
  let b := adjust_index (len s) stop in
  match rindex c (slice s a b) with
  | Some i => a + Z.of_nat i
  | None => -1
  end.

Fixpoint starts_with (sub s : str) : bool :=
  match sub, s with
  | [], _ => true
  | _ :: _, [] => false
  | a :: sub', b :: s' => N.eqb a b && starts_with sub' s'
  end.

(** [sub in s]. *)
Fixpoint contains (sub s : str) : bool :=
  starts_with sub s ||
  match s with
  | [] => false
  | _ :: s' => contains sub s'
  end.

(** [s.replace(old, new)]: occurrences are found left to right and do not
    overlap.  The recursion is on a count of the characters still to scan. *)
Fixpoint replace_scan (n : nat) (old new s : str) : str :=
  match n with
  | O => s
  | S n' =>
      match s with
      | [] => []
      | c :: s' =>
          if starts_with old s
          then new ++ replace_scan n' old new (drop (length old) s)
          else c :: replace_scan n' old new s'
      end
  end.

Definition replace (old new s : str) : str :=
  match old with
  | [] => new ++ concat (map (fun c => c :: new) s)
  | _ :: _ => replace_scan (length s) old new s
  end.

(** [any(k in s for k in keys)]. *)
Definition any_in (keys : list str) (s : str) : bool :=
  existsb (fun k => contains k s) keys.

End PyStr.

Import PyStr.

(** ** String constants of the source *)

Module Text.

(** A literal made of ASCII characters only. *)
Definition ascii_str (s : String.string) : str :=
  map Ascii.N_of_ascii (String.list_ascii_of_string s).

(** "🤖【DeepSeek生成】" *)
Definition banner : str :=
  [129302; 12304; 68; 101; 101; 112; 83; 101; 101; 107; 29983; 25104; 12305]%N.

(** "🤖【DeepSeek生成】\n", the prefix of every generated reply. *)
Definition banner_line : str := banner ++ [newline].

(** "❌ 服务未配置，请先设置API密钥" *)
Definition NOT_CONFIGURED : str :=
  [10060; 32; 26381; 21153; 26410; 37197; 32622; 65292; 35831; 20808; 35774;
   32622; 65; 80; 73; 23494; 38053]%N.

(** "我还在思考中，请稍后再试" *)
Definition STILL_THINKING : str :=
  [25105; 36824; 22312; 24605; 32771; 20013; 65292; 35831; 31245; 21518;
   20877; 35797]%N.

(** "请求超时，请稍后再试" *)
Definition TIMED_OUT : str :=
  [35831; 27714; 36229; 26102; 65292; 35831; 31245; 21518; 20877; 35797]%N.

(** "网络连接出现问题" *)
Definition NETWORK_PROBLEM : str :=
  [32593; 32476; 36830; 25509; 20986; 29616; 38382; 39064]%N.

(** "处理消息时发生错误" *)
Definition PROCESSING_ERROR : str :=
  [22788; 29702; 28040; 24687; 26102; 21457; 29983; 38169; 35823]%N.

(** "服务暂时不可用，请稍后再试" *)
Definition UNAVAILABLE : str :=
  [26381; 21153; 26242; 26102; 19981; 21487; 29992; 65292; 35831; 31245;
   21518; 20877; 35797]%N.

(** "抱歉，处理消息时出了点问题，请再试一次" *)
Definition APOLOGY : str :=
  [25265; 27465; 65292; 22788; 29702; 28040; 24687; 26102; 20986; 20102;
   28857; 38382; 39064; 65292; 35831; 20877; 35797; 19968; 27425]%N.

(** ["以下为新消息", "收到请回复", "补充通知", "网络连接出现问题"] *)
Definition skip_keywords : list str :=
  [ [20197; 19979; 20026; 26032; 28040; 24687]%N;
    [25910; 21040; 35831; 22238; 22797]%N;
    [34917; 20805; 36890; 30693]%N;
    [32593; 32476; 36830; 25509; 20986; 29616; 38382; 39064]%N ].

Definition friend : str := ascii_str "friend"%string.
Definition choices : str := ascii_str "choices"%string.
Definition message : str := ascii_str "message"%string.
Definition content : str := ascii_str "content"%string.

End Text.

(** ** The chunker: the splitting phase of [send_long_message] *)

Module Chunker.

(** One turn of the [while message:] loop: the part that is appended and
    the message that remains. *)
Definition split_step (max_message_length : Z) (message : str) : str * str :=
  if len message >? max_message_length then
    let split_index := rfind newline message 0 max_message_length in
    let split_index :=
      if split_index =? -1 then max_message_length else split_index in
    (slice_to message split_index, slice_from message split_index)
  else (message, []).

(** The loop, with a bound on the number of turns; [None] when the bound
    is reached with text still left. *)
Fixpoint split_loop (fuel : nat) (max_message_length : Z) (message : str)
    (parts : list str) : option (list str) :=
  match message with
  | [] => Some parts
  | _ :: _ =>
      match fuel with
      | O => None
      | S fuel' =>
          let '(part, rest) := split_step max_message_length message in
          split_loop fuel' max_message_length rest (parts ++ [part])
      end
  end.

Definition split_parts (fuel : nat) (max_message_length : Z) (message : str)
    : option (list str) :=
  split_loop fuel max_message_length message [].

(** The message left and the parts collected after [n] turns of the loop,
    or when the message runs out if that comes first. *)
Fixpoint split_turns (n : nat) (max_message_length : Z) (message : str)
    (parts : list str) : str * list str :=
  match n, message with
  | O, _ => (message, parts)
  | S _, [] => (message, parts)
  | S n', _ :: _ =>
      let '(part, rest) := split_step max_message_length message in
      split_turns n' max_message_length rest (parts ++ [part])
  end.

(** [Progress max m]: from [m] on, every turn of the loop cuts off a part
    that is not empty, until nothing is left. *)
Inductive Progress (max_message_length : Z) : str -> Prop :=
| Progress_done : Progress max_message_length []
| Progress_turn message :
    message <> [] ->
    fst (split_step max_message_length message) <> [] ->
    Progress max_message_length (snd (split_step max_message_length message)) ->
    Progress max_message_length message.

(** The text handed to [SendMsg] for the part of index [i]. *)
Definition strip_banner (i : nat) (part : str) : str :=
  if (0 <? i)%nat && contains Text.banner part
  then replace Text.banner_line [] part
  else part.

Definition sent_parts (parts : list str) : list str := imap strip_banner parts.

(** [Reinsert s p]: [p] is [s] with copies of the banner line put back. *)
Inductive Reinsert : str -> str -> Prop :=
| Reinsert_nil : Reinsert [] []
| Reinsert_keep c s p : Reinsert s p -> Reinsert (c :: s) (c :: p)
| Reinsert_banner s p : Reinsert s p -> Reinsert s (Text.banner_line ++ p).

(** The first sent segment is the first part as it is; every later one is
    its part up to banner lines. *)
Inductive Restores : list str -> list str -> Prop :=
| Restores_nil : Restores [] []
| Restores_cons s sent parts :
    Forall2 Reinsert sent parts -> Restores (s :: sent) (s :: parts).

End Chunker.

Import Chunker.

(** ** Exceptions, parsed JSON and the outside world *)

Module Py.

(** The exception classes the handlers of the source tell apart:
    [requests.exceptions.Timeout], any other
    [requests.exceptions.RequestException], and any other [Exception]. *)
Inductive exn := Timeout | RequestException | OtherException.

(** A parsed response body.  An object is given by its items, looked up
    from the front.  Numbers are integers here: the code only tests them
    for truth and formats them. *)
Inductive json :=
| JNull
| JBool (b : bool)
| JNum (n : Z)
| JStr (s : str)
| JArr (items : list json)
| JObj (fields : list (str * json)).

(** Truth value of a Python object. *)
Definition truthy (v : json) : bool :=
  match v with
  | JNull => false
  | JBool b => b
  | JNum n => negb (n =? 0)
  | JStr s => negb (bool_decide (s = []))
  | JArr items => match items with [] => false | _ :: _ => true end
  | JObj fields => match fields with [] => false | _ :: _ => true end
  end.

Fixpoint lookup_field (key : str) (fields : list (str * json)) : option json :=
  match fields with
  | [] => None
  | (k, v) :: rest => if bool_decide (k = key) then Some v else lookup_field key rest
  end.

(** [data.get(key)]: only a dict has the method; an absent key gives [None]. *)
Definition dict_get (data : json) (key : str) : exn + json :=
  match data with
  | JObj fields => inr (default JNull (lookup_field key fields))
  | _ => inl OtherException
  end.

(** [v[key]] for a string key: [KeyError] on a dict without the key,
    [TypeError] on anything that is not a dict. *)
Definition getitem_key (v : json) (key : str) : exn + json :=
  match v with
  | JObj fields =>
      match lookup_field key fields with
      | Some x => inr x
      | None => inl OtherException
      end
  | _ => inl OtherException
  end.

(** [v[0]]: the first element of a list, the first character of a string;
    [IndexError] when empty, [KeyError] on a dict (its keys are strings),
    [TypeError] otherwise. *)
Definition getitem_0 (v : json) : exn + json :=
  match v with
  | JArr (x :: _) => inr x
  | JStr (c :: _) => inr (JStr [c])
  | _ => inl OtherException
  end.

Record datetime := {
  year : Z; month : Z; day : Z;
  hour : Z; minute : Z; second : Z
}.

(** A message object of the chat backend. *)
Record msg := { sender : str; type : str; content : str }.

(** What lies outside the program.  Each call of an external service is
    answered by the world according to how many calls of that kind came
    before it. *)
Record world := {
  (** [requests.post(..., timeout)], [raise_for_status()] and [json()]:
      the parsed body, or the exception raised on the way. *)
  http_post : nat -> str -> Z -> exn + json;
  (** [SendMsg] of the chat backend: the exception it raises, if any. *)
  SendMsg : nat -> str -> str -> option exn;
  (** [datetime.now()]. *)
  datetime_now : nat -> datetime;
  (** [GetListenMessage()]: the new messages by chat, in dict order. *)
  GetListenMessage : nat -> exn + list (str * list msg);
  (** [str(v)] of a parsed value, as an f-string formats it. *)
  py_str : json -> str;
  (** [template.format(time=text)]. *)
  str_format : str -> str -> exn + str
}.

End Py.

Import Py.

(** ** Effects: state, raised exceptions and the trace of what was done *)

Module Eff.

(** The mutable state of the program: the class attribute
    [DeepSeekAPI.API_KEY], the two mutable attributes of the listener, and
    the number of calls made so far to each external service. *)
Record state := {
  API_KEY : option str;
  last_message_time : gmap str datetime;
  last_reported_hour : Z;
  n_post : nat;
  n_send : nat;
  n_now : nat;
  n_poll : nat
}.

Inductive level := INFO | WARNING | ERROR.

(** One constructor per logging call of the modelled functions. *)
Inductive logmsg :=
| LogKeyMissing
| LogAttempt (number timeout : Z)
| LogBadFormat (data : json)
| LogTimeoutRetry (seconds : Z)
| LogTimeoutFinal
| LogRequestFailed (e : exn)
| LogResponseError (e : exn)
| LogSkipSelf (who head : str)
| LogReceived (who content : str)
| LogSkipSystem (head : str)
| LogApiReply (reply : str)
| LogReplied (who : str)
| LogReplyFailed (who : str) (e : exn)
| LogPartSent (number total : Z) (who : str)
| LogLongFailed (e : exn)
| LogReported (who : str)
| LogReportFailed (e : exn)
| LogListening
| LogHistoryCleared
| LogClearFailed (e : exn)
| LogListenError (e : exn).

(** What the program does to the outside, in order.  A sleep is given in
    milliseconds; a send carries the exception the backend raised, if any. *)
Inductive event :=
| EvLog (lv : level) (m : logmsg)
| EvPost (message : str) (timeout : Z)
| EvSleep (ms : Z)
| EvSend (who text : str) (raised : option exn).

(** How a computation ends: with a value, with a raised exception, or still
    running when the bound on loop turns is reached. *)
Inductive res (A : Type) :=
| Ok (a : A)
| Raise (e : exn)
| OutOfFuel.

Arguments Ok {A} a.
Arguments Raise {A} e.
Arguments OutOfFuel {A}.

Definition M (A : Type) : Type := state -> res A * state * list event.

Definition ret {A} (a : A) : M A := fun s => (Ok a, s, []).

Definition bind {A B} (c : M A) (k : A -> M B) : M B := fun s =>
  match c s with
  | (Ok a, s1, e1) => let '(r, s2, e2) := k a s1 in (r, s2, e1 ++ e2)
  | (Raise e, s1, e1) => (Raise e, s1, e1)
  | (OutOfFuel, s1, e1) => (OutOfFuel, s1, e1)
  end.

(** [try: c  except Exception as e: h e]; a bare [except:] is the same for
    the exceptions modelled. *)
Definition try_except {A} (c : M A) (h : exn -> M A) : M A := fun s =>
  match c s with
  | (Raise e, s1, e1) => let '(r, s2, e2) := h e s1 in (r, s2, e1 ++ e2)
  | other => other
  end.

Definition raise {A} (e : exn) : M A := fun s => (Raise e, s, []).
Definition out_of_fuel {A} : M A := fun s => (OutOfFuel, s, []).
Definition get : M state := fun s => (Ok s, s, []).
Definition put (s : state) : M unit := fun _ => (Ok tt, s, []).
Definition emit (ev : event) : M unit := fun s => (Ok tt, s, [ev]).

(** A pure operation that may raise. *)
Definition lift {A} (r : exn + A) : M A :=
  match r with
  | inl e => raise e
  | inr a => ret a
  end.

Definition log (lv : level) (m : logmsg) : M unit := emit (EvLog lv m).

(** [time.sleep]. *)
Definition sleep (ms : Z) : M unit := emit (EvSleep ms).

Definition set_last_message_time (who : str) (t : datetime) (s : state) : state :=
  {| API_KEY := API_KEY s;
     last_message_time := <[who := t]> (last_message_time s);
     last_reported_hour := last_reported_hour s;
     n_post := n_post s; n_send := n_send s; n_now := n_now s;
     n_poll := n_poll s |}.

Definition set_last_reported_hour (h : Z) (s : state) : state :=
  {| API_KEY := API_KEY s;
     last_message_time := last_message_time s;
     last_reported_hour := h;
     n_post := n_post s; n_send := n_send s; n_now := n_now s;
     n_poll := n_poll s |}.

Definition count_post (s : state) : state :=
  {| API_KEY := API_KEY s;
     last_message_time := last_message_time s;
     last_reported_hour := last_reported_hour s;
     n_post := S (n_post s); n_send := n_send s; n_now := n_now s;
     n_poll := n_poll s |}.

Definition count_send (s : state) : state :=
  {| API_KEY := API_KEY s;
     last_message_time := last_message_time s;
     last_reported_hour := last_reported_hour s;
     n_post := n_post s; n_send := S (n_send s); n_now := n_now s;
     n_poll := n_poll s |}.

Definition count_now (s : state) : state :=
  {| API_KEY := API_KEY s;
     last_message_time := last_message_time s;
     last_reported_hour := last_reported_hour s;
     n_post := n_post s; n_send := n_send s; n_now := S (n_now s);
     n_poll := n_poll s |}.

Definition count_poll (s : state) : state :=
  {| API_KEY := API_KEY s;
     last_message_time := last_message_time s;
     last_reported_hour := last_reported_hour s;
     n_post := n_post s; n_send := n_send s; n_now := n_now s;
     n_poll := S (n_poll s) |}.

(** The external calls. *)
Definition post (w : world) (message : str) (timeout : Z) : M json := fun s =>
  (match http_post w (n_post s) message timeout with
   | inl e => Raise e
   | inr data => Ok data
   end, count_post s, [EvPost message timeout]).

Definition send_msg (w : world) (who text : str) : M unit := fun s =>
  let raised := SendMsg w (n_send s) who text in
  (match raised with
   | Some e => Raise e
   | None => Ok tt
   end, count_send s, [EvSend who text raised]).

Definition now (w : world) : M datetime := fun s =>
  (Ok (datetime_now w (n_now s)), count_now s, []).

Definition get_listen_message (w : world) : M (list (str * list msg)) := fun s =>
  (match GetListenMessage w (n_poll s) with
   | inl e => Raise e
   | inr batch => Ok batch
   end, count_poll s, []).

(** [for x in xs: body x]. *)
Fixpoint for_each {A} (xs : list A) (body : A -> M unit) : M unit :=
  match xs with
  | [] => ret tt
  | x :: rest => bind (body x) (fun _ => for_each rest body)
  end.

(** [range(n)]. *)
Definition py_range (n : Z) : list Z := map Z.of_nat (seq 0 (Z.to_nat n)).

(** The three components of a run. *)
Definition result {A} (c : M A) (s : state) : res A := fst (fst (c s)).
Definition final {A} (c : M A) (s : state) : state := snd (fst (c s)).
Definition events {A} (c : M A) (s : state) : list event := snd (c s).

(** [ends c r d]: from every state [c] ends with a value, or with an
    exception if [r] allows it, or out of fuel if [d] allows it. *)
Definition ends {A} (c : M A) (r d : bool) : Prop :=
  forall s,
    match result c s with
    | Ok _ => True
    | Raise _ => r = true
    | OutOfFuel => d = true
    end.

(** The part of the state that is not a call counter. *)
Definition store (s : state) : option str * gmap str datetime * Z :=
  (API_KEY s, last_message_time s, last_reported_hour s).

(** [frame c]: [c] leaves the store as it finds it. *)
Definition frame {A} (c : M A) : Prop :=
  forall s, store (final c s) = store s.

End Eff.

Import Eff.

Notation "x <- c ;; k" := (bind c (fun x => k))
  (at level 100, c at next level, right associativity).
Notation "c ;; k" := (bind c (fun _ => k))
  (at level 100, right associativity).

(** ** [DeepSeekAPI.get_reply] *)

Module DeepSeekAPI.

(** [if not DeepSeekAPI.API_KEY]: the key is [None] or empty. *)
Definition key_missing (s : state) : bool :=
  match API_KEY s with
  | Some (_ :: _) => false
  | _ => true
  end.

(** The body of the [try] of one attempt.  [Some reply] is a [return],
    [None] lets the loop go on. *)
Definition request (w : world) (message : str) (attempt : Z) : M (option str) :=
  let timeout := 15 + attempt * 5 in
  log INFO (LogAttempt (attempt + 1) timeout) ;;
  data <- post w message timeout ;;
  found <- lift (dict_get data Text.choices) ;;
  if truthy found then
    all <- lift (getitem_key data Text.choices) ;;
    first <- lift (getitem_0 all) ;;
    inner <- lift (getitem_key first Text.message) ;;
    reply_content <- lift (getitem_key inner Text.content) ;;
    ret (Some (Text.banner_line ++
               match reply_content with
               | JStr text => text
               | other => py_str w other
               end))
  else
    log ERROR (LogBadFormat data) ;;
    ret (Some Text.STILL_THINKING).

(** The three [except] clauses, in the order of the source. *)
Definition on_error (retries attempt : Z) (e : exn) : M (option str) :=
  match e with
  | Timeout =>
      if attempt <? retries then
        log WARNING (LogTimeoutRetry (1 + attempt)) ;;
        sleep (1000 * (1 + attempt)) ;;
        ret None
      else
        log ERROR LogTimeoutFinal ;;
        ret (Some Text.TIMED_OUT)
  | RequestException =>
      log ERROR (LogRequestFailed e) ;;
      if attempt <? retries then
        sleep 1000 ;;
        ret None
      else
        ret (Some Text.NETWORK_PROBLEM)
  | OtherException =>
      log ERROR (LogResponseError e) ;;
      ret (Some Text.PROCESSING_ERROR)
  end.

(** [for attempt in todo: ...], then the [return] after the loop. *)
Fixpoint attempts (w : world) (message : str) (retries : Z) (todo : list Z)
    : M str :=
  match todo with
  | [] => ret Text.UNAVAILABLE
  | attempt :: rest =>
      r <- try_except (request w message attempt) (on_error retries attempt) ;;
      match r with
      | Some reply => ret reply
      | None => attempts w message retries rest
      end
  end.

Definition get_reply (w : world) (message : str) (retries : Z) : M str :=
  s <- get ;;
  if key_missing s then
    log ERROR LogKeyMissing ;;
    ret Text.NOT_CONFIGURED
  else
    attempts w message retries (py_range (retries + 1)).

(** The default of the parameter [retries]. *)
Definition default_retries : Z := 2.

End DeepSeekAPI.

Import DeepSeekAPI.

(** ** [WeChatListener] *)

Module WeChatListener.

(** The attributes of the listener that are set once, in [__init__]. *)
Record listener := {
  listen_list : list str;
  interval : Z;                 (* milliseconds *)
  self_name : str;
  time_report : bool;
  time_report_who : str;
  time_report_message : str;
  max_message_length : Z
}.

(** The mutable attributes as [__init__] leaves them. *)
Definition init_state (key : option str) : state :=
  {| API_KEY := key; last_message_time := ∅; last_reported_hour := -1;
     n_post := 0; n_send := 0; n_now := 0; n_poll := 0 |}.

(** The sending phase of [send_long_message]: each part in its own [try]. *)
Fixpoint send_parts (w : world) (who : str) (total : Z) (i : nat)
    (parts : list str) : M unit :=
  match parts with
  | [] => ret tt
  | part :: rest =>
      try_except
        (send_msg w who (strip_banner i part) ;;
         log INFO (LogPartSent (Z.of_nat i + 1) total who) ;;
         sleep 500)
        (fun e => log ERROR (LogLongFailed e)) ;;
      send_parts w who total (S i) rest
  end.

Definition send_long_message (w : world) (self : listener) (fuel : nat)
    (who : str) (message : str) : M unit :=
  match split_parts fuel (max_message_length self) message with
  | None => out_of_fuel
  | Some parts => send_parts w who (Z.of_nat (length parts)) 0 parts
  end.

(** The [try] statement of [process_message]: ask for a reply and send it;
    on any exception log it and try to send an apology. *)
Definition reply_to (w : world) (self : listener) (fuel : nat)
    (who : str) (content : str) : M unit :=
  try_except
    (api_reply <- get_reply w content default_retries ;;
     log INFO (LogApiReply api_reply) ;;
     if len api_reply >? max_message_length self then
       send_long_message w self fuel who api_reply
     else
       send_msg w who api_reply ;;
       log INFO (LogReplied who))
    (fun e =>
       log ERROR (LogReplyFailed who e) ;;
       try_except (send_msg w who Text.APOLOGY) (fun _ => ret tt)).

(** What [process_message] does with a message that is not the user's own,
    once its time is recorded and it is logged. *)
Definition filter_and_reply (w : world) (self : listener) (fuel : nat)
    (who : str) (m : msg) : M unit :=
  if any_in Text.skip_keywords (content m) then
    log INFO (LogSkipSystem (slice_to (content m) 20))
  else if bool_decide (type m = Text.friend)
          && bool_decide (who ∈ listen_list self) then
    reply_to w self fuel who (content m)
  else ret tt.

Definition process_message (w : world) (self : listener) (fuel : nat)
    (who : str) (m : msg) : M unit :=
  if bool_decide (sender m = self_name self) then
    log INFO (LogSkipSelf who (slice_to (content m) 20))
  else
    t <- now w ;;
    s <- get ;;
    put (set_last_message_time who t s) ;;
    log INFO (LogReceived who (content m)) ;;
    filter_and_reply w self fuel who m.

(** [for msg in one_msgs: self.process_message(chat, msg)]. *)
Definition process_batch (w : world) (self : listener) (fuel : nat)
    (who : str) (one_msgs : list msg) : M unit :=
  for_each one_msgs (process_message w self fuel who).

(** Decimal digits, zero padded: [%02d] and [%04d]. *)
Definition digit (n : Z) : char := Z.to_N (48 + n mod 10).
Definition pad2 (n : Z) : str := [digit (n / 10); digit n].
Definition pad4 (n : Z) : str :=
  [digit (n / 1000); digit (n / 100); digit (n / 10); digit n].

(** [now.strftime("%Y年%m月%d日 %H:%M:%S")]. *)
Definition strftime (t : datetime) : str :=
  pad4 (year t) ++ [24180%N] ++ pad2 (month t) ++ [26376%N] ++
  pad2 (day t) ++ [26085%N; 32%N] ++
  pad2 (hour t) ++ [58%N] ++ pad2 (minute t) ++ [58%N] ++ pad2 (second t).

Definition send_time_report (w : world) (self : listener) : M unit :=
  try_except
    (t <- now w ;;
     let current_hour := hour t in
     s <- get ;;
     if (minute t =? 0) && (second t <? 10)
        && negb (current_hour =? last_reported_hour s) then
       let formatted_time := strftime t in
       message <- lift (str_format w (time_report_message self) formatted_time) ;;
       send_msg w (time_report_who self) message ;;
       log INFO (LogReported (time_report_who self)) ;;
       s' <- get ;;
       put (set_last_reported_hour current_hour s')
     else ret tt)
    (fun e => log ERROR (LogReportFailed e)).

(** The first statement of the body of the polling loop. *)
Definition report_check (w : world) (self : listener) : M unit :=
  if time_report self then send_time_report w self else ret tt.

(** One turn of [while self.running:]. *)
Definition poll_cycle (w : world) (self : listener) (fuel : nat) : M unit :=
  try_except
    (report_check w self ;;
     msgs <- get_listen_message w ;;
     for_each msgs (fun chat =>
       let '(who, one_msgs) := chat in
       if bool_decide (who ∈ listen_list self) then
         process_batch w self fuel who one_msgs
       else ret tt) ;;
     sleep (interval self))
    (fun e =>
       log ERROR (LogListenError e) ;;
       sleep 5000).

(** [listen_messages] while the flag [running] is read as true [turns]
    times and then as false. *)
Definition listen_messages (w : world) (self : listener) (fuel : nat)
    (turns : nat) : M unit :=
  log INFO LogListening ;;
  try_except
    (get_listen_message w ;; log INFO LogHistoryCleared)
    (fun e => log ERROR (LogClearFailed e)) ;;
  for_each (seq 0 turns) (fun _ => poll_cycle w self fuel).

(** *** Reading a trace *)

Definition is_log (ev : event) : bool :=
  match ev with EvLog _ _ => true | _ => false end.

Definition is_post (ev : event) : bool :=
  match ev with EvPost _ _ => true | _ => false end.

Definition is_send (ev : event) : bool :=
  match ev with EvSend _ _ _ => true | _ => false end.

(** A [SendMsg] that returned without raising. *)
Definition is_delivered (ev : event) : bool :=
  match ev with EvSend _ _ None => true | _ => false end.

(** A [SendMsg] that raised. *)
Definition is_failed_send (ev : event) : bool :=
  match ev with EvSend _ _ (Some _) => true | _ => false end.

(** A [SendMsg] of the apology text. *)
Definition is_apology (ev : event) : bool :=
  match ev with
  | EvSend _ text _ => bool_decide (text = Text.APOLOGY)
  | _ => false
  end.

(** The calls of [SendMsg] that sending [parts] makes when the first of
    them has index [i] and is the call number [n] of the backend. *)
Fixpoint part_sends (w : world) (who : str) (i n : nat) (parts : list str)
    : list event :=
  match parts with
  | [] => []
  | part :: rest =>
      EvSend who (strip_banner i part) (SendMsg w n who (strip_banner i part))
      :: part_sends w who (S i) (S n) rest
  end.

(** Everything sending [parts] does, in order: each part is handed to
    [SendMsg]; when the call returns, the part is logged as sent and half a
    second is waited; when it raises, the failure is logged and nothing is
    waited.  Either way the next part follows. *)
Fixpoint part_events (w : world) (who : str) (total : Z) (i n : nat)
    (parts : list str) : list event :=
  match parts with
  | [] => []
  | part :: rest =>
      match SendMsg w n who (strip_banner i part) with
      | None =>
          [EvSend who (strip_banner i part) None;
           EvLog INFO (LogPartSent (Z.of_nat i + 1) total who);
           EvSleep 500]
      | Some e =>
          [EvSend who (strip_banner i part) (Some e);
           EvLog ERROR (LogLongFailed e)]
      end ++ part_events w who total (S i) (S n) rest
  end.

(** The number of HTTP attempts in a trace. *)
Definition posts (evs : list event) : Z :=
  Z.of_nat (length (List.filter is_post evs)).

(** *** A sequence of evaluations of the report condition *)

(** [sweep n s]: for each of [n] successive evaluations, the state it starts
    from and what it does. *)
Fixpoint sweep (w : world) (self : listener) (n : nat) (s : state)
    : list (state * list event) :=
  match n with
  | O => []
  | S n' =>
      let '(_, s', evs) := report_check w self s in
      (s, evs) :: sweep w self n' s'
  end.

(** The time an evaluation starting in [s] reads. *)
Definition time_read (w : world) (s : state) : datetime := datetime_now w (n_now s).

(** The hour of the announcement an evaluation delivered, if it did. *)
Definition announced (w : world) (x : state * list event) : option Z :=
  if existsb is_delivered (snd x) then Some (hour (time_read w (fst x))) else None.

Definition announced_hours (w : world) (self : listener) (n : nat) (s : state)
    : list Z :=
  omap (announced w) (sweep w self n s).

(** The hours read by the evaluations of a sweep. *)
Definition hours_read (w : world) (self : listener) (n : nat) (s : state)
    : list Z :=
  map (fun x => hour (time_read w (fst x))) (sweep w self n s).

(** The times read by the evaluations of a sweep. *)
Definition times_read (w : world) (self : listener) (n : nat) (s : state)
    : list datetime :=
  map (fun x => time_read w (fst x)) (sweep w self n s).

(** The time read by an evaluation that delivered an announcement. *)
Definition announced_at (w : world) (x : state * list event) : option datetime :=
  if existsb is_delivered (snd x) then Some (time_read w (fst x)) else None.

Definition announced_times (w : world) (self : listener) (n : nat) (s : state)
    : list datetime :=
  omap (announced_at w) (sweep w self n s).

(** Two times in the same clock hour: the same hour of the same day. *)
Definition same_clock_hour (a b : datetime) : Prop :=
  year a = year b /\ month a = month b /\ day a = day b /\ hour a = hour b.

(** [a] is in an earlier clock hour than [b]: dates and hours compared
    from the year down. *)
Definition clock_hour_lt (a b : datetime) : Prop :=
  year a < year b \/
  (year a = year b /\
   (month a < month b \/
    (month a = month b /\
     (day a < day b \/ (day a = day b /\ hour a < hour b))))).

(** The clock hour of [b] is not before that of [a]. *)
Definition clock_hour_le (a b : datetime) : Prop :=
  clock_hour_lt a b \/ same_clock_hour a b.

(** The order of [datetime] values: all six fields, from the year down. *)
Definition datetime_le (a b : datetime) : Prop :=
  clock_hour_lt a b \/
  (same_clock_hour a b /\
   (minute a < minute b \/ (minute a = minute b /\ second a <= second b))).

(** [no_repeat prev hs]: the first of [hs] differs from [prev] and no two
    neighbours in [hs] are equal. *)
Fixpoint no_repeat (prev : Z) (hs : list Z) : Prop :=
  match hs with
  | [] => True
  | h :: rest => h <> prev /\ no_repeat h rest
  end.

End WeChatListener.

Import WeChatListener.

(** ** Concrete inputs *)

Module Examples.

Definition a : String.string -> str := Text.ascii_str.

(** "aaaaaaaaaa\n🤖【DeepSeek生成】\nbbb": cut once, at its first newline,
    when the limit is 20. *)
Definition two_parts : str :=
  a "aaaaaaaaaa"%string ++ [newline] ++ Text.banner_line ++ a "bbb"%string.

(** "ab\ncdefgh" *)
Definition short_lines : str :=
  a "ab"%string ++ [newline] ++ a "cdefgh"%string.

(** What [get_reply] returns for a generated text of 2000 letters on one
    line: the banner line followed by the text. *)
Definition long_reply : str := Text.banner_line ++ repeat 97%N 2000.

(** The two parts of [two_parts] under the limit 20. *)
Definition two_parts_cut : list str :=
  [ a "aaaaaaaaaa"%string;
    [newline] ++ Text.banner_line ++ a "bbb"%string ].

(** 2024-01-02 05:00:03 *)
Definition five_oclock : datetime :=
  {| year := 2024; month := 1; day := 2; hour := 5; minute := 0; second := 3 |}.

(** A world whose completion endpoint times out at every attempt; the
    chat backend accepts every message and has nothing new. *)
Definition w_timeouts : world :=
  {| http_post := fun _ _ _ => inl Timeout;
     SendMsg := fun _ _ _ => None;
     datetime_now := fun _ => five_oclock;
     GetListenMessage := fun _ => inr [];
     py_str := fun _ => [];
     str_format := fun template text => inr (template ++ text) |}.

(** The endpoint times out once and then answers [{"choices": []}]. *)
Definition w_no_choices : world :=
  {| http_post := fun n _ _ =>
       match n with
       | O => inl Timeout
       | S _ => inr (JObj [(Text.choices, JArr [])])
       end;
     SendMsg := fun _ _ _ => None;
     datetime_now := fun _ => five_oclock;
     GetListenMessage := fun _ => inr [];
     py_str := fun _ => [];
     str_format := fun template text => inr (template ++ text) |}.

Definition key : str := a "sk-test"%string.
Definition hello : str := a "hello"%string.
Definition alice : str := a "Alice"%string.

(** A listener for Alice, named Bot, with a limit of 20 characters. *)
Definition bot : listener :=
  {| listen_list := [alice]; interval := 1000; self_name := a "Bot"%string;
     time_report := true; time_report_who := alice;
     time_report_message := a "time: "%string; max_message_length := 20 |}.

Definition from_alice : msg :=
  {| sender := alice; type := Text.friend; content := hello |}.

(** A message the user wrote in the chat with Alice. *)
Definition from_bot : msg :=
  {| sender := a "Bot"%string; type := Text.friend; content := hello |}.

(** "补充通知: hello", from Alice. *)
Definition notice_from_alice : msg :=
  {| sender := alice; type := Text.friend;
     content := [34917; 20805; 36890; 30693]%N ++ a ": hello"%string |}.

(** The body [{"choices": [{"message": {"content": text}}]}]. *)
Definition completion (text : str) : json :=
  JObj [(Text.choices,
         JArr [JObj [(Text.message, JObj [(Text.content, JStr text)])]])].

(** The endpoint answers "abcdefghij" and the chat backend refuses every
    message. *)
Definition w_send_fails : world :=
  {| http_post := fun _ _ _ => inr (completion (a "abcdefghij"%string));
     SendMsg := fun _ _ _ => Some OtherException;
     datetime_now := fun _ => five_oclock;
     GetListenMessage := fun _ => inr [];
     py_str := fun _ => [];
     str_format := fun template text => inr (template ++ text) |}.

(** The same with the answer "ok", short enough to be sent in one piece. *)
Definition w_short_send_fails : world :=
  {| http_post := fun _ _ _ => inr (completion (a "ok"%string));
     SendMsg := fun _ _ _ => Some OtherException;
     datetime_now := fun _ => five_oclock;
     GetListenMessage := fun _ => inr [];
     py_str := fun _ => [];
     str_format := fun template text => inr (template ++ text) |}.

Definition s0 : state := init_state (Some key).

(** The listener for Alice with the default limit of 2000 characters, and
    an endpoint that answers 2000 letters on one line. *)
Definition bot_2000 : listener :=
  {| listen_list := [alice]; interval := 1000; self_name := a "Bot"%string;
     time_report := true; time_report_who := alice;
     time_report_message := a "time: "%string; max_message_length := 2000 |}.

Definition w_long_line : world :=
  {| http_post := fun _ _ _ => inr (completion (repeat 97%N 2000));
     SendMsg := fun _ _ _ => None;
     datetime_now := fun _ => five_oclock;
     GetListenMessage := fun _ => inr [];
     py_str := fun _ => [];
     str_format := fun template text => inr (template ++ text) |}.

(** What [get_reply] returns in the two worlds above. *)
Definition short_answer : str := Text.banner_line ++ a "ok"%string.
Definition long_answer : str := Text.banner_line ++ a "abcdefghij"%string.

(** The parts of [long_answer] under the limit 20: the banner, then the
    newline and the text. *)
Definition long_answer_parts : list str :=
  [Text.banner; [newline] ++ a "abcdefghij"%string].

(** A clock that shows 05:00:00, 05:00:01, 05:00:02, then the same three
    seconds of six o'clock, and so on. *)
Definition w_two_hours : world :=
  {| http_post := fun _ _ _ => inl Timeout;
     SendMsg := fun _ _ _ => None;
     datetime_now := fun n =>
       {| year := 2024; month := 1; day := 2;
          hour := 5 + Z.of_nat (n / 3); minute := 0;
          second := Z.of_nat (n mod 3) |};
     GetListenMessage := fun _ => inr [];
     py_str := fun _ => [];
     str_format := fun template text => inr (template ++ text) |}.

(** A clock read at 05:00:03 and 06:00:03 of one day and at 05:00:03 of
    the next. *)
Definition w_next_day : world :=
  {| http_post := fun _ _ _ => inl Timeout;
     SendMsg := fun _ _ _ => None;
     datetime_now := fun n =>
       match n with
       | 0%nat => five_oclock
       | 1%nat => {| year := 2024; month := 1; day := 2;
                     hour := 6; minute := 0; second := 3 |}
       | _ => {| year := 2024; month := 1; day := 3;
                 hour := 5; minute := 0; second := 3 |}
       end;
     GetListenMessage := fun _ => inr [];
     py_str := fun _ => [];
     str_format := fun template text => inr (template ++ text) |}.

End Examples.

(** ** Stripping white space *)

Module Strip.

(** [c.isspace()]: the characters [str.strip()] removes. *)
Definition isspace (c : char) : bool :=
  ((9 <=? c) && (c <=? 13) || (28 <=? c) && (c <=? 32) || (c =? 133) ||
   (c =? 160) || (c =? 5760) || (8192 <=? c) && (c <=? 8202) ||
   (c =? 8232) || (c =? 8233) || (c =? 8239) || (c =? 8287) ||
   (c =? 12288))%N.

Fixpoint lstrip (s : str) : str :=
  match s with
  | [] => []
  | c :: s' => if isspace c then lstrip s' else s
  end.

Definition rstrip (s : str) : str := rev (lstrip (rev s)).

(** [s.strip()]. *)
Definition strip (s : str) : str := rstrip (lstrip s).

End Strip.

(** ** Setting up and controlling a listener *)

Module Setup.

(** The exceptions the constructor tells apart: [AttributeError] and any
    other [Exception]. *)
Inductive init_exn := AttributeError | OtherError.

(** The chat backend as the constructor sees it. *)
Record wx_world := {
  (** [WeChat()]: the exception it raises, if any. *)
  WeChat : option init_exn;
  (** [GetSelfInfo()['nickname']]. *)
  GetSelfInfo : init_exn + str;
  (** [GetSessionList()] and [GetAllChats()]: the chats, which are only
      logged. *)
  GetSessionList : init_exn + list str;
  GetAllChats : init_exn + list str;
  (** [AddListenChat(who=contact)], by the number of calls before it. *)
  AddListenChat : nat -> str -> option init_exn
}.

(** One constructor per logging call of the functions modelled here. *)
Inductive setup_log :=
| LogKeySet
| LogNickname (name : str)
| LogNicknameFailed (e : init_exn)
| LogChats (chats : list str)
| LogChatsFailed
| LogContactAdded (contact : str)
| LogContactFailed (contact : str) (e : init_exn)
| LogStartTime (t : datetime)
| LogServiceStarted
| LogReportEnabled (who : str)
| LogServiceStopped
| LogAppListening (contacts : list str)
| LogAppStartFailed (e : init_exn)
| LogAppStopped.

Inductive dialog := NoKeyDialog | NoContactsDialog.

Inductive setup_event :=
| SLog (lv : level) (m : setup_log)
| SAddListenChat (contact : str) (raised : option init_exn)
| SSpawn (thread : nat)          (* Thread(target=listen_messages).start() *)
| SJoin (thread : nat)           (* join(timeout=2.0) *)
| SShowWarning (d : dialog)
| SShowError (e : init_exn).

Definition is_add_listen_chat (ev : setup_event) : bool :=
  match ev with SAddListenChat _ _ => true | _ => false end.

Definition is_spawn (ev : setup_event) : bool :=
  match ev with SSpawn _ => true | _ => false end.

Definition is_stopped_log (ev : setup_event) : bool :=
  match ev with SLog _ LogServiceStopped => true | _ => false end.

(** "未知用户" *)
Definition UNKNOWN_USER : str := [26410; 30693; 29992; 25143]%N.

(** The defaults of the parameters of [__init__]. *)
Definition default_interval : Z := 1000.
Definition default_max_message_length : Z := 2000.

(** [for contact in self.listen_list: try AddListenChat ...]; [n] calls
    were made before. *)
Fixpoint add_listen_chats (wx : wx_world) (n : nat) (contacts : list str)
    : list setup_event :=
  match contacts with
  | [] => []
  | contact :: rest =>
      match AddListenChat wx n contact with
      | None =>
          [SAddListenChat contact None; SLog INFO (LogContactAdded contact)]
      | Some e =>
          [SAddListenChat contact (Some e);
           SLog ERROR (LogContactFailed contact e)]
      end ++ add_listen_chats wx (S n) rest
  end.

(** The name the constructor settles on, and what it logs. *)
Definition find_self_name (wx : wx_world) : str * list setup_event :=
  match GetSelfInfo wx with
  | inr name => (name, [SLog INFO (LogNickname name)])
  | inl e => (UNKNOWN_USER, [SLog ERROR (LogNicknameFailed e)])
  end.

(** The look at the open chats: only [AttributeError] is caught around
    [GetSessionList]. *)
Definition look_at_chats (wx : wx_world) : option init_exn * list setup_event :=
  match GetSessionList wx with
  | inr chats => (None, [SLog INFO (LogChats chats)])
  | inl AttributeError =>
      match GetAllChats wx with
      | inr chats => (None, [SLog INFO (LogChats chats)])
      | inl _ => (None, [SLog WARNING LogChatsFailed])
      end
  | inl OtherError => (Some OtherError, [])
  end.

(** [WeChatListener.__init__]: the listener, or the exception that comes
    out of the constructor, with what was done up to there. *)
Definition init_listener (wx : wx_world) (listen_list : list str)
    (interval : Z) (time_report : bool) (time_report_who : str)
    (time_report_message : str) (max_message_length : Z)
    : (init_exn + listener) * list setup_event :=
  match WeChat wx with
  | Some e => (inl e, [])
  | None =>
      let '(self_name, ev1) := find_self_name wx in
      match look_at_chats wx with
      | (Some e, ev2) => (inl e, ev1 ++ ev2)
      | (None, ev2) =>
          (inr {| WeChatListener.listen_list := listen_list;
                  WeChatListener.interval := interval;
                  WeChatListener.self_name := self_name;
                  WeChatListener.time_report := time_report;
                  WeChatListener.time_report_who := time_report_who;
                  WeChatListener.time_report_message := time_report_message;
                  WeChatListener.max_message_length := max_message_length |},
           ev1 ++ ev2 ++ add_listen_chats wx 0 listen_list)
      end
  end.

(** The attributes [start_listening] and [stop_listening] work on.
    [listener_thread] does not exist before the first start. *)
Record lifecycle := {
  running : bool;
  start_time : option datetime;
  listener_thread : option nat
}.

(** As [__init__] leaves them. *)
Definition new_lifecycle : lifecycle :=
  {| running := false; start_time := None; listener_thread := None |}.

(** The thread object a start creates: the one after the last. *)
Definition next_thread (lc : lifecycle) : nat :=
  match listener_thread lc with
  | None => 0%nat
  | Some n => S n
  end.

(** [WeChatListener.start_listening]; [t] is what [datetime.now()] gives. *)
Definition start_listening (self : listener) (t : datetime) (lc : lifecycle)
    : lifecycle * list setup_event :=
  if running lc then (lc, [])
  else
    ({| running := true; start_time := Some t;
        listener_thread := Some (next_thread lc) |},
     [SLog INFO (LogStartTime t); SSpawn (next_thread lc);
      SLog INFO LogServiceStarted] ++
     (if time_report self
      then [SLog INFO (LogReportEnabled (time_report_who self))]
      else [])).

(** [WeChatListener.stop_listening]; [alive] is what [is_alive()] answers.
    Reading [listener_thread] when it does not exist raises. *)
Definition stop_listening (alive : bool) (lc : lifecycle)
    : (init_exn + lifecycle) * list setup_event :=
  if running lc then
    match listener_thread lc with
    | None => (inl AttributeError, [])
    | Some thread =>
        (inr {| running := false; start_time := start_time lc;
                listener_thread := Some thread |},
         (if alive then [SJoin thread] else []) ++
         [SLog INFO LogServiceStopped])
    end
  else (inr lc, []).

(** A call made on a listener by whoever controls it. *)
Inductive control := Start (t : datetime) | Stop (alive : bool).

(** A sequence of calls; it ends at the first exception. *)
Fixpoint controls (self : listener) (cs : list control) (lc : lifecycle)
    : (init_exn + lifecycle) * list setup_event :=
  match cs with
  | [] => (inr lc, [])
  | Start t :: rest =>
      let '(lc1, ev1) := start_listening self t lc in
      let '(r, ev2) := controls self rest lc1 in
      (r, ev1 ++ ev2)
  | Stop alive :: rest =>
      match stop_listening alive lc with
      | (inl e, ev1) => (inl e, ev1)
      | (inr lc1, ev1) =>
          let '(r, ev2) := controls self rest lc1 in
          (r, ev1 ++ ev2)
      end
  end.

End Setup.

(** ** The application window *)

Module App.

Import Setup.

(** [DeepSeekAPI.set_api_key]. *)
Definition set_api_key (api_key : str) (s : state) : state * list setup_event :=
  ({| API_KEY := Some api_key;
      last_message_time := last_message_time s;
      last_reported_hour := last_reported_hour s;
      n_post := n_post s; n_send := n_send s; n_now := n_now s;
      n_poll := n_poll s |},
   [SLog INFO LogKeySet]).

(** What [status_var] is set to, one constructor per text. *)
Inductive status :=
| StReady
| StAdded (contact : str)
| StRemoved (contact : str)
| StNoKey
| StNoContacts
| StListening (count : Z)
| StError (e : init_exn)
| StStopped.

Inductive indicator := IndReady | IndRunning | IndStopped.

(** A listener object with its mutable attributes. *)
Record instance := { config : listener; life : lifecycle }.

(** The attributes of the window that the handlers read and write; a
    button is [true] when enabled.  [app_listener] is [self.listener]. *)
Record app := {
  api_key_var : str;
  listen_listbox : list str;
  app_listener : option instance;
  start_button : bool;
  stop_button : bool;
  status_indicator : indicator;
  status_var : status
}.

(** ["文件传输助手", "微信团队"] *)
Definition default_contacts : list str :=
  [ [25991; 20214; 20256; 36755; 21161; 25163]%N;
    [24494; 20449; 22242; 38431]%N ].

(** The window as [create_widgets] leaves it. *)
Definition create_widgets : app :=
  {| api_key_var := []; listen_listbox := default_contacts;
     app_listener := None; start_button := true; stop_button := false;
     status_indicator := IndReady; status_var := StReady |}.

Definition with_listbox (lb : list str) (st : status) (a : app) : app :=
  {| api_key_var := api_key_var a; listen_listbox := lb;
     app_listener := app_listener a; start_button := start_button a;
     stop_button := stop_button a; status_indicator := status_indicator a;
     status_var := st |}.

Definition with_status (st : status) (a : app) : app :=
  with_listbox (listen_listbox a) st a.

(** [add_listener]; [answer] is what the dialog returns, [None] when it is
    cancelled. *)
Definition add_listener (answer : option str) (a : app) : app :=
  match answer with
  | Some (c :: contact) =>
      if bool_decide ((c :: contact) ∈ listen_listbox a) then a
      else with_listbox (listen_listbox a ++ [c :: contact])
             (StAdded (c :: contact)) a
  | _ => a
  end.

(** [remove_listener]; [selected] is what [curselection()] returns. *)
Definition remove_listener (selected : list nat) (a : app) : app :=
  match selected with
  | [] => a
  | i :: _ =>
      with_listbox (delete i (listen_listbox a))
        (StRemoved (default [] (listen_listbox a !! i))) a
  end.

(** "⏰ 现在是 {time}，整点报时！" *)
Definition REPORT_TEMPLATE : str :=
  [9200; 32; 29616; 22312; 26159; 32; 123; 116; 105; 109; 101; 125; 65292;
   25972; 28857; 25253; 26102; 65281]%N.

(** The mutable attributes of a listener just built: [__init__] gives it
    an empty [last_message_time] and [last_reported_hour = -1].  The
    credential is a class attribute and stays. *)
Definition new_listener_state (s : state) : state :=
  {| API_KEY := API_KEY s;
     last_message_time := ∅;
     last_reported_hour := -1;
     n_post := n_post s; n_send := n_send s; n_now := n_now s;
     n_poll := n_poll s |}.

(** [WeChatListenerApp.start_listening]. *)
Definition start_listening (wx : wx_world) (t : datetime) (a : app)
    (s : state) : app * state * list setup_event :=
  let api_key := Strip.strip (api_key_var a) in
  match api_key with
  | [] => (with_status StNoKey a, s, [SShowWarning NoKeyDialog])
  | _ :: _ =>
      let '(s1, ev0) := set_api_key api_key s in
      let listen_list := listen_listbox a in
      match listen_list with
      | [] =>
          (with_status StNoContacts a, s1,
           ev0 ++ [SShowWarning NoContactsDialog])
      | first :: _ =>
          match init_listener wx listen_list default_interval true first
                  REPORT_TEMPLATE default_max_message_length with
          | (inl e, ev1) =>
              (with_status (StError e) a, s1,
               ev0 ++ ev1 ++ [SLog ERROR (LogAppStartFailed e); SShowError e])
          | (inr self, ev1) =>
              let '(lc, ev2) := Setup.start_listening self t new_lifecycle in
              ({| api_key_var := api_key_var a;
                  listen_listbox := listen_listbox a;
                  app_listener := Some {| config := self; life := lc |};
                  start_button := false; stop_button := true;
                  status_indicator := IndRunning;
                  status_var := StListening (Z.of_nat (length listen_list)) |},
               new_listener_state s1,
               ev0 ++ ev1 ++ ev2 ++ [SLog INFO (LogAppListening listen_list)])
          end
      end
  end.

(** [WeChatListenerApp.stop_listening]: an exception of the listener's
    [stop_listening] comes out before anything is changed. *)
Definition stop_listening (alive : bool) (a : app)
    : (init_exn + app) * list setup_event :=
  match app_listener a with
  | None => (inr a, [])
  | Some inst =>
      match Setup.stop_listening alive (life inst) with
      | (inl e, ev) => (inl e, ev)
      | (inr _, ev) =>
          (inr {| api_key_var := api_key_var a;
                  listen_listbox := listen_listbox a;
                  app_listener := None;
                  start_button := true; stop_button := false;
                  status_indicator := IndStopped;
                  status_var := StStopped |},
           ev ++ [SLog INFO LogAppStopped])
      end
  end.

(** What the user does in the window, or a call of the handler behind a
    button. *)
Inductive action :=
| TypeKey (text : str)
| AddContact (answer : option str)
| RemoveContact (selected : list nat)
| PressStart (wx : wx_world) (t : datetime)
| PressStop (alive : bool).

Definition type_key (text : str) (a : app) : app :=
  {| api_key_var := text; listen_listbox := listen_listbox a;
     app_listener := app_listener a; start_button := start_button a;
     stop_button := stop_button a; status_indicator := status_indicator a;
     status_var := status_var a |}.

(** One action: the handler is called.  The window survives an exception
    of a handler unchanged. *)
Definition act (x : action) (a : app) (s : state) : app * state :=
  match x with
  | TypeKey text => (type_key text a, s)
  | AddContact answer => (add_listener answer a, s)
  | RemoveContact selected => (remove_listener selected a, s)
  | PressStart wx t => fst (start_listening wx t a s)
  | PressStop alive =>
      match fst (stop_listening alive a) with
      | inr a' => (a', s)
      | inl _ => (a, s)
      end
  end.

Fixpoint acts (xs : list action) (a : app) (s : state) : app * state :=
  match xs with
  | [] => (a, s)
  | x :: rest => let '(a1, s1) := act x a s in acts rest a1 s1
  end.

(** [window_ok a s]: the contacts are distinct and none is empty; either
    there is no listener, the start button is enabled and the stop button
    is not, or there is a running listener with its thread, a credential
    is set, and the buttons are the other way round. *)
Definition window_ok (a : app) (s : state) : Prop :=
  NoDup (listen_listbox a) /\
  ~ In [] (listen_listbox a) /\
  match app_listener a with
  | None => start_button a = true /\ stop_button a = false
  | Some inst =>
      start_button a = false /\ stop_button a = true /\
      running (life inst) = true /\ listener_thread (life inst) <> None /\
      key_missing s = false
  end.

(** *** Colouring the log *)

Inductive tag := TagError | TagWarning | TagInfo | TagSuccess.

(** The tag [update_logs] gives an entry, if any. *)
Definition log_tag (log_entry : str) : option tag :=
  if contains (Text.ascii_str "ERROR"%string) log_entry then Some TagError
  else if contains (Text.ascii_str "WARNING"%string) log_entry then Some TagWarning
  else if contains (Text.ascii_str "INFO"%string) log_entry then Some TagInfo
  else if contains [25104; 21151]%N log_entry      (* "成功" *)
          || contains [24320; 22987]%N log_entry   (* "开始" *)
       then Some TagSuccess
  else None.

(** The level names of [logging]. *)
Definition levelname (lv : level) : str :=
  match lv with
  | INFO => Text.ascii_str "INFO"%string
  | WARNING => Text.ascii_str "WARNING"%string
  | ERROR => Text.ascii_str "ERROR"%string
  end.

(** An entry as the formatter ['%(asctime)s - %(levelname)s - %(message)s']
    writes it. *)
Definition format_record (asctime : str) (lv : level) (message : str) : str :=
  asctime ++ Text.ascii_str " - "%string ++ levelname lv ++
  Text.ascii_str " - "%string ++ message.

End App.

(** ** What a reply can be *)

Module Replies.

(** The texts [get_reply] falls back on once a credential is set. *)
Definition is_fallback (r : str) : Prop :=
  r = Text.STILL_THINKING \/ r = Text.TIMED_OUT \/ r = Text.NETWORK_PROBLEM \/
  r = Text.PROCESSING_ERROR \/ r = Text.UNAVAILABLE.

(** A generated reply: the banner line and a text. *)
Definition is_generated (r : str) : Prop :=
  exists text, r = Text.banner_line ++ text.

Definition is_sleep (ev : event) : bool :=
  match ev with EvSleep _ => true | _ => false end.

(** The body's way to the reply text, as [request] walks it. *)
Definition reply_content (data : json) : exn + json :=
  match getitem_key data Text.choices with
  | inl e => inl e
  | inr all =>
      match getitem_0 all with
      | inl e => inl e
      | inr first =>
          match getitem_key first Text.message with
          | inl e => inl e
          | inr inner => getitem_key inner Text.content
          end
      end
  end.

(** The text the last attempt ends with when it fails in transport. *)
Definition last_failure_text (r : exn + json) : str :=
  match r with
  | inl Timeout => Text.TIMED_OUT
  | _ => Text.NETWORK_PROBLEM
  end.

End Replies.

(** ** More concrete inputs *)

Module MoreExamples.

Import Examples.

(** Two timeouts, then a connection error. *)
Definition w_mixed_failures : world :=
  {| http_post := fun n _ _ =>
       match n with
       | 2%nat => inl RequestException
       | _ => inl Timeout
       end;
     SendMsg := fun _ _ _ => None;
     datetime_now := fun _ => five_oclock;
     GetListenMessage := fun _ => inr [];
     py_str := fun _ => [];
     str_format := fun template text => inr (template ++ text) |}.

(** The endpoint answers "ok" and the chat backend accepts it. *)
Definition w_ok : world :=
  {| http_post := fun _ _ _ => inr (completion (a "ok"%string));
     SendMsg := fun _ _ _ => None;
     datetime_now := fun _ => five_oclock;
     GetListenMessage := fun _ => inr [];
     py_str := fun _ => [];
     str_format := fun template text => inr (template ++ text) |}.

(** The body [{"choices": [{}]}]: choices, but no message in the first. *)
Definition no_message : json := JObj [(Text.choices, JArr [JObj []])].

Definition w_no_message : world :=
  {| http_post := fun _ _ _ => inr no_message;
     SendMsg := fun _ _ _ => None;
     datetime_now := fun _ => five_oclock;
     GetListenMessage := fun _ => inr [];
     py_str := fun _ => [];
     str_format := fun template text => inr (template ++ text) |}.

(** What [get_reply] returns for a generated text of 5000 letters on one
    line. *)
Definition reply_5000 : str := Text.banner_line ++ repeat 97%N 5000.

(** The endpoint answers with the body [[]], a list and not an object. *)
Definition w_list_body : world :=
  {| http_post := fun _ _ _ => inr (JArr []);
     SendMsg := fun _ _ _ => None;
     datetime_now := fun _ => five_oclock;
     GetListenMessage := fun _ => inr [];
     py_str := fun _ => [];
     str_format := fun template text => inr (template ++ text) |}.

(** The chat backend cannot be reached. *)
Definition w_fetch_fails : world :=
  {| http_post := fun _ _ _ => inl Timeout;
     SendMsg := fun _ _ _ => None;
     datetime_now := fun _ => five_oclock;
     GetListenMessage := fun _ => inl OtherException;
     py_str := fun _ => [];
     str_format := fun template text => inr (template ++ text) |}.

(** Every fetch brings one message, in a chat with Carol. *)
Definition w_carol : world :=
  {| http_post := fun _ _ _ => inr (completion (a "ok"%string));
     SendMsg := fun _ _ _ => None;
     datetime_now := fun _ => five_oclock;
     GetListenMessage := fun _ => inr [(a "Carol"%string, [from_alice])];
     py_str := fun _ => [];
     str_format := fun template text => inr (template ++ text) |}.

(** The report cannot be sent: the chat backend refuses every message. *)
Definition w_report_fails : world :=
  {| http_post := fun _ _ _ => inl Timeout;
     SendMsg := fun _ _ _ => Some OtherException;
     datetime_now := fun _ => five_oclock;
     GetListenMessage := fun _ => inr [];
     py_str := fun _ => [];
     str_format := fun template text => inr (template ++ text) |}.

(** A chat backend that starts, but cannot tell the user's name, has no
    [GetSessionList], and refuses the first contact it is given. *)
Definition wx_flaky : Setup.wx_world :=
  {| Setup.WeChat := None;
     Setup.GetSelfInfo := inl Setup.OtherError;
     Setup.GetSessionList := inl Setup.AttributeError;
     Setup.GetAllChats := inl Setup.OtherError;
     Setup.AddListenChat := fun n _ =>
       match n with
       | O => Some Setup.OtherError
       | S _ => None
       end |}.

(** A chat backend on which everything works. *)
Definition wx_fine : Setup.wx_world :=
  {| Setup.WeChat := None;
     Setup.GetSelfInfo := inr (a "Bot"%string);
     Setup.GetSessionList := inr [alice];
     Setup.GetAllChats := inr [alice];
     Setup.AddListenChat := fun _ _ => None |}.

(** A chat backend that cannot be started. *)
Definition wx_broken : Setup.wx_world :=
  {| Setup.WeChat := Some Setup.OtherError;
     Setup.GetSelfInfo := inr (a "Bot"%string);
     Setup.GetSessionList := inr [alice];
     Setup.GetAllChats := inr [alice];
     Setup.AddListenChat := fun _ _ => None |}.

(** The window with the key " sk-1 " typed in and both contacts removed. *)
Definition no_contacts : App.app :=
  App.remove_listener [0%nat]
    (App.remove_listener [0%nat]
       (App.type_key (a " sk-1 "%string) App.create_widgets)).

End MoreExamples.

(** * Properties *)

(** ** Strings *)

Lemma len_nonneg (s : str) : 0 <= len s.
Proof. unfold len. lia. Qed.

Lemma slice_to_from (s : str) (i : Z) : slice_to s i ++ slice_from s i = s.
Proof. unfold slice_to, slice_from. apply take_drop. Qed.

Lemma starts_with_app (sub s : str) :
  starts_with sub s = true -> s = sub ++ drop (length sub) s.
Proof.
  revert s. induction sub as [|x sub IH]; intros [|y s] H; simpl in *;
    try reflexivity; try discriminate.
  apply andb_true_iff in H as [Hxy Hs].
  apply N.eqb_eq in Hxy. subst y. f_equal. now apply IH.
Qed.

Lemma starts_with_self (sub s : str) : starts_with sub (sub ++ s) = true.
Proof.
  induction sub as [|x sub IH]; simpl; [reflexivity|].
  rewrite N.eqb_refl. exact IH.
Qed.

(** [sub in s] holds exactly when [sub] occurs somewhere in [s]. *)
Lemma contains_app (sub pre post : str) :
  contains sub (pre ++ sub ++ post) = true.
Proof.
  induction pre as [|c pre IH]; simpl.
  - destruct (sub ++ post) eqn:E; simpl.
    + destruct sub; [reflexivity | discriminate].
    + rewrite <- E, starts_with_self. reflexivity.
  - rewrite IH. apply orb_true_r.
Qed.

Lemma contains_inv (sub s : str) :
  contains sub s = true -> exists pre post, s = pre ++ sub ++ post.
Proof.
  induction s as [|c s IH]; simpl; intros H.
  - rewrite orb_false_r in H. destruct sub; [|discriminate].
    exists [], []. reflexivity.
  - apply orb_true_iff in H as [H|H].
    + exists [], (drop (length sub) (c :: s)).
      now apply (starts_with_app sub (c :: s)).
    + destruct (IH H) as (pre & post & ->).
      exists (c :: pre), post. reflexivity.
Qed.

Lemma any_in_true (keys : list str) (k pre post : str) :
  In k keys -> any_in keys (pre ++ k ++ post) = true.
Proof.
  intros Hk. unfold any_in. apply existsb_exists.
  exists k. split; [exact Hk | apply contains_app].
Qed.

Lemma rindex_absent (c : char) (s : str) : ~ In c s -> rindex c s = None.
Proof.
  induction s as [|x s IH]; simpl; intros H; [reflexivity|].
  rewrite IH by tauto.
  destruct (N.eqb_spec x c); [tauto | reflexivity].
Qed.

Lemma rfind_absent (c : char) (s : str) (start stop : Z) :
  ~ In c s -> rfind c s start stop = -1.
Proof.
  intros H. unfold rfind, slice. rewrite rindex_absent; [reflexivity|].
  intros Hin. apply H.
  apply list_elem_of_In in Hin. apply list_elem_of_In.
  eapply subseteq_drop, subseteq_take, Hin.
Qed.

(** ** The chunker *)

Lemma split_step_concat (max : Z) (m part rest : str) :
  split_step max m = (part, rest) -> part ++ rest = m.
Proof.
  unfold split_step. destruct (len m >? max); intros [= <- <-].
  - apply slice_to_from.
  - apply app_nil_r.
Qed.

(** What has been cut off so far, followed by what is left, is the text:
    the invariant of the loop. *)
Lemma split_loop_concat (fuel : nat) (max : Z) :
  forall (m : str) (parts ps : list str),
    split_loop fuel max m parts = Some ps -> concat ps = concat parts ++ m.
Proof.
  induction fuel as [|fuel IH]; intros [|c m] parts ps; simpl;
    try (intros [= <-]; now rewrite app_nil_r); try discriminate.
  destruct (split_step max (c :: m)) as [part rest] eqn:E. intros H.
  apply IH in H. rewrite H, concat_app. simpl.
  rewrite app_nil_r, <- app_assoc. f_equal.
  now apply split_step_concat in E.
Qed.

(** A turn that cuts at index 0 leaves the message as it was, and so does
    every later turn. *)
Lemma split_loop_stuck (max : Z) (m : str) :
  m <> [] -> split_step max m = ([], m) ->
  forall (fuel : nat) (parts : list str), split_loop fuel max m parts = None.
Proof.
  intros Hm E fuel. induction fuel as [|fuel IH]; intros parts;
    destruct m as [|c m]; try congruence; simpl; [reflexivity|].
  rewrite E. apply IH.
Qed.

(** A text without any newline is cut every [max] characters, and the loop
    ends within as many turns as the text has characters. *)
Lemma split_loop_one_line (max : Z) :
  0 < max ->
  forall (fuel : nat) (m : str) (parts : list str),
    (length m <= fuel)%nat -> ~ In newline m ->
    exists ps, split_loop fuel max m parts = Some ps.
Proof.
  intros Hmax. induction fuel as [|fuel IH]; intros [|c m] parts Hlen Hnl;
    simpl in Hlen |- *; try (eexists; reflexivity); try lia.
  unfold split_step. destruct (len (c :: m) >? max) eqn:Hgt.
  - rewrite (rfind_absent newline (c :: m) 0 max Hnl). simpl.
    apply IH.
    + unfold slice_from, adjust_index.
      replace (max <? 0) with false by (symmetry; apply Z.ltb_ge; lia).
      rewrite length_drop. unfold len in *. simpl length in *. lia.
    + intros Hin. apply Hnl. unfold slice_from in Hin.
      apply list_elem_of_In. apply list_elem_of_In in Hin.
      eapply subseteq_drop, Hin.
  - destruct fuel; simpl; eexists; reflexivity.
Qed.

Lemma Reinsert_refl (s : str) : Reinsert s s.
Proof. induction s; constructor; assumption. Qed.

Lemma replace_scan_reinsert (n : nat) :
  forall s : str,
    (length s <= n)%nat ->
    Reinsert (replace_scan n Text.banner_line [] s) s.
Proof.
  induction n as [|n IH]; intros [|c s] Hlen; simpl in Hlen;
    try (simpl; constructor); try lia.
  cbn [replace_scan].
  destruct (starts_with Text.banner_line (c :: s)) eqn:E.
  - apply starts_with_app in E. rewrite E at 2. simpl app at 1.
    apply Reinsert_banner, IH.
    rewrite length_drop. simpl length. lia.
  - constructor. apply IH. lia.
Qed.

Lemma strip_banner_reinsert (i : nat) (part : str) :
  Reinsert (strip_banner i part) part.
Proof.
  unfold strip_banner.
  destruct ((0 <? i)%nat && contains Text.banner part); [|apply Reinsert_refl].
  apply (replace_scan_reinsert (length part)). lia.
Qed.

Lemma imap_reinsert (f : nat -> str -> str) (parts : list str) :
  (forall i p, Reinsert (f i p) p) -> Forall2 Reinsert (imap f parts) parts.
Proof.
  revert f. induction parts as [|p parts IH]; intros f Hf; simpl;
    constructor; [apply Hf|].
  apply IH. intros i q. apply Hf.
Qed.

Lemma sent_parts_restores (parts : list str) :
  Restores (sent_parts parts) parts.
Proof.
  destruct parts as [|p parts]; [constructor|].
  unfold sent_parts. simpl. change (strip_banner 0 p) with p.
  constructor. apply imap_reinsert. intros i q. apply strip_banner_reinsert.
Qed.

Lemma split_loop_unfold (fuel : nat) (max : Z) (m : str) (parts : list str) :
  m <> [] ->
  split_loop (S fuel) max m parts =
  split_loop fuel max (snd (split_step max m)) (parts ++ [fst (split_step max m)]).
Proof.
  destruct m as [|c m]; [congruence|]. intros _. simpl.
  now destruct (split_step max (c :: m)).
Qed.

Lemma split_turns_concat (n : nat) (max : Z) :
  forall (m : str) (parts : list str),
    concat (snd (split_turns n max m parts)) ++ fst (split_turns n max m parts)
    = concat parts ++ m.
Proof.
  induction n as [|n IH]; intros [|c m] parts; simpl; try reflexivity.
  destruct (split_step max (c :: m)) as [part rest] eqn:E.
  rewrite IH, concat_app. simpl. rewrite app_nil_r, <- app_assoc. f_equal.
  now apply split_step_concat in E.
Qed.

(** The loop ends within [fuel] turns exactly when nothing is left after
    [fuel] turns, and its result is what was collected. *)
Lemma split_loop_turns (fuel : nat) (max : Z) :
  forall (m : str) (parts ps : list str),
    split_loop fuel max m parts = Some ps <->
    split_turns fuel max m parts = ([], ps).
Proof.
  induction fuel as [|fuel IH]; intros [|c m] parts ps; simpl.
  - split; [intros [= <-] | intros [= <-]]; reflexivity.
  - split; discriminate.
  - split; [intros [= <-] | intros [= <-]]; reflexivity.
  - destruct (split_step max (c :: m)) as [part rest]. apply IH.
Qed.

(** The loop ends exactly on the texts for which no turn cuts at index 0. *)
Lemma split_loop_ends_iff (max : Z) (m : str) :
  (exists fuel ps, split_loop fuel max m [] = Some ps) <-> Progress max m.
Proof.
  split.
  - intros (fuel & ps & H). revert m H. generalize (@nil str) as parts.
    induction fuel as [|fuel IH]; intros parts [|c m] H; simpl in H;
      try apply Progress_done; try discriminate.
    destruct (split_step max (c :: m)) as [part rest] eqn:E.
    assert (Hpart : part <> []).
    { intros ->. pose proof (split_step_concat _ _ _ _ E) as Hc.
      simpl in Hc. subst rest.
      rewrite (split_loop_stuck max (c :: m)) in H; [discriminate| |exact E].
      discriminate. }
    apply Progress_turn; rewrite ?E; cbn [fst snd];
      [discriminate | exact Hpart | apply (IH _ _ H)].
  - intros H. generalize (@nil str) as parts.
    induction H as [|m Hm Hpart Hrest IH]; intros parts.
    + exists 0%nat, parts. reflexivity.
    + destruct (IH (parts ++ [fst (split_step max m)])) as (fuel & ps & Hps).
      exists (S fuel), ps. rewrite split_loop_unfold by exact Hm. exact Hps.
Qed.

(** When the splitting phase ends, its parts joined in order are the
    reply text, and the segments handed to [SendMsg] are those parts once
    the banner lines removed from the segments after the first are put
    back. *)
Lemma parts_restore_text (fuel : nat) (max : Z) (text : str)
    (parts : list str) :
  split_parts fuel max text = Some parts ->
  concat parts = text /\ Restores (sent_parts parts) parts.
Proof.
  intros H. split.
  - apply split_loop_concat in H. exact H.
  - apply sent_parts_restores.
Qed.

(** On the texts on which every turn cuts off something, and on no
    others, the phase does end, and its segments give the text back. *)
Lemma roundtrip_iff_progress (max : Z) (text : str) :
  Progress max text <->
  exists (fuel : nat) (parts : list str),
    split_parts fuel max text = Some parts /\
    concat parts = text /\ Restores (sent_parts parts) parts.
Proof.
  split.
  - intros H. apply split_loop_ends_iff in H as (fuel & parts & H).
    exists fuel, parts. split; [exact H|].
    exact (parts_restore_text fuel max text parts H).
  - intros (fuel & parts & H & _). apply split_loop_ends_iff. eauto.
Qed.

Example two_parts_roundtrip :
  split_parts 10 20 Examples.two_parts = Some Examples.two_parts_cut /\
  concat Examples.two_parts_cut = Examples.two_parts /\
  Restores (sent_parts Examples.two_parts_cut) Examples.two_parts_cut.
Proof.
  split; [reflexivity|].
  apply (parts_restore_text 10 20). reflexivity.
Qed.

(** The banner line is really taken out of the second segment there. *)
Example two_parts_sent :
  sent_parts Examples.two_parts_cut =
  [ Examples.a "aaaaaaaaaa"%string; [newline] ++ Examples.a "bbb"%string ].
Proof. reflexivity. Qed.

Lemma split_turns_stuck (max : Z) (m : str) :
  m <> [] -> split_step max m = ([], m) ->
  forall (n : nat) (parts : list str), fst (split_turns n max m parts) = m.
Proof.
  intros Hm E n. induction n as [|n IH]; intros parts;
    destruct m as [|c m]; try congruence; simpl; [reflexivity|].
  rewrite E. apply IH.
Qed.

Lemma chunker_long_line_stuck (fuel : nat) :
  split_parts fuel 2000 Examples.long_reply = None.
Proof.
  destruct fuel as [|fuel]; [reflexivity|]. unfold split_parts.
  rewrite split_loop_unfold by discriminate.
  apply split_loop_stuck.
  - vm_compute. discriminate.
  - vm_compute. reflexivity.
Qed.

(** C2. The splitting loop does not end on every text: the reply built
    from a generated text of 2000 letters on one line is first cut after
    the banner, at the newline that follows it; what is left starts with
    that newline, is still longer than the limit 2000 and holds no other
    newline, so every further turn cuts at index 0 and appends an empty
    part.  No number of turns produces the list of parts: after any
    number of turns the newline and the 2000 letters are still left. *)
Theorem chunker_never_ends_on_long_line :
  (forall fuel : nat, split_parts fuel 2000 Examples.long_reply = None) /\
  (forall n : nat,
     fst (split_turns (S n) 2000 Examples.long_reply [])
     = newline :: repeat 97%N 2000).
Proof.
  split; [exact chunker_long_line_stuck|]. intros n.
  assert (E : split_step 2000 Examples.long_reply
              = (Text.banner, newline :: repeat 97%N 2000))
    by (vm_compute; reflexivity).
  change (split_turns (S n) 2000 Examples.long_reply [])
    with (let '(part, rest) := split_step 2000 Examples.long_reply in
          split_turns n 2000 rest ([] ++ [part])).
  rewrite E. apply split_turns_stuck.
  - discriminate.
  - vm_compute. reflexivity.
Qed.

(** The same with a limit of 4, on "ab\ncdefgh". *)
Example chunker_never_ends_short :
  forall fuel : nat, split_parts fuel 4 Examples.short_lines = None.
Proof.
  intros [|fuel]; [reflexivity|]. unfold split_parts.
  rewrite split_loop_unfold by discriminate.
  apply split_loop_stuck; vm_compute; [discriminate | reflexivity].
Qed.

(** C1. Not every reply comes back from its segments, because not every
    reply gets segments: for "ab\ncdefgh" under the limit 4, and for the
    replies built from 2000 and from 5000 letters on one line under the
    default limit 2000, the splitting phase of [send_long_message] yields
    no list of parts whatever the number of turns, so there are no
    segments whose concatenation could be the text, and
    [send_long_message] hands nothing to [SendMsg]: from any state it is
    still in its loop, having done nothing, when the turns run out. *)
Theorem roundtrip_has_no_segments :
  (forall fuel : nat, split_parts fuel 4 Examples.short_lines = None) /\
  ~ (exists (fuel : nat) (parts : list str),
       split_parts fuel 4 Examples.short_lines = Some parts /\
       concat parts = Examples.short_lines) /\
  ~ (exists (fuel : nat) (parts : list str),
       split_parts fuel 2000 Examples.long_reply = Some parts /\
       concat parts = Examples.long_reply) /\
  ~ (exists (fuel : nat) (parts : list str),
       split_parts fuel 2000 MoreExamples.reply_5000 = Some parts /\
       concat parts = MoreExamples.reply_5000) /\
  (forall (w : world) (fuel : nat) (who : str) (s : state),
     send_long_message w Examples.bot_2000 fuel who Examples.long_reply s =
       (OutOfFuel, s, []) /\
     send_long_message w Examples.bot_2000 fuel who MoreExamples.reply_5000 s =
       (OutOfFuel, s, [])).
Proof.
  assert (H5000 : forall fuel : nat,
            split_parts fuel 2000 MoreExamples.reply_5000 = None).
  { intros [|fuel]; [reflexivity|]. unfold split_parts.
    rewrite split_loop_unfold by discriminate.
    apply split_loop_stuck; vm_compute; [discriminate | reflexivity]. }
  split; [exact chunker_never_ends_short|]. split; [|split; [|split]].
  - intros (fuel & parts & H & _). rewrite chunker_never_ends_short in H.
    discriminate.
  - intros (fuel & parts & H & _). rewrite chunker_long_line_stuck in H.
    discriminate.
  - intros (fuel & parts & H & _). rewrite H5000 in H. discriminate.
  - intros w fuel who s. unfold send_long_message.
    change (max_message_length Examples.bot_2000) with 2000.
    rewrite chunker_long_line_stuck, H5000. split; reflexivity.
Qed.

(** ** Reasoning about effects *)

Section Effects.

Context {A B : Type}.

Lemma run_eta (c : M A) (s : state) : c s = (result c s, final c s, events c s).
Proof. unfold result, final, events. now destruct (c s) as [[? ?] ?]. Qed.

Lemma bind_ok (c : M A) (k : A -> M B) (s s1 : state) (a : A)
    (e1 : list event) :
  c s = (Ok a, s1, e1) ->
  bind c k s = (result (k a) s1, final (k a) s1, e1 ++ events (k a) s1).
Proof.
  intros E. unfold bind, result, final, events. rewrite E.
  now destruct (k a s1) as [[? ?] ?].
Qed.

Lemma result_bind_ok (c : M A) (k : A -> M B) (s s1 : state) (a : A)
    (e1 : list event) :
  c s = (Ok a, s1, e1) -> result (bind c k) s = result (k a) s1.
Proof. intros E. unfold result at 1. now rewrite (bind_ok c k s s1 a e1 E). Qed.

Lemma final_bind_ok (c : M A) (k : A -> M B) (s s1 : state) (a : A)
    (e1 : list event) :
  c s = (Ok a, s1, e1) -> final (bind c k) s = final (k a) s1.
Proof. intros E. unfold final at 1. now rewrite (bind_ok c k s s1 a e1 E). Qed.

Lemma events_bind_ok (c : M A) (k : A -> M B) (s s1 : state) (a : A)
    (e1 : list event) :
  c s = (Ok a, s1, e1) -> events (bind c k) s = e1 ++ events (k a) s1.
Proof. intros E. unfold events at 1. now rewrite (bind_ok c k s s1 a e1 E). Qed.

Lemma ends_ret (a : A) (r d : bool) : ends (ret a) r d.
Proof. intros s. exact I. Qed.

Lemma ends_raise (e : exn) (d : bool) : ends (raise e : M A) true d.
Proof. intros s. reflexivity. Qed.

Lemma ends_out_of_fuel (r : bool) : ends (out_of_fuel : M A) r true.
Proof. intros s. reflexivity. Qed.

Lemma ends_lift (x : exn + A) (d : bool) : ends (lift x) true d.
Proof. destruct x; [apply ends_raise | apply ends_ret]. Qed.

Lemma ends_bind (c : M A) (k : A -> M B) (r d : bool) :
  ends c r d -> (forall a, ends (k a) r d) -> ends (bind c k) r d.
Proof.
  intros Hc Hk s. specialize (Hc s). unfold result, bind in *.
  destruct (c s) as [[[a| e |] s1] e1]; simpl in *; try assumption.
  specialize (Hk a s1). unfold result in Hk.
  destruct (k a s1) as [[? ?] ?]. exact Hk.
Qed.

Lemma ends_try (c : M A) (h : exn -> M A) (r d : bool) :
  ends c true d -> (forall e, ends (h e) r d) -> ends (try_except c h) r d.
Proof.
  intros Hc Hh s. specialize (Hc s). unfold result, try_except in *.
  destruct (c s) as [[[a| e |] s1] e1]; simpl in *; try assumption.
  specialize (Hh e s1). unfold result in Hh.
  destruct (h e s1) as [[? ?] ?]. exact Hh.
Qed.

Lemma frame_ret (a : A) : frame (ret a).
Proof. intros s. reflexivity. Qed.

Lemma frame_raise (e : exn) : frame (raise e : M A).
Proof. intros s. reflexivity. Qed.

Lemma frame_out_of_fuel : frame (out_of_fuel : M A).
Proof. intros s. reflexivity. Qed.

Lemma frame_lift (x : exn + A) : frame (lift x).
Proof. destruct x; [apply frame_raise | apply frame_ret]. Qed.

Lemma frame_bind (c : M A) (k : A -> M B) :
  frame c -> (forall a, frame (k a)) -> frame (bind c k).
Proof.
  intros Hc Hk s. specialize (Hc s). unfold final, bind in *.
  destruct (c s) as [[[a| e |] s1] e1]; simpl in *; try assumption.
  specialize (Hk a s1). unfold final in Hk.
  destruct (k a s1) as [[? ?] ?]. simpl in *. congruence.
Qed.

Lemma frame_try (c : M A) (h : exn -> M A) :
  frame c -> (forall e, frame (h e)) -> frame (try_except c h).
Proof.
  intros Hc Hh s. specialize (Hc s). unfold final, try_except in *.
  destruct (c s) as [[[a| e |] s1] e1]; simpl in *; try assumption.
  specialize (Hh e s1). unfold final in Hh.
  destruct (h e s1) as [[? ?] ?]. simpl in *. congruence.
Qed.

End Effects.

Lemma ends_emit (ev : event) (r d : bool) : ends (emit ev) r d.
Proof. intros s. exact I. Qed.

Lemma ends_log (lv : level) (m : logmsg) (r d : bool) : ends (log lv m) r d.
Proof. apply ends_emit. Qed.

Lemma ends_sleep (ms : Z) (r d : bool) : ends (sleep ms) r d.
Proof. apply ends_emit. Qed.

Lemma ends_get (r d : bool) : ends get r d.
Proof. intros s. exact I. Qed.

Lemma ends_put (s0 : state) (r d : bool) : ends (put s0) r d.
Proof. intros s. exact I. Qed.

Lemma ends_now (w : world) (r d : bool) : ends (now w) r d.
Proof. intros s. exact I. Qed.

Lemma ends_post (w : world) (m : str) (t : Z) (d : bool) : ends (post w m t) true d.
Proof. intros s. unfold result, post. simpl. now destruct (http_post w _ _ _). Qed.

Lemma ends_send_msg (w : world) (who text : str) (d : bool) :
  ends (send_msg w who text) true d.
Proof. intros s. unfold result, send_msg. simpl. now destruct (SendMsg w _ _ _). Qed.

Lemma ends_get_listen_message (w : world) (d : bool) :
  ends (get_listen_message w) true d.
Proof.
  intros s. unfold result, get_listen_message. simpl.
  now destruct (GetListenMessage w _).
Qed.

Lemma ends_for_each {A} (xs : list A) (body : A -> M unit) (r d : bool) :
  (forall x, ends (body x) r d) -> ends (for_each xs body) r d.
Proof.
  intros H. induction xs as [|x xs IH]; simpl.
  - apply ends_ret.
  - apply ends_bind; [apply H | intros _; exact IH].
Qed.

Lemma frame_emit (ev : event) : frame (emit ev).
Proof. intros s. reflexivity. Qed.

Lemma frame_log (lv : level) (m : logmsg) : frame (log lv m).
Proof. apply frame_emit. Qed.

Lemma frame_sleep (ms : Z) : frame (sleep ms).
Proof. apply frame_emit. Qed.

Lemma frame_get : frame get.
Proof. intros s. reflexivity. Qed.

Lemma frame_post (w : world) (m : str) (t : Z) : frame (post w m t).
Proof. intros s. reflexivity. Qed.

Lemma frame_send_msg (w : world) (who text : str) : frame (send_msg w who text).
Proof. intros s. reflexivity. Qed.

Lemma frame_now (w : world) : frame (now w).
Proof. intros s. reflexivity. Qed.

Create HintDb eff.

#[local] Hint Resolve ends_ret ends_raise ends_out_of_fuel ends_lift ends_emit
  ends_log ends_sleep ends_get ends_put ends_now ends_post ends_send_msg
  ends_get_listen_message : eff.
#[local] Hint Resolve frame_ret frame_raise frame_out_of_fuel frame_lift
  frame_emit frame_log frame_sleep frame_get frame_post frame_send_msg
  frame_now : eff.

(** Splits a goal [ends c r d] or [frame c] along the shape of [c]. *)
Ltac step_eff :=
  match goal with
  | |- ends (bind _ _) _ _ => apply ends_bind; [|intros ?]
  | |- ends (try_except _ _) _ _ => apply ends_try; [|intros ?]
  | |- frame (bind _ _) => apply frame_bind; [|intros ?]
  | |- frame (try_except _ _) => apply frame_try; [|intros ?]
  | |- ends (if ?b then _ else _) _ _ => destruct b
  | |- frame (if ?b then _ else _) => destruct b
  | |- ends (match ?x with _ => _ end) _ _ => destruct x
  | |- frame (match ?x with _ => _ end) => destruct x
  end.

Ltac eff := repeat step_eff; auto with eff.

(** Case analysis on the innermost [match] of the goal. *)
Ltac split_match :=
  match goal with
  | |- context [match ?x with _ => _ end] =>
      match x with
      | context [match _ with _ => _ end] => fail 1
      | _ => destruct x eqn:?; simpl
      end
  end.

(** ** [get_reply] *)

Lemma ends_request (w : world) (message : str) (attempt : Z) (d : bool) :
  ends (request w message attempt) true d.
Proof. unfold request. eff. Qed.

Lemma ends_on_error (retries attempt : Z) (e : exn) (r d : bool) :
  ends (on_error retries attempt e) r d.
Proof. unfold on_error. eff. Qed.

Lemma ends_attempts (w : world) (message : str) (retries : Z) (todo : list Z)
    (r d : bool) :
  ends (attempts w message retries todo) r d.
Proof.
  induction todo as [|attempt rest IH]; simpl; [apply ends_ret|].
  apply ends_bind.
  - apply ends_try; [apply ends_request | intros e; apply ends_on_error].
  - intros [reply|]; [apply ends_ret | exact IH].
Qed.

Lemma ends_get_reply (w : world) (message : str) (retries : Z) (r d : bool) :
  ends (get_reply w message retries) r d.
Proof.
  unfold get_reply. apply ends_bind; [apply ends_get|].
  intros s. destruct (key_missing s); [eff | apply ends_attempts].
Qed.

Lemma frame_request (w : world) (message : str) (attempt : Z) :
  frame (request w message attempt).
Proof. unfold request. eff. Qed.

Lemma frame_on_error (retries attempt : Z) (e : exn) :
  frame (on_error retries attempt e).
Proof. unfold on_error. eff. Qed.

Lemma frame_attempts (w : world) (message : str) (retries : Z) (todo : list Z) :
  frame (attempts w message retries todo).
Proof.
  induction todo as [|attempt rest IH]; simpl; [apply frame_ret|].
  apply frame_bind.
  - apply frame_try; [apply frame_request | intros e; apply frame_on_error].
  - intros [reply|]; [apply frame_ret | exact IH].
Qed.

Lemma frame_get_reply (w : world) (message : str) (retries : Z) :
  frame (get_reply w message retries).
Proof.
  unfold get_reply. apply frame_bind; [apply frame_get|].
  intros s. destruct (key_missing s); [eff | apply frame_attempts].
Qed.

(** [get_reply] always hands back a string. *)
Lemma get_reply_returns (w : world) (message : str) (retries : Z) (s : state) :
  exists reply, result (get_reply w message retries) s = Ok reply.
Proof.
  pose proof (ends_get_reply w message retries false false s) as H.
  destruct (result (get_reply w message retries) s) as [reply| |];
    [now exists reply | discriminate | discriminate].
Qed.

Lemma key_missing_spec (s : state) :
  key_missing s = true <-> API_KEY s = None \/ API_KEY s = Some [].
Proof.
  unfold key_missing. destruct (API_KEY s) as [[|c k]|]; split; intros H;
    try reflexivity; try discriminate; auto.
  destruct H; discriminate.
Qed.

(** C10. Without a credential ([API_KEY] is [None] or empty) [get_reply]
    returns the fixed "not configured" text for every message: the only
    thing it does is log the error, and no request is made. *)
Theorem get_reply_not_configured (w : world) (message : str) (retries : Z)
    (s : state) :
  API_KEY s = None \/ API_KEY s = Some [] ->
  get_reply w message retries s =
    (Ok Text.NOT_CONFIGURED, s, [EvLog ERROR LogKeyMissing]) /\
  posts (events (get_reply w message retries) s) = 0.
Proof.
  intros H. apply key_missing_spec in H.
  assert (E : get_reply w message retries s =
              (Ok Text.NOT_CONFIGURED, s, [EvLog ERROR LogKeyMissing])).
  { unfold get_reply, bind, get. simpl. rewrite H. reflexivity. }
  split; [exact E|]. unfold events. rewrite E. reflexivity.
Qed.

Lemma get_reply_not_configured_witness :
  get_reply Examples.w_timeouts Examples.hello 2 (init_state None) =
    (Ok Text.NOT_CONFIGURED, init_state None, [EvLog ERROR LogKeyMissing]) /\
  posts (events (get_reply Examples.w_timeouts Examples.hello 2)
           (init_state None)) = 0.
Proof.
  apply (get_reply_not_configured Examples.w_timeouts Examples.hello 2
           (init_state None)).
  left. reflexivity.
Defined.

Lemma posts_app (e1 e2 : list event) : posts (e1 ++ e2) = posts e1 + posts e2.
Proof. unfold posts. rewrite List.filter_app, length_app. lia. Qed.

(** One attempt that times out, with attempts left and without. *)
Lemma attempt_timeout_retry (w : world) (message : str) (retries attempt : Z)
    (s : state) :
  http_post w (n_post s) message (15 + attempt * 5) = inl Timeout ->
  attempt < retries ->
  try_except (request w message attempt) (on_error retries attempt) s =
    (Ok None, count_post s,
     [EvLog INFO (LogAttempt (attempt + 1) (15 + attempt * 5));
      EvPost message (15 + attempt * 5);
      EvLog WARNING (LogTimeoutRetry (1 + attempt));
      EvSleep (1000 * (1 + attempt))]).
Proof.
  intros H Hlt. unfold try_except, request, bind, log, emit, post. simpl.
  rewrite H. simpl. unfold on_error.
  replace (attempt <? retries) with true by (symmetry; apply Z.ltb_lt; lia).
  reflexivity.
Qed.

Lemma attempt_timeout_last (w : world) (message : str) (retries attempt : Z)
    (s : state) :
  http_post w (n_post s) message (15 + attempt * 5) = inl Timeout ->
  retries <= attempt ->
  try_except (request w message attempt) (on_error retries attempt) s =
    (Ok (Some Text.TIMED_OUT), count_post s,
     [EvLog INFO (LogAttempt (attempt + 1) (15 + attempt * 5));
      EvPost message (15 + attempt * 5);
      EvLog ERROR LogTimeoutFinal]).
Proof.
  intros H Hge. unfold try_except, request, bind, log, emit, post. simpl.
  rewrite H. simpl. unfold on_error.
  replace (attempt <? retries) with false by (symmetry; apply Z.ltb_ge; lia).
  reflexivity.
Qed.

Lemma attempts_all_timeouts (w : world) (message : str) (retries : Z) :
  (forall n m t, http_post w n m t = inl Timeout) ->
  forall (todo : list Z) (s : state),
    Forall (fun attempt => attempt < retries) todo ->
    result (attempts w message retries (todo ++ [retries])) s = Ok Text.TIMED_OUT /\
    posts (events (attempts w message retries (todo ++ [retries])) s) =
      Z.of_nat (length todo) + 1.
Proof.
  intros Hw. induction todo as [|attempt todo IH]; intros s Hall.
  - pose proof (attempt_timeout_last w message retries retries s
                  (Hw _ _ _) (Z.le_refl _)) as E.
    cbn [app attempts length].
    rewrite (result_bind_ok _ _ _ _ _ _ E), (events_bind_ok _ _ _ _ _ _ E).
    split; reflexivity.
  - inversion Hall as [|? ? Hlt Hall']; subst.
    destruct (IH (count_post s) Hall') as [Hr Hp].
    pose proof (attempt_timeout_retry w message retries attempt s
                  (Hw _ _ _) Hlt) as E.
    cbn [app attempts length].
    rewrite (result_bind_ok _ _ _ _ _ _ E), (events_bind_ok _ _ _ _ _ _ E).
    cbn beta iota. split; [exact Hr|].
    rewrite posts_app, Hp. unfold posts. simpl. lia.
Qed.

Lemma py_range_snoc (n : Z) : 0 <= n -> py_range (n + 1) = py_range n ++ [n].
Proof.
  intros Hn. unfold py_range.
  replace (Z.to_nat (n + 1)) with (Z.to_nat n + 1)%nat by lia.
  rewrite seq_app, map_app. simpl. f_equal. f_equal. lia.
Qed.

Lemma py_range_below (n : Z) : Forall (fun i => i < n) (py_range n).
Proof.
  unfold py_range. apply List.Forall_forall. intros i Hi.
  apply in_map_iff in Hi as (k & <- & Hk). apply in_seq in Hk. lia.
Qed.

Lemma py_range_length (n : Z) : 0 <= n -> Z.of_nat (length (py_range n)) = n.
Proof. intros Hn. unfold py_range. rewrite length_map, length_seq. lia. Qed.

(** What one attempt hands back is never the text that follows the loop,
    and an attempt with no retry left always hands back a text. *)
Lemma attempt_hands_back (w : world) (message : str) (retries attempt : Z)
    (s : state) :
  exists r evs,
    try_except (request w message attempt) (on_error retries attempt) s
      = (Ok r, count_post s, evs) /\
    posts evs = 1 /\
    r <> Some Text.UNAVAILABLE /\
    (retries <= attempt -> r <> None).
Proof.
  unfold try_except, request, on_error, bind, log, sleep, emit, post, lift,
    raise, ret.
  simpl. repeat split_match;
    do 2 eexists; (split; [reflexivity|]); (split; [reflexivity|]);
    (split; [discriminate|]); intros Hle; try discriminate;
    match goal with
    | H : (attempt <? retries) = true |- _ => apply Z.ltb_lt in H; lia
    end.
Qed.

(** A loop whose last attempt has no retry left does not reach the
    [return] that follows it, and makes at least one request. *)
Lemma attempts_end_in_loop (w : world) (message : str) (retries lst : Z) :
  retries <= lst ->
  forall (todo : list Z) (s : state),
    result (attempts w message retries (todo ++ [lst])) s
      <> Ok Text.UNAVAILABLE /\
    1 <= posts (events (attempts w message retries (todo ++ [lst])) s).
Proof.
  intros Hle todo. induction todo as [|attempt todo IH]; intros s.
  - destruct (attempt_hands_back w message retries lst s)
      as (r & evs & E & Hposts & Hne & Hsome).
    cbn [app attempts].
    rewrite (result_bind_ok _ _ _ _ _ _ E), (events_bind_ok _ _ _ _ _ _ E).
    rewrite posts_app, Hposts.
    destruct r as [t|]; [|now specialize (Hsome Hle)].
    unfold result, events, posts. simpl. split; [congruence | lia].
  - destruct (attempt_hands_back w message retries attempt s)
      as (r & evs & E & Hposts & Hne & _).
    cbn [app attempts].
    rewrite (result_bind_ok _ _ _ _ _ _ E), (events_bind_ok _ _ _ _ _ _ E).
    rewrite posts_app, Hposts.
    destruct r as [t|].
    + unfold result, events, posts. simpl. split; [congruence | lia].
    + destruct (IH (count_post s)) as [Hr Hp]. split; [exact Hr | lia].
Qed.

(** The text after the loop is what [get_reply] returns when the loop has
    no turn at all. *)
Lemma get_reply_no_attempt (w : world) (message : str) (retries : Z)
    (s : state) :
  key_missing s = false -> retries < 0 ->
  get_reply w message retries s = (Ok Text.UNAVAILABLE, s, []).
Proof.
  intros Hkey Hneg. unfold get_reply, bind, get. simpl. rewrite Hkey.
  unfold py_range. replace (Z.to_nat (retries + 1)) with 0%nat by lia.
  reflexivity.
Qed.

(** The "service temporarily unavailable" text comes back exactly when a
    credential is set and the loop has no turn. *)
Lemma get_reply_unavailable_iff (w : world) (message : str) (retries : Z)
    (s : state) :
  result (get_reply w message retries) s = Ok Text.UNAVAILABLE <->
  key_missing s = false /\ retries < 0.
Proof.
  split.
  - intros H. destruct (key_missing s) eqn:Hkey.
    + exfalso. revert H. unfold result, get_reply, bind, get. simpl.
      rewrite Hkey. simpl. discriminate.
    + split; [reflexivity|].
      destruct (Z.lt_ge_cases retries 0) as [Hneg|Hpos]; [exact Hneg|].
      exfalso. revert H.
      assert (E : get s = (Ok s, s, [])) by reflexivity.
      unfold get_reply. rewrite (result_bind_ok _ _ _ _ _ _ E), Hkey.
      rewrite py_range_snoc by exact Hpos.
      apply (attempts_end_in_loop w message retries retries (Z.le_refl _)).
  - intros [Hkey Hneg]. unfold result.
    rewrite (get_reply_no_attempt w message retries s Hkey Hneg). reflexivity.
Qed.

(** C3, as the code has it. [get_reply] never raises: whatever the
    endpoint does, it ends with a string.  When a credential is set,
    [retries] is not negative and every attempt times out, it makes exactly
    [retries + 1] attempts and the last of them returns the "request timed
    out" text "请求超时，请稍后再试".  The "service temporarily unavailable"
    text is returned, whatever the endpoint does, only when a credential is
    set and [retries] is negative, and then no attempt is made: the call
    does nothing at all. *)
Theorem get_reply_all_timeouts (w : world) (message : str) (retries : Z)
    (s : state) :
  (exists reply, result (get_reply w message retries) s = Ok reply) /\
  (key_missing s = false -> 0 <= retries ->
   (forall n m t, http_post w n m t = inl Timeout) ->
   result (get_reply w message retries) s = Ok Text.TIMED_OUT /\
   posts (events (get_reply w message retries) s) = retries + 1) /\
  (result (get_reply w message retries) s = Ok Text.UNAVAILABLE <->
   key_missing s = false /\ retries < 0) /\
  (result (get_reply w message retries) s = Ok Text.UNAVAILABLE ->
   get_reply w message retries s = (Ok Text.UNAVAILABLE, s, []) /\
   posts (events (get_reply w message retries) s) = 0).
Proof.
  split; [apply get_reply_returns|]. split; [|split].
  - intros Hkey Hret Hw.
    destruct (attempts_all_timeouts w message retries Hw (py_range retries) s
                (py_range_below retries)) as [Hr Hp].
    rewrite <- py_range_snoc in Hr, Hp by assumption.
    rewrite py_range_length in Hp by assumption.
    assert (E : get s = (Ok s, s, [])) by reflexivity.
    unfold get_reply.
    rewrite (result_bind_ok _ _ _ _ _ _ E), (events_bind_ok _ _ _ _ _ _ E).
    rewrite Hkey. auto.
  - apply get_reply_unavailable_iff.
  - intros H. apply get_reply_unavailable_iff in H as [Hkey Hneg].
    pose proof (get_reply_no_attempt w message retries s Hkey Hneg) as E.
    split; [exact E|]. unfold events. rewrite E. reflexivity.
Qed.

Lemma get_reply_all_timeouts_witness :
  (result (get_reply Examples.w_timeouts Examples.hello 2)
     (init_state (Some Examples.key)) = Ok Text.TIMED_OUT /\
   posts (events (get_reply Examples.w_timeouts Examples.hello 2)
            (init_state (Some Examples.key))) = 2 + 1) /\
  (get_reply Examples.w_timeouts Examples.hello (-1)
     (init_state (Some Examples.key)) =
     (Ok Text.UNAVAILABLE, init_state (Some Examples.key), []) /\
   posts (events (get_reply Examples.w_timeouts Examples.hello (-1))
            (init_state (Some Examples.key))) = 0).
Proof.
  split.
  - destruct (get_reply_all_timeouts Examples.w_timeouts Examples.hello 2
                (init_state (Some Examples.key))) as (_ & H & _).
    apply H; [reflexivity | lia | reflexivity].
  - destruct (get_reply_all_timeouts Examples.w_timeouts Examples.hello (-1)
                (init_state (Some Examples.key))) as (_ & _ & _ & H).
    apply H. reflexivity.
Defined.

(** With every attempt timing out and the default of two retries, the text
    returned is not the "service temporarily unavailable" one. *)
Lemma get_reply_timeouts_not_unavailable :
  (forall n m t, http_post Examples.w_timeouts n m t = inl Timeout) /\
  result (get_reply Examples.w_timeouts Examples.hello default_retries)
    (init_state (Some Examples.key)) <> Ok Text.UNAVAILABLE.
Proof. split; [reflexivity | vm_compute; discriminate]. Qed.

(** [getitem] raises nothing but what the last handler takes. *)
Lemma reply_content_raises (data : json) (e : exn) :
  Replies.reply_content data = inl e -> e = OtherException.
Proof.
  unfold Replies.reply_content, getitem_key, getitem_0.
  repeat split_match; intros [= <-]; reflexivity.
Qed.

(** An object with "choices" that count as true, but without a way to
    [choices[0].message.content]: the attempt ends in the last handler. *)
Lemma attempt_path_missing (w : world) (message : str) (retries attempt : Z)
    (s : state) (data found : json) (e : exn) :
  http_post w (n_post s) message (15 + attempt * 5) = inr data ->
  dict_get data Text.choices = inr found ->
  truthy found = true ->
  Replies.reply_content data = inl e ->
  try_except (request w message attempt) (on_error retries attempt) s =
    (Ok (Some Text.PROCESSING_ERROR), count_post s,
     [EvLog INFO (LogAttempt (attempt + 1) (15 + attempt * 5));
      EvPost message (15 + attempt * 5);
      EvLog ERROR (LogResponseError OtherException)]).
Proof.
  intros Hpost Hget Htrue Hc.
  pose proof (reply_content_raises data e Hc) as ->.
  unfold try_except, request, bind, log, emit, post. simpl.
  rewrite Hpost. simpl. rewrite Hget. simpl. rewrite Htrue.
  unfold Replies.reply_content in Hc.
  destruct (getitem_key data Text.choices) as [e1|all]; simpl.
  { injection Hc as ->. reflexivity. }
  destruct (getitem_0 all) as [e1|first]; simpl.
  { injection Hc as ->. reflexivity. }
  destruct (getitem_key first Text.message) as [e1|inner]; simpl.
  { injection Hc as ->. reflexivity. }
  rewrite Hc. reflexivity.
Qed.

(** C8, as the code has it. When an attempt gets a response whose body
    is an object with no "choices" entry, or with one that is empty or
    otherwise false, [get_reply] returns "still thinking" from that
    attempt: the attempts that remain are not made and nothing is slept.
    When the body is not an object at all (a list, a string, a number, a
    boolean, [null]), it has no [get]: the attempt ends in the last
    handler and [get_reply] returns the "processing error" text instead,
    from that attempt and without waiting either.  The same holds for an
    object whose "choices" count as true but do not lead to
    [choices[0].message.content]. *)
Theorem no_choices_returns_at_once (w : world) (message : str) (retries : Z)
    (attempt : Z) (rest : list Z) (s : state) (data : json) :
  http_post w (n_post s) message (15 + attempt * 5) = inr data ->
  (forall fields,
     data = JObj fields ->
     truthy (default JNull (lookup_field Text.choices fields)) = false ->
     attempts w message retries (attempt :: rest) s =
       (Ok Text.STILL_THINKING, count_post s,
        [EvLog INFO (LogAttempt (attempt + 1) (15 + attempt * 5));
         EvPost message (15 + attempt * 5);
         EvLog ERROR (LogBadFormat data)])) /\
  ((forall fields, data <> JObj fields) ->
   attempts w message retries (attempt :: rest) s =
     (Ok Text.PROCESSING_ERROR, count_post s,
      [EvLog INFO (LogAttempt (attempt + 1) (15 + attempt * 5));
       EvPost message (15 + attempt * 5);
       EvLog ERROR (LogResponseError OtherException)])) /\
  (forall fields e,
     data = JObj fields ->
     truthy (default JNull (lookup_field Text.choices fields)) = true ->
     Replies.reply_content data = inl e ->
     attempts w message retries (attempt :: rest) s =
       (Ok Text.PROCESSING_ERROR, count_post s,
        [EvLog INFO (LogAttempt (attempt + 1) (15 + attempt * 5));
         EvPost message (15 + attempt * 5);
         EvLog ERROR (LogResponseError OtherException)])).
Proof.
  intros Hpost. split; [|split].
  - intros fields -> Hfalse. cbn [attempts].
    unfold bind at 1. unfold try_except, request, bind, log, emit, post. simpl.
    rewrite Hpost. simpl. rewrite Hfalse. reflexivity.
  - intros Hobj. cbn [attempts].
    unfold bind at 1. unfold try_except, request, bind, log, emit, post. simpl.
    rewrite Hpost. simpl.
    destruct data as [|b|n|text|items|fields]; try reflexivity.
    now destruct (Hobj fields).
  - intros fields e -> Htrue Hc. cbn [attempts].
    rewrite (bind_ok _ _ _ _ _ _
               (attempt_path_missing w message retries attempt s _ _ e
                  Hpost eq_refl Htrue Hc)).
    reflexivity.
Qed.

Lemma no_choices_returns_at_once_witness :
  attempts Examples.w_no_choices Examples.hello 2 [1; 2]
    (count_post (init_state (Some Examples.key))) =
    (Ok Text.STILL_THINKING,
     count_post (count_post (init_state (Some Examples.key))),
     [EvLog INFO (LogAttempt (1 + 1) (15 + 1 * 5));
      EvPost Examples.hello (15 + 1 * 5);
      EvLog ERROR (LogBadFormat (JObj [(Text.choices, JArr [])]))]) /\
  attempts MoreExamples.w_list_body Examples.hello 2 [0; 1; 2]
    (init_state (Some Examples.key)) =
    (Ok Text.PROCESSING_ERROR,
     count_post (init_state (Some Examples.key)),
     [EvLog INFO (LogAttempt (0 + 1) (15 + 0 * 5));
      EvPost Examples.hello (15 + 0 * 5);
      EvLog ERROR (LogResponseError OtherException)]) /\
  attempts MoreExamples.w_no_message Examples.hello 2 [0; 1; 2]
    (init_state (Some Examples.key)) =
    (Ok Text.PROCESSING_ERROR,
     count_post (init_state (Some Examples.key)),
     [EvLog INFO (LogAttempt (0 + 1) (15 + 0 * 5));
      EvPost Examples.hello (15 + 0 * 5);
      EvLog ERROR (LogResponseError OtherException)]).
Proof.
  split; [|split].
  - destruct (no_choices_returns_at_once Examples.w_no_choices Examples.hello
                2 1 [2] (count_post (init_state (Some Examples.key)))
                (JObj [(Text.choices, JArr [])])) as (H & _ & _);
      [reflexivity|].
    apply (H [(Text.choices, JArr [])]); reflexivity.
  - destruct (no_choices_returns_at_once MoreExamples.w_list_body
                Examples.hello 2 0 [1; 2] (init_state (Some Examples.key))
                (JArr [])) as (_ & H & _); [reflexivity|].
    apply H. discriminate.
  - destruct (no_choices_returns_at_once MoreExamples.w_no_message
                Examples.hello 2 0 [1; 2] (init_state (Some Examples.key))
                MoreExamples.no_message) as (_ & _ & H); [reflexivity|].
    apply (H [(Text.choices, JArr [JObj []])] OtherException); reflexivity.
Defined.

(** The transport succeeds and the body [[]] has no choices, yet what
    [get_reply] returns is not the "still thinking" text: it is the
    "processing error" one, after one request. *)
Lemma list_body_not_still_thinking :
  (forall n m t, http_post MoreExamples.w_list_body n m t = inr (JArr [])) /\
  result (get_reply MoreExamples.w_list_body Examples.hello default_retries)
    (init_state (Some Examples.key)) = Ok Text.PROCESSING_ERROR /\
  result (get_reply MoreExamples.w_list_body Examples.hello default_retries)
    (init_state (Some Examples.key)) <> Ok Text.STILL_THINKING /\
  posts (events (get_reply MoreExamples.w_list_body Examples.hello
                   default_retries) (init_state (Some Examples.key))) = 1.
Proof.
  split; [reflexivity|].
  split; [vm_compute; reflexivity|].
  split; [vm_compute; discriminate | vm_compute; reflexivity].
Qed.

(** The whole call in that world: a timeout, a retry, and the second
    response ends it after two requests out of three. *)
Example get_reply_no_choices_run :
  result (get_reply Examples.w_no_choices Examples.hello 2)
    (init_state (Some Examples.key)) = Ok Text.STILL_THINKING /\
  posts (events (get_reply Examples.w_no_choices Examples.hello 2)
           (init_state (Some Examples.key))) = 2.
Proof. split; vm_compute; reflexivity. Qed.

(** A body that is not an object has no [get]: the attempt ends in the
    last handler, with the "processing error" text. *)
Lemma not_an_object_is_processing_error (w : world) (message : str)
    (retries attempt : Z) (rest : list Z) (s : state) (data : json) :
  http_post w (n_post s) message (15 + attempt * 5) = inr data ->
  dict_get data Text.choices = inl OtherException ->
  result (attempts w message retries (attempt :: rest)) s =
    Ok Text.PROCESSING_ERROR.
Proof.
  intros Hpost Hget. unfold result. cbn [attempts].
  unfold bind at 1. unfold try_except, request, bind, log, emit, post. simpl.
  rewrite Hpost. simpl. rewrite Hget. reflexivity.
Qed.

(** ** [process_message] *)

Lemma ends_send_parts (w : world) (who : str) (total : Z) (parts : list str)
    (r d : bool) :
  forall i, ends (send_parts w who total i parts) r d.
Proof.
  induction parts as [|part rest IH]; intros i; simpl; [apply ends_ret|].
  apply ends_bind; [eff | intros _; apply IH].
Qed.

Lemma ends_send_long_message (w : world) (self : listener) (fuel : nat)
    (who message : str) (r : bool) :
  ends (send_long_message w self fuel who message) r true.
Proof.
  unfold send_long_message.
  destruct (split_parts _ _ _); [apply ends_send_parts | apply ends_out_of_fuel].
Qed.

Lemma ends_reply_to (w : world) (self : listener) (fuel : nat)
    (who content : str) (r : bool) :
  ends (reply_to w self fuel who content) r true.
Proof.
  unfold reply_to. apply ends_try; [|intros e; eff].
  apply ends_bind; [apply ends_get_reply | intros api_reply].
  apply ends_bind; [apply ends_log | intros _].
  destruct (len api_reply >? _); [apply ends_send_long_message | eff].
Qed.

Lemma ends_filter_and_reply (w : world) (self : listener) (fuel : nat)
    (who : str) (m : msg) (r : bool) :
  ends (filter_and_reply w self fuel who m) r true.
Proof.
  unfold filter_and_reply. destruct (any_in _ _); [eff|].
  destruct (_ && _); [apply ends_reply_to | eff].
Qed.

(** [process_message] lets no exception out. *)
Lemma ends_process_message (w : world) (self : listener) (fuel : nat)
    (who : str) (m : msg) (r : bool) :
  ends (process_message w self fuel who m) r true.
Proof.
  unfold process_message. destruct (bool_decide _); [eff|].
  repeat (apply ends_bind; [eff | intros ?]). apply ends_filter_and_reply.
Qed.

Lemma ends_process_batch (w : world) (self : listener) (fuel : nat)
    (who : str) (one_msgs : list msg) (r : bool) :
  ends (process_batch w self fuel who one_msgs) r true.
Proof. apply ends_for_each. intros m. apply ends_process_message. Qed.

Lemma frame_send_parts (w : world) (who : str) (total : Z) (parts : list str) :
  forall i, frame (send_parts w who total i parts).
Proof.
  induction parts as [|part rest IH]; intros i; simpl; [apply frame_ret|].
  apply frame_bind; [eff | intros _; apply IH].
Qed.

Lemma frame_send_long_message (w : world) (self : listener) (fuel : nat)
    (who message : str) :
  frame (send_long_message w self fuel who message).
Proof.
  unfold send_long_message.
  destruct (split_parts _ _ _); [apply frame_send_parts | apply frame_out_of_fuel].
Qed.

Lemma frame_reply_to (w : world) (self : listener) (fuel : nat)
    (who content : str) :
  frame (reply_to w self fuel who content).
Proof.
  unfold reply_to. apply frame_try; [|intros e; eff].
  apply frame_bind; [apply frame_get_reply | intros api_reply].
  apply frame_bind; [apply frame_log | intros _].
  destruct (len api_reply >? _); [apply frame_send_long_message | eff].
Qed.

Lemma frame_filter_and_reply (w : world) (self : listener) (fuel : nat)
    (who : str) (m : msg) :
  frame (filter_and_reply w self fuel who m).
Proof.
  unfold filter_and_reply. destruct (any_in _ _); [eff|].
  destruct (_ && _); [apply frame_reply_to | eff].
Qed.

(** The first statements of [process_message] for a message of somebody
    else: the time is read and recorded for the chat, the message is
    logged, and the rest runs from there. *)
Lemma record_then (w : world) (who text : str) (k : M unit) (s : state) :
  (t <- now w ;;
   s0 <- get ;;
   put (set_last_message_time who t s0) ;;
   log INFO (LogReceived who text) ;;
   k) s =
  let s1 := set_last_message_time who (datetime_now w (n_now s)) (count_now s) in
  (result k s1, final k s1, EvLog INFO (LogReceived who text) :: events k s1).
Proof.
  unfold bind, now, get, put, log, emit, result, final, events. simpl.
  now destruct (k _) as [[? ?] ?].
Qed.

Lemma process_message_own (w : world) (self : listener) (fuel : nat)
    (who : str) (m : msg) (s : state) :
  sender m = self_name self ->
  process_message w self fuel who m s =
    (Ok tt, s, [EvLog INFO (LogSkipSelf who (slice_to (content m) 20))]).
Proof.
  intros H. unfold process_message. rewrite bool_decide_eq_true_2 by exact H.
  reflexivity.
Qed.

Lemma process_message_other (w : world) (self : listener) (fuel : nat)
    (who : str) (m : msg) (s : state) :
  sender m <> self_name self ->
  process_message w self fuel who m s =
  let s1 := set_last_message_time who (datetime_now w (n_now s)) (count_now s) in
  (result (filter_and_reply w self fuel who m) s1,
   final (filter_and_reply w self fuel who m) s1,
   EvLog INFO (LogReceived who (content m))
   :: events (filter_and_reply w self fuel who m) s1).
Proof.
  intros H. unfold process_message. rewrite bool_decide_eq_false_2 by exact H.
  apply record_then.
Qed.

(** C4. A message whose sender is the user's own name is skipped at once,
    whatever the watch list and the content: the state is untouched and the
    only effect is one log line, so nothing goes to the completion endpoint
    and nothing is sent to the chat. *)
Theorem own_message_never_forwarded (w : world) (self : listener)
    (fuel : nat) (who : str) (m : msg) (s : state) :
  sender m = self_name self ->
  process_message w self fuel who m s =
    (Ok tt, s, [EvLog INFO (LogSkipSelf who (slice_to (content m) 20))]) /\
  forallb is_log (events (process_message w self fuel who m) s) = true.
Proof.
  intros H. pose proof (process_message_own w self fuel who m s H) as E.
  split; [exact E|]. unfold events. rewrite E. reflexivity.
Qed.

Lemma own_message_never_forwarded_witness :
  process_message Examples.w_send_fails Examples.bot 10 Examples.alice
    Examples.from_bot (init_state (Some Examples.key)) =
    (Ok tt, init_state (Some Examples.key),
     [EvLog INFO (LogSkipSelf Examples.alice
                    (slice_to (content Examples.from_bot) 20))]) /\
  forallb is_log
    (events (process_message Examples.w_send_fails Examples.bot 10
               Examples.alice Examples.from_bot)
       (init_state (Some Examples.key))) = true.
Proof.
  apply (own_message_never_forwarded Examples.w_send_fails Examples.bot 10
           Examples.alice Examples.from_bot (init_state (Some Examples.key))).
  reflexivity.
Defined.

(** C9. A message whose content holds one of the four fixed phrases is
    rejected even when its sender, its type and its chat qualify:
    processing it ends normally, and all it does is write log lines; no
    request goes to the endpoint and nothing is sent. *)
Theorem system_phrase_never_answered (w : world) (self : listener)
    (fuel : nat) (who : str) (m : msg) (s : state) (k pre post : str) :
  In k Text.skip_keywords ->
  content m = pre ++ k ++ post ->
  result (process_message w self fuel who m) s = Ok tt /\
  forallb is_log (events (process_message w self fuel who m) s) = true.
Proof.
  intros Hk Hc.
  destruct (decide (sender m = self_name self)) as [Hown|Hother].
  - unfold result, events. rewrite (process_message_own _ _ _ _ _ _ Hown).
    split; reflexivity.
  - unfold result, events. rewrite (process_message_other _ _ _ _ _ _ Hother).
    unfold result, events, filter_and_reply.
    rewrite Hc, (any_in_true _ _ _ _ Hk). split; reflexivity.
Qed.

Lemma system_phrase_never_answered_witness :
  result (process_message Examples.w_send_fails Examples.bot 10 Examples.alice
            Examples.notice_from_alice) (init_state (Some Examples.key)) = Ok tt /\
  forallb is_log
    (events (process_message Examples.w_send_fails Examples.bot 10
               Examples.alice Examples.notice_from_alice)
       (init_state (Some Examples.key))) = true.
Proof.
  apply (system_phrase_never_answered Examples.w_send_fails Examples.bot 10
           Examples.alice Examples.notice_from_alice
           (init_state (Some Examples.key))
           [34917; 20805; 36890; 30693]%N [] (Examples.a ": hello"%string)).
  - simpl. tauto.
  - reflexivity.
Defined.

(** C5, as the code has it. A message of somebody else has its time
    recorded for its chat whether it is then answered or rejected (system
    phrase, wrong type, chat not watched); a message of the user's own
    leaves the recorded times as they were. *)
Theorem last_message_time_updated (w : world) (self : listener) (fuel : nat)
    (who : str) (m : msg) (s : state) :
  (sender m <> self_name self ->
   last_message_time (final (process_message w self fuel who m) s) !! who =
     Some (datetime_now w (n_now s))) /\
  (sender m = self_name self ->
   last_message_time (final (process_message w self fuel who m) s) =
     last_message_time s).
Proof.
  split; intros H.
  - unfold final at 1. rewrite (process_message_other _ _ _ _ _ _ H).
    cbn [fst snd].
    pose proof (frame_filter_and_reply w self fuel who m
                  (set_last_message_time who (datetime_now w (n_now s))
                     (count_now s))) as F.
    unfold store in F. injection F as _ F _. rewrite F. simpl.
    apply lookup_insert_eq.
  - unfold final. rewrite (process_message_own _ _ _ _ _ _ H). reflexivity.
Qed.

Lemma last_message_time_updated_witness :
  last_message_time
    (final (process_message Examples.w_send_fails Examples.bot 10
              Examples.alice Examples.notice_from_alice)
       (init_state (Some Examples.key))) !! Examples.alice =
    Some Examples.five_oclock /\
  last_message_time
    (final (process_message Examples.w_send_fails Examples.bot 10
              Examples.alice Examples.from_bot)
       (init_state (Some Examples.key))) = ∅.
Proof.
  split.
  - apply (last_message_time_updated Examples.w_send_fails Examples.bot 10
             Examples.alice Examples.notice_from_alice
             (init_state (Some Examples.key))).
    vm_compute. discriminate.
  - apply (last_message_time_updated Examples.w_send_fails Examples.bot 10
             Examples.alice Examples.from_bot (init_state (Some Examples.key))).
    reflexivity.
Defined.

(** A message of the user's own, in a chat that is watched: after it is
    processed no time is recorded for the chat. *)
Lemma own_message_not_recorded :
  sender Examples.from_bot = self_name Examples.bot /\
  last_message_time
    (final (process_message Examples.w_send_fails Examples.bot 10
              Examples.alice Examples.from_bot)
       (init_state (Some Examples.key))) !! Examples.alice = None.
Proof. split; reflexivity. Qed.

(** ** Failures while replying *)

Lemma never_raises {A} (c : M A) (s : state) (e : exn) :
  ends c false true -> result c s <> Raise e.
Proof.
  intros H E. specialize (H s). rewrite E in H. discriminate.
Qed.

Lemma ok_or_out_of_fuel (c : M unit) (s : state) :
  ends c false true -> result c s <> OutOfFuel -> result c s = Ok tt.
Proof.
  intros H Hfuel. specialize (H s).
  destruct (result c s) as [[]| |]; [reflexivity | discriminate | congruence].
Qed.

(** The direct send fails: the error is logged, the apology is tried, and
    whatever becomes of the apology the message is done with. *)
Lemma reply_to_direct_send_fails (w : world) (self : listener) (fuel : nat)
    (who content : str) (s : state) (r : str) (e : exn) :
  result (get_reply w content default_retries) s = Ok r ->
  (len r >? max_message_length self) = false ->
  SendMsg w (n_send (final (get_reply w content default_retries) s)) who r
    = Some e ->
  reply_to w self fuel who content s =
    (Ok tt,
     count_send (count_send (final (get_reply w content default_retries) s)),
     events (get_reply w content default_retries) s ++
     [EvLog INFO (LogApiReply r);
      EvSend who r (Some e);
      EvLog ERROR (LogReplyFailed who e);
      EvSend who Text.APOLOGY
        (SendMsg w (S (n_send (final (get_reply w content default_retries) s)))
           who Text.APOLOGY)]).
Proof.
  intros Hr Hlen Hsend.
  pose proof (run_eta (get_reply w content default_retries) s) as E.
  rewrite Hr in E.
  remember (final (get_reply w content default_retries) s) as s2 eqn:Hs2.
  remember (events (get_reply w content default_retries) s) as evs eqn:Hevs.
  clear Hs2 Hevs. unfold reply_to, try_except.
  rewrite (bind_ok _ _ _ _ _ _ E).
  unfold result, final, events, bind, log, emit, send_msg. simpl.
  rewrite Hlen. simpl. rewrite Hsend. simpl.
  destruct (SendMsg w _ who Text.APOLOGY); simpl;
    rewrite <- app_assoc; reflexivity.
Qed.

(** Sending the parts of a long reply: every part is handed to [SendMsg]
    once, in order, whether the parts before it went through or not, and
    nothing else is sent. *)
Lemma send_parts_sends (w : world) (who : str) (total : Z) (parts : list str) :
  forall (i : nat) (s : state),
    result (send_parts w who total i parts) s = Ok tt /\
    n_send (final (send_parts w who total i parts) s) =
      (n_send s + length parts)%nat /\
    List.filter is_send (events (send_parts w who total i parts) s) =
      part_sends w who i (n_send s) parts.
Proof.
  induction parts as [|part rest IH]; intros i s.
  - repeat split. simpl. unfold final, ret. simpl. lia.
  - cbn [send_parts part_sends length].
    assert (E : exists evs,
      try_except
        (send_msg w who (strip_banner i part) ;;
         log INFO (LogPartSent (Z.of_nat i + 1) total who) ;;
         sleep 500)
        (fun e => log ERROR (LogLongFailed e)) s =
      (Ok tt, count_send s,
       EvSend who (strip_banner i part)
         (SendMsg w (n_send s) who (strip_banner i part)) :: evs) /\
      List.filter is_send evs = []).
    { unfold try_except, bind, send_msg, log, sleep, emit. simpl.
      destruct (SendMsg w (n_send s) who (strip_banner i part)); simpl;
        eexists; split; reflexivity. }
    destruct E as (evs & E & Hevs).
    rewrite (result_bind_ok _ _ _ _ _ _ E), (final_bind_ok _ _ _ _ _ _ E),
      (events_bind_ok _ _ _ _ _ _ E).
    destruct (IH (S i) (count_send s)) as (Hr & Hn & Hs).
    repeat split.
    + exact Hr.
    + rewrite Hn. simpl. lia.
    + cbn [app List.filter is_send]. rewrite List.filter_app, Hevs, Hs.
      reflexivity.
Qed.

(** The whole of what the sending phase does: it ends normally, every
    part costs one call of [SendMsg], and the trace is the one of
    [part_events], with a log line for each part, sent or failed. *)
Lemma send_parts_trace (w : world) (who : str) (total : Z) (parts : list str) :
  forall (i : nat) (s : state),
    send_parts w who total i parts s =
      (Ok tt, Nat.iter (length parts) count_send s,
       part_events w who total i (n_send s) parts).
Proof.
  induction parts as [|part rest IH]; intros i s; [reflexivity|].
  cbn [send_parts part_events length].
  assert (E :
    try_except
      (send_msg w who (strip_banner i part) ;;
       log INFO (LogPartSent (Z.of_nat i + 1) total who) ;;
       sleep 500)
      (fun e => log ERROR (LogLongFailed e)) s =
    (Ok tt, count_send s,
     match SendMsg w (n_send s) who (strip_banner i part) with
     | None =>
         [EvSend who (strip_banner i part) None;
          EvLog INFO (LogPartSent (Z.of_nat i + 1) total who);
          EvSleep 500]
     | Some e =>
         [EvSend who (strip_banner i part) (Some e);
          EvLog ERROR (LogLongFailed e)]
     end)).
  { unfold try_except, bind, send_msg, log, sleep, emit. simpl.
    destruct (SendMsg w (n_send s) who (strip_banner i part)); reflexivity. }
  rewrite (bind_ok _ _ _ _ _ _ E). unfold result, final, events.
  rewrite (IH (S i) (count_send s)). cbn [fst snd n_send count_send].
  rewrite Nat.iter_succ_r. reflexivity.
Qed.

Lemma send_long_message_sends (w : world) (self : listener) (fuel : nat)
    (who message : str) (s : state) (parts : list str) :
  split_parts fuel (max_message_length self) message = Some parts ->
  result (send_long_message w self fuel who message) s = Ok tt /\
  List.filter is_send (events (send_long_message w self fuel who message) s) =
    part_sends w who 0 (n_send s) parts.
Proof.
  intros H. unfold send_long_message. rewrite H.
  destruct (send_parts_sends w who (Z.of_nat (length parts)) parts 0%nat s)
    as (Hr & _ & Hs).
  split; assumption.
Qed.

(** A long reply: the handler of [reply_to] has nothing to catch. *)
Lemma reply_to_long (w : world) (self : listener) (fuel : nat)
    (who content : str) (s : state) (r : str) :
  result (get_reply w content default_retries) s = Ok r ->
  (len r >? max_message_length self) = true ->
  let s2 := final (get_reply w content default_retries) s in
  reply_to w self fuel who content s =
    (result (send_long_message w self fuel who r) s2,
     final (send_long_message w self fuel who r) s2,
     events (get_reply w content default_retries) s ++
     EvLog INFO (LogApiReply r) ::
     events (send_long_message w self fuel who r) s2).
Proof.
  intros Hr Hlen s2.
  pose proof (run_eta (get_reply w content default_retries) s) as E.
  rewrite Hr in E. fold s2 in E. unfold reply_to, try_except.
  rewrite (bind_ok _ _ _ _ _ _ E).
  assert (E2 : log INFO (LogApiReply r) s2 =
               (Ok tt, s2, [EvLog INFO (LogApiReply r)])) by reflexivity.
  rewrite (result_bind_ok _ _ _ _ _ _ E2), (final_bind_ok _ _ _ _ _ _ E2),
    (events_bind_ok _ _ _ _ _ _ E2).
  rewrite Hlen.
  pose proof (ends_send_long_message w self fuel who r false s2) as Hends.
  destruct (result (send_long_message w self fuel who r) s2) as [[]| |];
    [reflexivity | discriminate | reflexivity].
Qed.

Lemma for_each_app {A} (body : A -> M unit) (xs ys : list A) :
  forall s : state,
    result (for_each xs body) s = Ok tt ->
    for_each (xs ++ ys) body s =
      (result (for_each ys body) (final (for_each xs body) s),
       final (for_each ys body) (final (for_each xs body) s),
       events (for_each xs body) s ++
       events (for_each ys body) (final (for_each xs body) s)).
Proof.
  induction xs as [|x xs IH]; intros s Hok.
  - simpl. apply run_eta.
  - cbn [app for_each] in *.
    pose proof (run_eta (body x) s) as E.
    destruct (result (body x) s) as [[]| |] eqn:Hx.
    + rewrite (result_bind_ok _ _ _ _ _ _ E) in Hok.
      rewrite (final_bind_ok _ _ _ _ _ _ E), (events_bind_ok _ _ _ _ _ _ E).
      rewrite (bind_ok _ _ _ _ _ _ E). cbn beta in *.
      pose proof (IH _ Hok) as E2.
      pose proof (f_equal (fun x => fst (fst x)) E2) as R.
      pose proof (f_equal (fun x => snd (fst x)) E2) as F.
      pose proof (f_equal snd E2) as V. cbn [fst snd] in R, F, V.
      fold (result (for_each (xs ++ ys) body) (final (body x) s)) in R.
      fold (final (for_each (xs ++ ys) body) (final (body x) s)) in F.
      fold (events (for_each (xs ++ ys) body) (final (body x) s)) in V.
      rewrite R, F, V, app_assoc. reflexivity.
    + unfold result, bind in Hok. rewrite E in Hok. discriminate.
    + unfold result, bind in Hok. rewrite E in Hok. discriminate.
Qed.

Lemma ends_send_time_report (w : world) (self : listener) (r d : bool) :
  ends (send_time_report w self) r d.
Proof. unfold send_time_report. eff. Qed.

Lemma ends_report_check (w : world) (self : listener) (r d : bool) :
  ends (report_check w self) r d.
Proof.
  unfold report_check.
  destruct (time_report self); [apply ends_send_time_report | apply ends_ret].
Qed.

(** No turn of the polling loop lets an exception out. *)
Lemma ends_poll_cycle (w : world) (self : listener) (fuel : nat) (r : bool) :
  ends (poll_cycle w self fuel) r true.
Proof.
  unfold poll_cycle. apply ends_try; [|intros e; eff].
  apply ends_bind; [apply ends_report_check | intros _].
  apply ends_bind; [apply ends_get_listen_message | intros msgs].
  apply ends_bind; [|intros _; apply ends_sleep].
  apply ends_for_each. intros [who one_msgs].
  destruct (bool_decide _); [apply ends_process_batch | apply ends_ret].
Qed.

Lemma ends_listen_messages (w : world) (self : listener) (fuel turns : nat)
    (r : bool) :
  ends (listen_messages w self fuel turns) r true.
Proof.
  unfold listen_messages.
  apply ends_bind; [apply ends_log | intros _].
  apply ends_bind; [eff | intros _].
  apply ends_for_each. intros _. apply ends_poll_cycle.
Qed.

(** C6, as the code has it. No exception comes out of [process_message]
    nor out of the polling loop.  When the reply is short and sending it
    raises, the error is logged, the apology is tried, and its own failure
    is swallowed.  When the reply is long, the run is the one of
    [get_reply], the log line of the reply, and then for each part in
    order, whatever happened to the parts before: the call of [SendMsg],
    followed by the log line of the part and a wait of half a second when
    it returned, and by the log line of the failure when it raised.
    Nothing else is done: no apology is sent.  In a batch, the messages
    after one whose processing ended are processed in turn from the state
    it left. *)
Theorem reply_failures_contained (w : world) (self : listener) (fuel : nat)
    (who : str) :
  (forall m s e, result (process_message w self fuel who m) s <> Raise e) /\
  (forall turns s e, result (listen_messages w self fuel turns) s <> Raise e) /\
  (forall text s r e,
     result (get_reply w text default_retries) s = Ok r ->
     (len r >? max_message_length self) = false ->
     SendMsg w (n_send (final (get_reply w text default_retries) s)) who r
       = Some e ->
     reply_to w self fuel who text s =
       (Ok tt,
        count_send (count_send (final (get_reply w text default_retries) s)),
        events (get_reply w text default_retries) s ++
        [EvLog INFO (LogApiReply r);
         EvSend who r (Some e);
         EvLog ERROR (LogReplyFailed who e);
         EvSend who Text.APOLOGY
           (SendMsg w
              (S (n_send (final (get_reply w text default_retries) s)))
              who Text.APOLOGY)])) /\
  (forall text s r parts,
     result (get_reply w text default_retries) s = Ok r ->
     (len r >? max_message_length self) = true ->
     split_parts fuel (max_message_length self) r = Some parts ->
     reply_to w self fuel who text s =
       (Ok tt,
        Nat.iter (length parts) count_send
          (final (get_reply w text default_retries) s),
        events (get_reply w text default_retries) s ++
        EvLog INFO (LogApiReply r) ::
        part_events w who (Z.of_nat (length parts)) 0
          (n_send (final (get_reply w text default_retries) s)) parts) /\
     List.filter is_send (events (reply_to w self fuel who text) s) =
       List.filter is_send (events (get_reply w text default_retries) s) ++
       part_sends w who 0
         (n_send (final (get_reply w text default_retries) s)) parts) /\
  (forall before after s,
     result (process_batch w self fuel who before) s <> OutOfFuel ->
     process_batch w self fuel who (before ++ after) s =
       (result (process_batch w self fuel who after)
          (final (process_batch w self fuel who before) s),
        final (process_batch w self fuel who after)
          (final (process_batch w self fuel who before) s),
        events (process_batch w self fuel who before) s ++
        events (process_batch w self fuel who after)
          (final (process_batch w self fuel who before) s))).
Proof.
  split; [|split; [|split; [|split]]].
  - intros m s e. apply never_raises, ends_process_message.
  - intros turns s e. apply never_raises, ends_listen_messages.
  - intros text s r e. apply reply_to_direct_send_fails.
  - intros text s r parts Hr Hlen Hparts.
    destruct (send_long_message_sends w self fuel who r
                (final (get_reply w text default_retries) s) parts Hparts)
      as [Hres Hsends].
    split.
    + rewrite (reply_to_long w self fuel who text s r Hr Hlen).
      unfold result, final, events, send_long_message. rewrite Hparts.
      rewrite send_parts_trace. reflexivity.
    + unfold events at 1.
      rewrite (reply_to_long w self fuel who text s r Hr Hlen). cbn [fst snd].
      rewrite List.filter_app. cbn [List.filter is_send]. now rewrite Hsends.
  - intros before after s Hfuel. apply for_each_app.
    apply ok_or_out_of_fuel; [apply ends_process_batch | exact Hfuel].
Qed.

Lemma reply_failures_contained_witness :
  reply_to Examples.w_short_send_fails Examples.bot 10 Examples.alice
    Examples.hello Examples.s0 =
    (Ok tt,
     count_send (count_send
       (final (get_reply Examples.w_short_send_fails Examples.hello
                 default_retries) Examples.s0)),
     events (get_reply Examples.w_short_send_fails Examples.hello
               default_retries) Examples.s0 ++
     [EvLog INFO (LogApiReply Examples.short_answer);
      EvSend Examples.alice Examples.short_answer (Some OtherException);
      EvLog ERROR (LogReplyFailed Examples.alice OtherException);
      EvSend Examples.alice Text.APOLOGY
        (SendMsg Examples.w_short_send_fails
           (S (n_send (final (get_reply Examples.w_short_send_fails
                                Examples.hello default_retries) Examples.s0)))
           Examples.alice Text.APOLOGY)]) /\
  (reply_to Examples.w_send_fails Examples.bot 10 Examples.alice
     Examples.hello Examples.s0 =
     (Ok tt,
      Nat.iter (length Examples.long_answer_parts) count_send
        (final (get_reply Examples.w_send_fails Examples.hello
                  default_retries) Examples.s0),
      events (get_reply Examples.w_send_fails Examples.hello default_retries)
        Examples.s0 ++
      EvLog INFO (LogApiReply Examples.long_answer) ::
      part_events Examples.w_send_fails Examples.alice
        (Z.of_nat (length Examples.long_answer_parts)) 0
        (n_send (final (get_reply Examples.w_send_fails Examples.hello
                          default_retries) Examples.s0))
        Examples.long_answer_parts) /\
   List.filter is_send
     (events (reply_to Examples.w_send_fails Examples.bot 10 Examples.alice
                Examples.hello) Examples.s0) =
     List.filter is_send
       (events (get_reply Examples.w_send_fails Examples.hello default_retries)
          Examples.s0) ++
     part_sends Examples.w_send_fails Examples.alice 0
       (n_send (final (get_reply Examples.w_send_fails Examples.hello
                         default_retries) Examples.s0))
       Examples.long_answer_parts) /\
  process_batch Examples.w_send_fails Examples.bot 10 Examples.alice
    ([Examples.from_alice] ++ [Examples.from_bot]) Examples.s0 =
    (result (process_batch Examples.w_send_fails Examples.bot 10 Examples.alice
               [Examples.from_bot])
       (final (process_batch Examples.w_send_fails Examples.bot 10
                 Examples.alice [Examples.from_alice]) Examples.s0),
     final (process_batch Examples.w_send_fails Examples.bot 10 Examples.alice
              [Examples.from_bot])
       (final (process_batch Examples.w_send_fails Examples.bot 10
                 Examples.alice [Examples.from_alice]) Examples.s0),
     events (process_batch Examples.w_send_fails Examples.bot 10 Examples.alice
               [Examples.from_alice]) Examples.s0 ++
     events (process_batch Examples.w_send_fails Examples.bot 10 Examples.alice
               [Examples.from_bot])
       (final (process_batch Examples.w_send_fails Examples.bot 10
                 Examples.alice [Examples.from_alice]) Examples.s0)).
Proof.
  split; [|split].
  - destruct (reply_failures_contained Examples.w_short_send_fails Examples.bot
                10 Examples.alice) as (_ & _ & H & _ & _).
    apply H; vm_compute; reflexivity.
  - destruct (reply_failures_contained Examples.w_send_fails Examples.bot
                10 Examples.alice) as (_ & _ & _ & H & _).
    apply (H Examples.hello Examples.s0 Examples.long_answer
             Examples.long_answer_parts); vm_compute; reflexivity.
  - destruct (reply_failures_contained Examples.w_send_fails Examples.bot
                10 Examples.alice) as (_ & _ & _ & _ & H).
    apply H. vm_compute. discriminate.
Defined.

(** What is done with the two parts of that reply when every [SendMsg]
    raises: each failure is logged by [send_long_message], and the second
    part is tried after the first has failed. *)
Example chunked_send_failures_logged :
  part_events Examples.w_send_fails Examples.alice 2 0 0
    Examples.long_answer_parts =
  [EvSend Examples.alice Text.banner (Some OtherException);
   EvLog ERROR (LogLongFailed OtherException);
   EvSend Examples.alice ([newline] ++ Examples.a "abcdefghij"%string)
     (Some OtherException);
   EvLog ERROR (LogLongFailed OtherException)].
Proof. reflexivity. Qed.

(** A reply of 24 characters under a limit of 20, with a chat backend that
    raises at every [SendMsg]: both parts fail to be sent, and no apology
    is tried. *)
Lemma chunked_send_failure_no_apology :
  existsb is_failed_send
    (events (process_message Examples.w_send_fails Examples.bot 10
               Examples.alice Examples.from_alice) Examples.s0) = true /\
  existsb is_apology
    (events (process_message Examples.w_send_fails Examples.bot 10
               Examples.alice Examples.from_alice) Examples.s0) = false.
Proof. split; vm_compute; reflexivity. Qed.

(** The same message when the reply fits in one piece: the apology is
    tried. *)
Example direct_send_failure_apology :
  existsb is_apology
    (events (process_message Examples.w_short_send_fails Examples.bot 10
               Examples.alice Examples.from_alice) Examples.s0) = true.
Proof. vm_compute. reflexivity. Qed.

(** A reply of 2000 letters on one line keeps [process_message] in the
    splitting loop for ever: the defect of C2 seen from the caller. *)
Lemma process_message_stuck_on_long_line (w : world) (self : listener)
    (who : str) (m : msg) (s : state) :
  sender m <> self_name self ->
  any_in Text.skip_keywords (content m) = false ->
  type m = Text.friend -> In who (listen_list self) ->
  max_message_length self = 2000 ->
  result (get_reply w (content m) default_retries)
    (set_last_message_time who (datetime_now w (n_now s)) (count_now s))
    = Ok Examples.long_reply ->
  forall fuel, result (process_message w self fuel who m) s = OutOfFuel.
Proof.
  intros Hother Hkw Hty Hin Hmax Hreply fuel.
  unfold result at 1. rewrite (process_message_other _ _ _ _ _ _ Hother).
  cbn [fst]. unfold filter_and_reply. rewrite Hkw.
  rewrite (bool_decide_eq_true_2 _ Hty).
  rewrite bool_decide_eq_true_2 by (now apply list_elem_of_In).
  cbn [andb]. unfold result at 1.
  rewrite (reply_to_long w self fuel who (content m) _ Examples.long_reply
             Hreply) by (rewrite Hmax; reflexivity).
  cbn [fst]. unfold result, send_long_message.
  rewrite Hmax, chunker_long_line_stuck. reflexivity.
Qed.

Example listener_stuck_on_long_line :
  forall fuel,
    result (process_message Examples.w_long_line Examples.bot_2000 fuel
              Examples.alice Examples.from_alice) Examples.s0 = OutOfFuel.
Proof.
  apply process_message_stuck_on_long_line.
  - vm_compute. discriminate.
  - vm_compute. reflexivity.
  - reflexivity.
  - left. reflexivity.
  - reflexivity.
  - vm_compute. reflexivity.
Qed.

(** ** The hourly report *)

Lemma sweep_S (w : world) (self : listener) (n : nat) (s : state) :
  sweep w self (S n) s =
  (s, events (report_check w self) s)
  :: sweep w self n (final (report_check w self) s).
Proof.
  unfold events, final. simpl. now destruct (report_check w self s) as [[? ?] ?].
Qed.

(** One evaluation of the report condition: [SendMsg] is called only when
    reporting is on, the minute is 0, the second is under 10 and the hour
    is not the one recorded; the recorded hour becomes the hour read when
    the announcement went through, and stays as it was otherwise. *)
Lemma report_check_cases (w : world) (self : listener) (s : state) :
  (existsb is_send (events (report_check w self) s) = true ->
   time_report self = true /\
   minute (time_read w s) = 0 /\
   second (time_read w s) < 10 /\
   hour (time_read w s) <> last_reported_hour s) /\
  last_reported_hour (final (report_check w self) s) =
    (if existsb is_delivered (events (report_check w self) s)
     then hour (time_read w s) else last_reported_hour s).
Proof.
  unfold report_check, events, final, time_read.
  destruct (time_report self); [|split; [discriminate | reflexivity]].
  unfold send_time_report, try_except, bind, now, get, put, lift, send_msg,
    log, emit, raise, ret. simpl.
  destruct (minute (datetime_now w (n_now s)) =? 0) eqn:Hm; simpl;
    [|split; [discriminate | reflexivity]].
  destruct (second (datetime_now w (n_now s)) <? 10) eqn:Hs; simpl;
    [|split; [discriminate | reflexivity]].
  destruct (hour (datetime_now w (n_now s)) =? last_reported_hour s) eqn:Hh;
    simpl; [split; [discriminate | reflexivity]|].
  apply Z.eqb_eq in Hm. apply Z.ltb_lt in Hs. apply Z.eqb_neq in Hh.
  destruct (str_format w _ _) as [e|message]; simpl;
    [split; [discriminate | reflexivity]|].
  destruct (SendMsg w _ _ _) as [e|]; simpl; split; auto.
Qed.

Lemma announced_hours_S (w : world) (self : listener) (n : nat) (s : state) :
  announced_hours w self (S n) s =
  (if existsb is_delivered (events (report_check w self) s)
   then [hour (time_read w s)] else []) ++
  announced_hours w self n (final (report_check w self) s).
Proof.
  unfold announced_hours. rewrite sweep_S. cbn [omap list_omap].
  unfold announced at 1. cbn [fst snd].
  now destruct (existsb is_delivered _).
Qed.

Lemma hours_read_S (w : world) (self : listener) (n : nat) (s : state) :
  hours_read w self (S n) s =
  hour (time_read w s) :: hours_read w self n (final (report_check w self) s).
Proof. unfold hours_read. rewrite sweep_S. reflexivity. Qed.

(** Each announcement differs in hour from the one before it. *)
Lemma announced_no_repeat (w : world) (self : listener) (n : nat) :
  forall s, no_repeat (last_reported_hour s) (announced_hours w self n s).
Proof.
  induction n as [|n IH]; intros s; [exact I|].
  rewrite announced_hours_S.
  destruct (report_check_cases w self s) as [Hsend Hlast].
  specialize (IH (final (report_check w self) s)). rewrite Hlast in IH.
  destruct (existsb is_delivered _) eqn:Hd; simpl; [|exact IH].
  split; [|exact IH].
  apply Hsend. apply existsb_exists.
  apply existsb_exists in Hd as (ev & Hin & Hev). exists ev. split; [exact Hin|].
  destruct ev as [| | |? ? []]; try discriminate; reflexivity.
Qed.

Lemma sends_only_in_window (w : world) (self : listener) (n : nat) :
  forall s,
    Forall (fun x =>
              existsb is_send (snd x) = true ->
              time_report self = true /\
              minute (time_read w (fst x)) = 0 /\
              second (time_read w (fst x)) < 10 /\
              hour (time_read w (fst x)) <> last_reported_hour (fst x))
      (sweep w self n s).
Proof.
  induction n as [|n IH]; intros s; [constructor|].
  rewrite sweep_S. constructor; [|apply IH].
  apply (report_check_cases w self s).
Qed.

Lemma increasing_NoDup (hs : list Z) : StronglySorted Z.lt hs -> NoDup hs.
Proof.
  induction 1 as [|h hs Hsorted IH Hall]; constructor; [|exact IH].
  intros Hin. rewrite Forall_forall in Hall. specialize (Hall h Hin). lia.
Qed.

Lemma times_read_S (w : world) (self : listener) (n : nat) (s : state) :
  times_read w self (S n) s =
  time_read w s :: times_read w self n (final (report_check w self) s).
Proof. unfold times_read. rewrite sweep_S. reflexivity. Qed.

Lemma announced_times_S (w : world) (self : listener) (n : nat) (s : state) :
  announced_times w self (S n) s =
  (if existsb is_delivered (events (report_check w self) s)
   then [time_read w s] else []) ++
  announced_times w self n (final (report_check w self) s).
Proof.
  unfold announced_times. rewrite sweep_S. cbn [omap list_omap].
  unfold announced_at at 1. cbn [fst snd].
  now destruct (existsb is_delivered _).
Qed.

Lemma hours_of_times_read (w : world) (self : listener) (n : nat) (s : state) :
  hours_read w self n s = map hour (times_read w self n s).
Proof. unfold hours_read, times_read. now rewrite map_map. Qed.

Lemma hours_of_announced_times (w : world) (self : listener) (n : nat) :
  forall s, announced_hours w self n s = map hour (announced_times w self n s).
Proof.
  induction n as [|n IH]; intros s; [reflexivity|].
  rewrite announced_hours_S, announced_times_S, map_app, IH.
  now destruct (existsb is_delivered _).
Qed.

(** An announcement that went through was for an hour other than the one
    recorded. *)
Lemma delivered_new_hour (w : world) (self : listener) (s : state) :
  existsb is_delivered (events (report_check w self) s) = true ->
  hour (time_read w s) <> last_reported_hour s.
Proof.
  intros Hd. apply (report_check_cases w self s). apply existsb_exists.
  apply existsb_exists in Hd as (ev & Hin & Hev). exists ev.
  split; [exact Hin|].
  destruct ev as [| | |? ? []]; try discriminate; reflexivity.
Qed.

(** The argument for a clock that does not go back, whatever "back" is
    measured by: an order [le] on the times read, with a strict part [lt]
    that holds between two times of different hours. *)
Section Increasing.

Variables le lt : datetime -> datetime -> Prop.

Hypothesis lt_trans : forall a b c, lt a b -> lt b c -> lt a c.
Hypothesis le_lt : forall a b, le a b -> hour b <> hour a -> lt a b.

(** After an announcement at [c], or from a state in which the hour of
    [c] is the one recorded, every announcement is later than [c]. *)
Lemma announced_after (w : world) (self : listener) (n : nat) :
  forall (s : state) (c : datetime),
    hour c = last_reported_hour s ->
    Forall (le c) (times_read w self n s) ->
    StronglySorted le (times_read w self n s) ->
    Forall (lt c) (announced_times w self n s).
Proof.
  induction n as [|n IH]; intros s c Hc Hall Hsorted; [constructor|].
  rewrite times_read_S in Hall, Hsorted. rewrite announced_times_S.
  apply Forall_cons in Hall as [Hle Hall].
  apply StronglySorted_inv in Hsorted as [Hsorted Hfirst].
  destruct (report_check_cases w self s) as [_ Hlast].
  destruct (existsb is_delivered _) eqn:Hd; simpl.
  - pose proof (delivered_new_hour w self s Hd) as Hne.
    assert (Hlt : lt c (time_read w s)) by (apply le_lt; congruence).
    constructor; [exact Hlt|].
    eapply Forall_impl;
      [apply (IH _ (time_read w s)); [now rewrite Hlast | exact Hfirst |
                                      exact Hsorted]|].
    intros t Ht. simpl in Ht. exact (lt_trans _ _ _ Hlt Ht).
  - apply (IH _ c); [now rewrite Hlast | exact Hall | exact Hsorted].
Qed.

Lemma announced_times_increasing (w : world) (self : listener) (n : nat) :
  forall s : state,
    StronglySorted le (times_read w self n s) ->
    StronglySorted lt (announced_times w self n s).
Proof.
  induction n as [|n IH]; intros s Hsorted; [constructor|].
  rewrite times_read_S in Hsorted. rewrite announced_times_S.
  apply StronglySorted_inv in Hsorted as [Hsorted Hfirst].
  destruct (report_check_cases w self s) as [_ Hlast].
  destruct (existsb is_delivered _) eqn:Hd; simpl; [|exact (IH _ Hsorted)].
  constructor; [exact (IH _ Hsorted)|].
  apply announced_after; [now rewrite Hlast | exact Hfirst | exact Hsorted].
Qed.

End Increasing.

Lemma clock_hour_lt_trans (a b c : datetime) :
  clock_hour_lt a b -> clock_hour_lt b c -> clock_hour_lt a c.
Proof. unfold clock_hour_lt. lia. Qed.

Lemma clock_hour_le_lt (a b : datetime) :
  clock_hour_le a b -> hour b <> hour a -> clock_hour_lt a b.
Proof.
  intros [H|(_ & _ & _ & H)] Hne; [exact H | congruence].
Qed.

Lemma clock_hour_lt_irrefl (a b : datetime) :
  clock_hour_lt a b -> ~ same_clock_hour a b.
Proof. unfold clock_hour_lt, same_clock_hour. lia. Qed.

Lemma same_clock_hour_sym (a b : datetime) :
  same_clock_hour a b -> same_clock_hour b a.
Proof. unfold same_clock_hour. lia. Qed.

(** A clock that does not go back does not go back in clock hours. *)
Lemma datetime_le_clock_hour (a b : datetime) :
  datetime_le a b -> clock_hour_le a b.
Proof. unfold datetime_le, clock_hour_le. tauto. Qed.

Lemma sorted_lookup {A} (R : A -> A -> Prop) (l : list A) :
  StronglySorted R l ->
  forall (i j : nat) (a b : A),
    (i < j)%nat -> l !! i = Some a -> l !! j = Some b -> R a b.
Proof.
  induction 1 as [|x l Hsorted IH Hall]; intros i j a b Hij Ha Hb;
    [discriminate|].
  destruct j as [|j]; [lia|]. simpl in Hb. destruct i as [|i].
  - injection Ha as <-. rewrite List.Forall_forall in Hall. apply Hall.
    apply list_elem_of_In. eapply list_elem_of_lookup_2. exact Hb.
  - simpl in Ha. apply (IH i j); [lia | exact Ha | exact Hb].
Qed.

Lemma sorted_by_hour (ts : list datetime) :
  StronglySorted Z.le (map hour ts) <->
  StronglySorted (fun a b => hour a <= hour b) ts.
Proof.
  induction ts as [|t ts IH]; simpl; [split; constructor|].
  split; intros H; apply StronglySorted_inv in H as [H1 H2];
    (constructor; [now apply IH|]).
  - apply List.Forall_forall. intros x Hx.
    rewrite List.Forall_forall in H2. apply H2. now apply in_map.
  - apply List.Forall_forall. intros h Hh.
    apply in_map_iff in Hh as (x & <- & Hx).
    rewrite List.Forall_forall in H2. now apply H2.
Qed.

Lemma increasing_by_hour (ts : list datetime) :
  StronglySorted (fun a b => hour a < hour b) ts ->
  StronglySorted Z.lt (map hour ts).
Proof.
  induction 1 as [|t ts Hsorted IH Hall]; simpl; constructor; [exact IH|].
  apply List.Forall_forall. intros h Hh.
  apply in_map_iff in Hh as (x & <- & Hx).
  rewrite List.Forall_forall in Hall. now apply Hall.
Qed.

(** C7. Over any number of successive evaluations of the report
    condition: [SendMsg] is called for the report only when reporting is
    on, the minute is 0, the second is under 10 and the hour is not the
    one recorded; and no two announcements in a row carry the same hour
    (the first differs from the hour recorded at the start).  With a clock
    that does not go back to an earlier clock hour, the announcements
    delivered are in clock hours that go strictly up, so that no clock
    hour (an hour of a day) is announced twice, whatever hour was recorded
    at the start; and while the hour values read do not go down (a sweep
    within one day), no hour value is announced twice. *)
Theorem hourly_report_once (w : world) (self : listener) (n : nat)
    (s : state) :
  Forall (fun x =>
            existsb is_send (snd x) = true ->
            time_report self = true /\
            minute (time_read w (fst x)) = 0 /\
            second (time_read w (fst x)) < 10 /\
            hour (time_read w (fst x)) <> last_reported_hour (fst x))
    (sweep w self n s) /\
  no_repeat (last_reported_hour s) (announced_hours w self n s) /\
  (StronglySorted clock_hour_le (times_read w self n s) ->
   StronglySorted clock_hour_lt (announced_times w self n s) /\
   forall (i j : nat) (a b : datetime),
     announced_times w self n s !! i = Some a ->
     announced_times w self n s !! j = Some b ->
     same_clock_hour a b -> i = j) /\
  (StronglySorted Z.le (hours_read w self n s) ->
   NoDup (announced_hours w self n s)).
Proof.
  split; [apply sends_only_in_window|].
  split; [apply announced_no_repeat|]. split.
  - intros Hsorted.
    pose proof (announced_times_increasing clock_hour_le clock_hour_lt
                  clock_hour_lt_trans clock_hour_le_lt w self n s Hsorted)
      as Hinc.
    split; [exact Hinc|]. intros i j a b Ha Hb Hsame.
    destruct (Nat.lt_trichotomy i j) as [Hij|[Hij|Hij]]; [|exact Hij|].
    + exfalso.
      exact (clock_hour_lt_irrefl a b
               (sorted_lookup _ _ Hinc i j a b Hij Ha Hb) Hsame).
    + exfalso.
      exact (clock_hour_lt_irrefl b a
               (sorted_lookup _ _ Hinc j i b a Hij Hb Ha)
               (same_clock_hour_sym a b Hsame)).
  - intros Hsorted. rewrite hours_of_times_read in Hsorted.
    apply sorted_by_hour in Hsorted.
    rewrite hours_of_announced_times.
    apply increasing_NoDup, increasing_by_hour.
    apply (announced_times_increasing (fun a b => hour a <= hour b)
             (fun a b => hour a < hour b)); [| |exact Hsorted].
    + intros a b c. simpl. lia.
    + intros a b. simpl. lia.
Qed.

Lemma hourly_report_once_witness :
  (StronglySorted clock_hour_lt
     (announced_times Examples.w_next_day Examples.bot 3 Examples.s0) /\
   forall (i j : nat) (a b : datetime),
     announced_times Examples.w_next_day Examples.bot 3 Examples.s0 !! i
       = Some a ->
     announced_times Examples.w_next_day Examples.bot 3 Examples.s0 !! j
       = Some b ->
     same_clock_hour a b -> i = j) /\
  NoDup (announced_hours Examples.w_two_hours Examples.bot 6 Examples.s0).
Proof.
  split.
  - apply (hourly_report_once Examples.w_next_day Examples.bot 3 Examples.s0).
    unfold clock_hour_le, clock_hour_lt, same_clock_hour.
    repeat constructor; simpl; lia.
  - assert (E : hours_read Examples.w_two_hours Examples.bot 6 Examples.s0
                = [5; 5; 5; 6; 6; 6]) by (vm_compute; reflexivity).
    apply (hourly_report_once Examples.w_two_hours Examples.bot 6 Examples.s0).
    rewrite E. repeat constructor; lia.
Defined.

(** Over those two hours the announcements are the two expected. *)
Example two_hours_announced :
  announced_hours Examples.w_two_hours Examples.bot 6 Examples.s0 = [5; 6].
Proof. vm_compute. reflexivity. Qed.

(** Five o'clock, six o'clock, and five o'clock of the next day: three
    clock hours, each announced once; the hour value 5 comes back with the
    next day. *)
Example next_day_announced :
  announced_hours Examples.w_next_day Examples.bot 3 Examples.s0 = [5; 6; 5] /\
  map day (announced_times Examples.w_next_day Examples.bot 3 Examples.s0)
    = [2; 2; 3].
Proof. split; vm_compute; reflexivity. Qed.

(** * Further properties *)

(** ** The size of the parts *)

Lemma rindex_lt (c : char) (s : str) (i : nat) :
  rindex c s = Some i -> (i < length s)%nat.
Proof.
  revert i. induction s as [|x s IH]; intros i; simpl; [discriminate|].
  destruct (rindex c s) as [j|].
  - intros [= <-]. specialize (IH j eq_refl). lia.
  - destruct (N.eqb x c); [intros [= <-]; lia | discriminate].
Qed.

(** [rfind] from 0 up to [stop] finds nothing or an index below [stop]. *)
Lemma rfind_below (c : char) (s : str) (stop : Z) :
  0 <= stop ->
  rfind c s 0 stop = -1 \/ 0 <= rfind c s 0 stop < stop.
Proof.
  intros Hstop. unfold rfind.
  destruct (rindex c _) as [i|] eqn:E; [right | left; reflexivity].
  apply rindex_lt in E. unfold slice in E.
  rewrite length_take in E. unfold adjust_index in *.
  pose proof (len_nonneg s) as Hlen. simpl in *.
  replace (stop <? 0) with false in * by (symmetry; apply Z.ltb_ge; lia).
  lia.
Qed.

Lemma split_step_part_len (max : Z) (m : str) :
  0 <= max -> len (fst (split_step max m)) <= max.
Proof.
  intros Hmax. unfold split_step.
  destruct (len m >? max) eqn:Hgt; cbn [fst].
  - assert (Hidx : 0 <= (if rfind newline m 0 max =? -1 then max
                         else rfind newline m 0 max) <= max).
    { destruct (rfind_below newline m max Hmax) as [E|E].
      - rewrite E. simpl. lia.
      - destruct (Z.eqb_spec (rfind newline m 0 max) (-1)); lia. }
    revert Hidx. generalize (if rfind newline m 0 max =? -1 then max
                             else rfind newline m 0 max).
    intros idx Hidx. unfold slice_to, len, adjust_index.
    replace (idx <? 0) with false by (symmetry; apply Z.ltb_ge; lia).
    rewrite length_take. lia.
  - rewrite Z.gtb_ltb in Hgt. apply Z.ltb_ge in Hgt. exact Hgt.
Qed.

Lemma split_turns_parts_len (max : Z) (n : nat) :
  0 <= max ->
  forall (m : str) (parts : list str),
    Forall (fun p => len p <= max) parts ->
    Forall (fun p => len p <= max) (snd (split_turns n max m parts)).
Proof.
  intros Hmax. induction n as [|n IH]; intros [|c m] parts Hparts; simpl;
    try assumption.
  pose proof (split_step_part_len max (c :: m) Hmax) as Hlen.
  destruct (split_step max (c :: m)) as [part rest]. apply IH.
  apply Forall_app. split; [assumption|]. constructor; [exact Hlen | constructor].
Qed.

Lemma replace_scan_shrinks (n : nat) (old : str) :
  forall s : str, (length (replace_scan n old [] s) <= length s)%nat.
Proof.
  induction n as [|n IH]; intros [|c s]; simpl; try lia.
  destruct (starts_with old (c :: s)).
  - simpl. etransitivity; [apply IH|]. rewrite length_drop. simpl. lia.
  - simpl. specialize (IH s). lia.
Qed.

(** Taking the banner lines out never makes a part longer. *)
Lemma strip_banner_shrinks (i : nat) (part : str) :
  len (strip_banner i part) <= len part.
Proof.
  unfold strip_banner, len.
  destruct ((0 <? i)%nat && contains Text.banner part); [|lia].
  unfold replace, Text.banner_line. simpl app.
  pose proof (replace_scan_shrinks (length part)
                (Text.banner ++ [newline]) part) as H.
  simpl app in H. lia.
Qed.

Lemma sent_parts_len (max : Z) (parts : list str) :
  Forall (fun p => len p <= max) parts ->
  Forall (fun p => len p <= max) (sent_parts parts).
Proof.
  unfold sent_parts. generalize strip_banner_shrinks.
  generalize strip_banner as f. intros f Hf.
  revert f Hf. induction parts as [|p parts IH]; intros f Hf Hall; simpl;
    [constructor|].
  apply Forall_cons in Hall as [Hp Hall]. constructor.
  - specialize (Hf 0%nat p). lia.
  - apply IH; [intros i q; apply Hf | exact Hall].
Qed.

(** X1. With a limit that is not negative, no part the splitting loop
    collects is longer than the limit, at any turn; nor is any segment
    handed to [SendMsg], neither while the loop runs nor when it has
    ended. *)
Theorem parts_within_limit (max : Z) (text : str) :
  0 <= max ->
  (forall n : nat,
     Forall (fun p => len p <= max) (snd (split_turns n max text [])) /\
     Forall (fun p => len p <= max)
       (sent_parts (snd (split_turns n max text [])))) /\
  (forall (fuel : nat) (parts : list str),
     split_parts fuel max text = Some parts ->
     Forall (fun p => len p <= max) parts /\
     Forall (fun p => len p <= max) (sent_parts parts)).
Proof.
  intros Hmax.
  assert (H : forall n, Forall (fun p => len p <= max)
                          (snd (split_turns n max text []))).
  { intros n. apply split_turns_parts_len; [exact Hmax | constructor]. }
  split.
  - intros n. split; [apply H | apply sent_parts_len, H].
  - intros fuel parts Hparts. apply split_loop_turns in Hparts.
    specialize (H fuel). rewrite Hparts in H.
    split; [exact H | apply sent_parts_len, H].
Qed.

Lemma parts_within_limit_witness :
  (forall n : nat,
     Forall (fun p => len p <= 20)
       (snd (split_turns n 20 Examples.two_parts [])) /\
     Forall (fun p => len p <= 20)
       (sent_parts (snd (split_turns n 20 Examples.two_parts [])))) /\
  (Forall (fun p => len p <= 20) Examples.two_parts_cut /\
   Forall (fun p => len p <= 20) (sent_parts Examples.two_parts_cut)).
Proof.
  destruct (parts_within_limit 20 Examples.two_parts) as [H1 H2]; [lia|].
  split; [exact H1|].
  apply (H2 10%nat Examples.two_parts_cut). reflexivity.
Defined.

(** ** A text on one line *)

Lemma split_loop_acc (fuel : nat) (max : Z) :
  forall (m : str) (parts : list str),
    split_loop fuel max m parts =
    option_map (app parts) (split_loop fuel max m []).
Proof.
  induction fuel as [|fuel IH]; intros [|c m] parts; simpl;
    try (now rewrite app_nil_r); try reflexivity.
  destruct (split_step max (c :: m)) as [part rest].
  rewrite (IH rest (parts ++ [part])), (IH rest [part]).
  destruct (split_loop fuel max rest []) as [ps|]; simpl; [|reflexivity].
  now rewrite <- app_assoc.
Qed.

Lemma split_loop_one_line_count (max : Z) :
  0 < max ->
  forall (fuel : nat) (m : str),
    (length m <= fuel)%nat -> ~ In newline m ->
    exists ps,
      split_loop fuel max m [] = Some ps /\
      Z.of_nat (length ps) = (len m + max - 1) / max.
Proof.
  intros Hmax. induction fuel as [|fuel IH]; intros [|c m] Hlen Hnl;
    simpl in Hlen |- *; try lia.
  - exists []. split; [reflexivity|]. unfold len. simpl.
    symmetry. apply Z.div_small. lia.
  - exists []. split; [reflexivity|]. unfold len. simpl.
    symmetry. apply Z.div_small. lia.
  - unfold split_step. destruct (len (c :: m) >? max) eqn:Hgt.
    + rewrite (rfind_absent newline (c :: m) 0 max Hnl).
      change (-1 =? -1) with true. cbn beta iota zeta.
      rewrite Z.gtb_ltb in Hgt. apply Z.ltb_lt in Hgt.
      assert (Hrest : len (slice_from (c :: m) max) = len (c :: m) - max).
      { unfold slice_from, adjust_index, len in *.
        replace (max <? 0) with false by (symmetry; apply Z.ltb_ge; lia).
        rewrite length_drop. lia. }
      destruct (IH (slice_from (c :: m) max)) as (ps & Hps & Hcount).
      * unfold len in Hrest. simpl length in *. lia.
      * intros Hin. apply Hnl. unfold slice_from in Hin.
        apply list_elem_of_In. apply list_elem_of_In in Hin.
        eapply subseteq_drop, Hin.
      * cbn beta iota zeta. rewrite split_loop_acc, Hps. simpl.
        eexists. split; [reflexivity|]. simpl length.
        rewrite Nat2Z.inj_succ, Hcount, Hrest.
        replace (len (c :: m) + max - 1)
          with (len (c :: m) - max + max - 1 + 1 * max) by lia.
        rewrite Z.div_add by lia. lia.
    + rewrite Z.gtb_ltb in Hgt. apply Z.ltb_ge in Hgt.
      exists [c :: m]. split; [now destruct fuel|].
      pose proof (len_nonneg m). unfold len in *. simpl length in *.
      apply Z.div_unique with (r := Z.of_nat (S (length m)) - 1); lia.
Qed.

(** X2. A text without any newline, under a positive limit, is always cut
    to the end: within as many turns as it has characters the loop yields
    its parts, and there are as many of them as the length divided by the
    limit, rounded up. *)
Theorem one_line_text_parts (max : Z) (text : str) :
  0 < max -> ~ In newline text ->
  exists parts,
    split_parts (length text) max text = Some parts /\
    Z.of_nat (length parts) = (len text + max - 1) / max.
Proof.
  intros Hmax Hnl. unfold split_parts.
  apply split_loop_one_line_count; [exact Hmax | lia | exact Hnl].
Qed.

Lemma one_line_text_parts_witness :
  exists parts,
    split_parts (length (Examples.a "abcdefghij"%string)) 4
      (Examples.a "abcdefghij"%string) = Some parts /\
    Z.of_nat (length parts) = (len (Examples.a "abcdefghij"%string) + 4 - 1) / 4.
Proof.
  apply (one_line_text_parts 4 (Examples.a "abcdefghij"%string)); [lia|].
  vm_compute. intros H. decompose [or] H; discriminate || assumption.
Defined.

(** ** More on [get_reply] *)

Import Replies.

(** One attempt with its handlers: exactly one request is made, the
    request counter goes up by one, nothing is sent to the chat, and the
    attempt either lets the loop go on or returns one of four fixed texts
    or a generated reply. *)
Lemma attempt_spec (w : world) (message : str) (retries attempt : Z)
    (s : state) :
  exists r evs,
    try_except (request w message attempt) (on_error retries attempt) s
      = (Ok r, count_post s, evs) /\
    posts evs = 1 /\
    List.filter is_send evs = [] /\
    (r = None \/
     (exists t, r = Some t /\
        (t = Text.STILL_THINKING \/ t = Text.TIMED_OUT \/
         t = Text.NETWORK_PROBLEM \/ t = Text.PROCESSING_ERROR)) \/
     exists text, r = Some (Text.banner_line ++ text)).
Proof.
  unfold try_except, request, on_error, bind, log, sleep, emit, post, lift,
    raise, ret.
  simpl. repeat split_match;
    do 2 eexists; (split; [reflexivity|]); (split; [reflexivity|]);
    (split; [reflexivity|]); eauto 10.
Qed.

Lemma attempts_spec (w : world) (message : str) (retries : Z) :
  forall (todo : list Z) (s : state),
    exists r,
      result (attempts w message retries todo) s = Ok r /\
      (is_fallback r \/ is_generated r) /\
      posts (events (attempts w message retries todo) s)
        <= Z.of_nat (length todo) /\
      Z.of_nat (n_post (final (attempts w message retries todo) s)) =
        Z.of_nat (n_post s) + posts (events (attempts w message retries todo) s) /\
      List.filter is_send (events (attempts w message retries todo) s) = [].
Proof.
  induction todo as [|attempt rest IH]; intros s.
  - exists Text.UNAVAILABLE. unfold is_fallback. simpl.
    unfold result, final, events, posts. simpl. repeat split; auto 10; lia.
  - destruct (attempt_spec w message retries attempt s)
      as (r & evs & E & Hposts & Hsends & Hr).
    cbn [attempts length].
    rewrite (result_bind_ok _ _ _ _ _ _ E), (final_bind_ok _ _ _ _ _ _ E),
      (events_bind_ok _ _ _ _ _ _ E).
    rewrite posts_app, List.filter_app, Hposts, Hsends.
    destruct Hr as [->|[(t & -> & Ht)|(text & ->)]].
    + destruct (IH (count_post s)) as (r & Hres & Hkind & Hle & Hn & Hs).
      exists r. simpl in Hn. repeat split; auto; lia.
    + exists t. unfold is_fallback, result, final, events, posts. simpl.
      repeat split; try lia. left. tauto.
    + exists (Text.banner_line ++ text).
      unfold is_generated, result, final, events, posts. simpl.
      repeat split; eauto; lia.
Qed.

Lemma py_range_length_max (n : Z) :
  Z.of_nat (length (py_range n)) = Z.max 0 n.
Proof. unfold py_range. rewrite length_map, length_seq. lia. Qed.

Lemma get_reply_with_key (w : world) (message : str) (retries : Z)
    (s : state) :
  key_missing s = false ->
  get_reply w message retries s =
  attempts w message retries (py_range (retries + 1)) s.
Proof.
  intros Hkey. unfold get_reply.
  assert (E : get s = (Ok s, s, [])) by reflexivity.
  rewrite (bind_ok _ _ _ _ _ _ E), Hkey. simpl. symmetry. apply run_eta.
Qed.

Lemma get_reply_without_key (w : world) (message : str) (retries : Z)
    (s : state) :
  key_missing s = true ->
  get_reply w message retries s =
    (Ok Text.NOT_CONFIGURED, s, [EvLog ERROR LogKeyMissing]).
Proof.
  intros Hkey. unfold get_reply, bind, get. simpl. rewrite Hkey. reflexivity.
Qed.

(** X3. Whatever the endpoint answers, one call of [get_reply] makes at
    most [retries + 1] requests (none when that is negative), the request
    counter moves by exactly the requests made, and nothing is sent to the
    chat. *)
Theorem get_reply_requests_bounded (w : world) (message : str) (retries : Z)
    (s : state) :
  posts (events (get_reply w message retries) s) <= Z.max 0 (retries + 1) /\
  Z.of_nat (n_post (final (get_reply w message retries) s)) =
    Z.of_nat (n_post s) + posts (events (get_reply w message retries) s) /\
  List.filter is_send (events (get_reply w message retries) s) = [].
Proof.
  destruct (key_missing s) eqn:Hkey.
  - unfold events, final. rewrite (get_reply_without_key _ _ _ _ Hkey).
    unfold posts. simpl. repeat split; lia.
  - destruct (attempts_spec w message retries (py_range (retries + 1)) s)
      as (r & _ & _ & Hle & Hn & Hs).
    rewrite py_range_length_max in Hle.
    unfold result, final, events in *.
    rewrite (get_reply_with_key _ _ _ _ Hkey). auto.
Qed.

Lemma banner_line_head (text : str) :
  Text.banner_line ++ text <> Text.NOT_CONFIGURED.
Proof. discriminate. Qed.

Lemma get_reply_value_cases (w : world) (message : str) (retries : Z)
    (s : state) :
  exists r,
    result (get_reply w message retries) s = Ok r /\
    ((key_missing s = true /\ r = Text.NOT_CONFIGURED) \/
     (key_missing s = false /\ r <> Text.NOT_CONFIGURED /\
      (is_fallback r \/ is_generated r))).
Proof.
  destruct (key_missing s) eqn:Hkey.
  - exists Text.NOT_CONFIGURED. unfold result.
    rewrite (get_reply_without_key _ _ _ _ Hkey). auto.
  - destruct (attempts_spec w message retries (py_range (retries + 1)) s)
      as (r & Hres & Hkind & _).
    exists r. unfold result in *.
    rewrite (get_reply_with_key _ _ _ _ Hkey).
    split; [exact Hres|]. right. repeat split; [|exact Hkind].
    destruct Hkind as [Hf|(text & ->)]; [|apply banner_line_head].
    unfold is_fallback in Hf. decompose [or] Hf; subst; discriminate.
Qed.

(** X4. What [get_reply] returns is always one of a few texts: without a
    credential the "not configured" text; with one, never that text, but
    one of the five fallbacks ("still thinking", "timed out", "network
    problem", "processing error", "temporarily unavailable") or the banner
    line followed by a text. *)
Theorem get_reply_value (w : world) (message : str) (retries : Z)
    (s : state) :
  exists r,
    result (get_reply w message retries) s = Ok r /\
    ((key_missing s = true /\ r = Text.NOT_CONFIGURED) \/
     (key_missing s = false /\ r <> Text.NOT_CONFIGURED /\
      (is_fallback r \/ is_generated r))).
Proof. exact (get_reply_value_cases w message retries s). Qed.

(** A request error, with attempts left and without. *)
Lemma attempt_request_error_retry (w : world) (message : str)
    (retries attempt : Z) (s : state) :
  http_post w (n_post s) message (15 + attempt * 5) = inl RequestException ->
  attempt < retries ->
  try_except (request w message attempt) (on_error retries attempt) s =
    (Ok None, count_post s,
     [EvLog INFO (LogAttempt (attempt + 1) (15 + attempt * 5));
      EvPost message (15 + attempt * 5);
      EvLog ERROR (LogRequestFailed RequestException);
      EvSleep 1000]).
Proof.
  intros H Hlt. unfold try_except, request, bind, log, emit, post. simpl.
  rewrite H. simpl. unfold on_error, bind, log, sleep, emit, ret. simpl.
  replace (attempt <? retries) with true by (symmetry; apply Z.ltb_lt; lia).
  reflexivity.
Qed.

Lemma attempt_request_error_last (w : world) (message : str)
    (retries attempt : Z) (s : state) :
  http_post w (n_post s) message (15 + attempt * 5) = inl RequestException ->
  retries <= attempt ->
  try_except (request w message attempt) (on_error retries attempt) s =
    (Ok (Some Text.NETWORK_PROBLEM), count_post s,
     [EvLog INFO (LogAttempt (attempt + 1) (15 + attempt * 5));
      EvPost message (15 + attempt * 5);
      EvLog ERROR (LogRequestFailed RequestException)]).
Proof.
  intros H Hge. unfold try_except, request, bind, log, emit, post. simpl.
  rewrite H. simpl. unfold on_error, bind, log, sleep, emit, ret. simpl.
  replace (attempt <? retries) with false by (symmetry; apply Z.ltb_ge; lia).
  reflexivity.
Qed.

Lemma attempts_transport_failures (w : world) (message : str) (retries : Z) :
  (forall n m t, http_post w n m t = inl Timeout \/
                 http_post w n m t = inl RequestException) ->
  forall (todo : list Z) (s : state),
    Forall (fun attempt => attempt < retries) todo ->
    result (attempts w message retries (todo ++ [retries])) s =
      Ok (last_failure_text
            (http_post w (n_post s + length todo) message (15 + retries * 5))) /\
    posts (events (attempts w message retries (todo ++ [retries])) s) =
      Z.of_nat (length todo) + 1.
Proof.
  intros Hw. induction todo as [|attempt todo IH]; intros s Hall.
  - cbn [app attempts length]. rewrite Nat.add_0_r.
    destruct (Hw (n_post s) message (15 + retries * 5)) as [H|H]; rewrite H.
    + pose proof (attempt_timeout_last w message retries retries s H
                    (Z.le_refl _)) as E.
      rewrite (result_bind_ok _ _ _ _ _ _ E), (events_bind_ok _ _ _ _ _ _ E).
      split; reflexivity.
    + pose proof (attempt_request_error_last w message retries retries s H
                    (Z.le_refl _)) as E.
      rewrite (result_bind_ok _ _ _ _ _ _ E), (events_bind_ok _ _ _ _ _ _ E).
      split; reflexivity.
  - inversion Hall as [|? ? Hlt Hall']; subst.
    destruct (IH (count_post s) Hall') as [Hr Hp].
    cbn [app attempts length].
    replace (n_post s + S (length todo))%nat
      with (n_post (count_post s) + length todo)%nat by (simpl; lia).
    destruct (Hw (n_post s) message (15 + attempt * 5)) as [H|H].
    + pose proof (attempt_timeout_retry w message retries attempt s H Hlt) as E.
      rewrite (result_bind_ok _ _ _ _ _ _ E), (events_bind_ok _ _ _ _ _ _ E).
      cbn beta iota. split; [exact Hr|].
      rewrite posts_app, Hp. unfold posts. simpl. lia.
    + pose proof (attempt_request_error_retry w message retries attempt s
                    H Hlt) as E.
      rewrite (result_bind_ok _ _ _ _ _ _ E), (events_bind_ok _ _ _ _ _ _ E).
      cbn beta iota. split; [exact Hr|].
      rewrite posts_app, Hp. unfold posts. simpl. lia.
Qed.

(** X5. When every attempt fails in transport, by a timeout or by another
    request error in any mix, [get_reply] (credential set, [retries] not
    negative) makes all its [retries + 1] attempts, and the text it
    returns is decided by the last one alone: "timed out" after a timeout,
    "network problem" after another request error. *)
Theorem transport_failures_exhaust (w : world) (message : str) (retries : Z)
    (s : state) :
  key_missing s = false -> 0 <= retries ->
  (forall n m t, http_post w n m t = inl Timeout \/
                 http_post w n m t = inl RequestException) ->
  result (get_reply w message retries) s =
    Ok (last_failure_text
          (http_post w (n_post s + Z.to_nat retries) message
             (15 + retries * 5))) /\
  posts (events (get_reply w message retries) s) = retries + 1.
Proof.
  intros Hkey Hret Hw.
  destruct (attempts_transport_failures w message retries Hw
              (py_range retries) s (py_range_below retries)) as [Hr Hp].
  rewrite <- py_range_snoc in Hr, Hp by assumption.
  rewrite py_range_length in Hp by assumption.
  unfold result, events in *. rewrite (get_reply_with_key _ _ _ _ Hkey).
  split; [|exact Hp]. rewrite Hr. do 3 f_equal.
  unfold py_range. rewrite length_map, length_seq. reflexivity.
Qed.

Lemma transport_failures_exhaust_witness :
  result (get_reply MoreExamples.w_mixed_failures Examples.hello 2) Examples.s0 =
    Ok (last_failure_text
          (http_post MoreExamples.w_mixed_failures
             (n_post Examples.s0 + Z.to_nat 2) Examples.hello (15 + 2 * 5))) /\
  posts (events (get_reply MoreExamples.w_mixed_failures Examples.hello 2)
           Examples.s0) = 2 + 1.
Proof.
  apply (transport_failures_exhaust MoreExamples.w_mixed_failures
           Examples.hello 2 Examples.s0); [reflexivity | lia |].
  intros [|[|[|n]]] m t; simpl; auto.
Defined.

(** X6. When an attempt gets a body with a truthy "choices" entry and a
    path [choices[0].message.content] to a value, [get_reply] returns at
    once the banner line followed by that value (as it is if it is a
    string, as [str] formats it otherwise): no further attempt, no
    waiting. *)
Theorem completion_returned_at_once (w : world) (message : str)
    (retries attempt : Z) (rest : list Z) (s : state)
    (data found value : json) :
  http_post w (n_post s) message (15 + attempt * 5) = inr data ->
  dict_get data Text.choices = inr found ->
  truthy found = true ->
  reply_content data = inr value ->
  attempts w message retries (attempt :: rest) s =
    (Ok (Text.banner_line ++
         match value with
         | JStr text => text
         | other => py_str w other
         end),
     count_post s,
     [EvLog INFO (LogAttempt (attempt + 1) (15 + attempt * 5));
      EvPost message (15 + attempt * 5)]).
Proof.
  intros Hpost Hget Htrue Hvalue. cbn [attempts].
  unfold bind at 1. unfold try_except, request, bind, log, emit, post. simpl.
  rewrite Hpost. simpl. rewrite Hget. simpl. rewrite Htrue.
  unfold reply_content in Hvalue.
  destruct (getitem_key data Text.choices) as [|all]; [discriminate|]. simpl.
  destruct (getitem_0 all) as [|first]; [discriminate|]. simpl.
  destruct (getitem_key first Text.message) as [|inner]; [discriminate|]. simpl.
  rewrite Hvalue. reflexivity.
Qed.

Lemma completion_returned_at_once_witness :
  attempts MoreExamples.w_ok Examples.hello 2 [0; 1; 2] Examples.s0 =
    (Ok (Text.banner_line ++ Examples.a "ok"%string),
     count_post Examples.s0,
     [EvLog INFO (LogAttempt (0 + 1) (15 + 0 * 5));
      EvPost Examples.hello (15 + 0 * 5)]).
Proof.
  apply (completion_returned_at_once MoreExamples.w_ok Examples.hello 2 0
           [1; 2] Examples.s0
           (Examples.completion (Examples.a "ok"%string))
           (JArr [JObj [(Text.message,
                         JObj [(Text.content, JStr (Examples.a "ok"%string))])]])
           (JStr (Examples.a "ok"%string)));
    reflexivity.
Defined.

(** X7. An attempt that fails otherwise than in transport is not retried:
    when the request raises some other exception, or the body is not an
    object, or its "choices" are there but the way to
    [choices[0].message.content] is not, [get_reply] returns the
    "processing error" text from that attempt, after one request and
    without waiting. *)
Theorem handling_error_not_retried (w : world) (message : str)
    (retries attempt : Z) (rest : list Z) (s : state) :
  (http_post w (n_post s) message (15 + attempt * 5) = inl OtherException \/
   exists data,
     http_post w (n_post s) message (15 + attempt * 5) = inr data /\
     (dict_get data Text.choices = inl OtherException \/
      exists found e,
        dict_get data Text.choices = inr found /\ truthy found = true /\
        reply_content data = inl e)) ->
  result (attempts w message retries (attempt :: rest)) s
    = Ok Text.PROCESSING_ERROR /\
  final (attempts w message retries (attempt :: rest)) s = count_post s /\
  posts (events (attempts w message retries (attempt :: rest)) s) = 1 /\
  List.filter is_sleep (events (attempts w message retries (attempt :: rest)) s)
    = [].
Proof.
  intros H.
  assert (E : exists evs,
    try_except (request w message attempt) (on_error retries attempt) s =
      (Ok (Some Text.PROCESSING_ERROR), count_post s, evs) /\
    posts evs = 1 /\ List.filter is_sleep evs = []).
  { unfold try_except, request, bind, log, emit, post. simpl.
    destruct H as [H|(data & H & [Hget|(found & e & Hget & Htrue & Hc)])];
      rewrite H; simpl.
    - eexists. repeat split.
    - rewrite Hget. simpl. eexists. repeat split.
    - rewrite Hget. simpl. rewrite Htrue.
      pose proof (reply_content_raises data e Hc) as ->.
      unfold reply_content in Hc.
      destruct (getitem_key data Text.choices) as [e1|all]; simpl.
      { injection Hc as ->. eexists. repeat split. }
      destruct (getitem_0 all) as [e1|first]; simpl.
      { injection Hc as ->. eexists. repeat split. }
      destruct (getitem_key first Text.message) as [e1|inner]; simpl.
      { injection Hc as ->. eexists. repeat split. }
      rewrite Hc. simpl. eexists. repeat split. }
  destruct E as (evs & E & Hposts & Hsleep). cbn [attempts].
  rewrite (result_bind_ok _ _ _ _ _ _ E), (final_bind_ok _ _ _ _ _ _ E),
    (events_bind_ok _ _ _ _ _ _ E).
  unfold result, final, events. simpl. rewrite !app_nil_r. auto.
Qed.

Lemma handling_error_not_retried_witness :
  result (attempts MoreExamples.w_no_message Examples.hello 2 [0; 1; 2])
    Examples.s0 = Ok Text.PROCESSING_ERROR /\
  final (attempts MoreExamples.w_no_message Examples.hello 2 [0; 1; 2])
    Examples.s0 = count_post Examples.s0 /\
  posts (events (attempts MoreExamples.w_no_message Examples.hello 2 [0; 1; 2])
           Examples.s0) = 1 /\
  List.filter is_sleep
    (events (attempts MoreExamples.w_no_message Examples.hello 2 [0; 1; 2])
       Examples.s0) = [].
Proof.
  apply (handling_error_not_retried MoreExamples.w_no_message Examples.hello 2
           0 [1; 2] Examples.s0).
  right. exists MoreExamples.no_message. split; [reflexivity|].
  right. exists (JArr [JObj []]), OtherException.
  repeat split; reflexivity.
Defined.

(** ** More on [process_message] *)

(** X8. A message of somebody else that is not of type "friend", or that
    comes in a chat outside the watch list, is not answered: processing it
    ends normally and only writes log lines. *)
Theorem wrong_type_or_chat_never_answered (w : world) (self : listener)
    (fuel : nat) (who : str) (m : msg) (s : state) :
  sender m <> self_name self ->
  type m <> Text.friend \/ ~ In who (listen_list self) ->
  result (process_message w self fuel who m) s = Ok tt /\
  forallb is_log (events (process_message w self fuel who m) s) = true.
Proof.
  intros Hother Hrule. unfold result, events.
  rewrite (process_message_other _ _ _ _ _ _ Hother).
  unfold result, events, filter_and_reply.
  destruct (any_in Text.skip_keywords (content m)); [split; reflexivity|].
  replace (bool_decide (type m = Text.friend)
           && bool_decide (who ∈ listen_list self)) with false;
    [split; reflexivity|].
  symmetry. apply andb_false_iff. destruct Hrule as [H|H]; [left | right];
    apply bool_decide_eq_false_2; [exact H|].
  intros Hin. apply H. now apply list_elem_of_In.
Qed.

Lemma wrong_type_or_chat_never_answered_witness :
  result (process_message MoreExamples.w_ok Examples.bot 10
            (Examples.a "Carol"%string) Examples.from_alice) Examples.s0
    = Ok tt /\
  forallb is_log
    (events (process_message MoreExamples.w_ok Examples.bot 10
               (Examples.a "Carol"%string) Examples.from_alice) Examples.s0)
    = true.
Proof.
  apply (wrong_type_or_chat_never_answered MoreExamples.w_ok Examples.bot 10
           (Examples.a "Carol"%string) Examples.from_alice Examples.s0).
  - vm_compute. discriminate.
  - right. vm_compute. intros [H|[]]. discriminate.
Defined.

(** X9. A message that passes the filter, whose reply fits the limit and
    is taken by the chat backend, is answered by exactly one [SendMsg] of
    the reply to the chat it came in: after the line for the message come
    the events of [get_reply], the line for the reply, the send and the
    line for its success. *)
Theorem accepted_message_answered_once (w : world) (self : listener)
    (fuel : nat) (who : str) (m : msg) (s : state) (r : str) :
  let s1 := set_last_message_time who (datetime_now w (n_now s))
              (count_now s) in
  sender m <> self_name self ->
  any_in Text.skip_keywords (content m) = false ->
  type m = Text.friend ->
  In who (listen_list self) ->
  result (get_reply w (content m) default_retries) s1 = Ok r ->
  len r <= max_message_length self ->
  SendMsg w (n_send (final (get_reply w (content m) default_retries) s1))
    who r = None ->
  process_message w self fuel who m s =
    (Ok tt,
     count_send (final (get_reply w (content m) default_retries) s1),
     EvLog INFO (LogReceived who (content m)) ::
     events (get_reply w (content m) default_retries) s1 ++
     [EvLog INFO (LogApiReply r); EvSend who r None;
      EvLog INFO (LogReplied who)]).
Proof.
  intros s1 Hother Hkw Hty Hin Hr Hlen Hsend.
  rewrite (process_message_other _ _ _ _ _ _ Hother). fold s1.
  assert (E : filter_and_reply w self fuel who m s1 =
    (Ok tt,
     count_send (final (get_reply w (content m) default_retries) s1),
     events (get_reply w (content m) default_retries) s1 ++
     [EvLog INFO (LogApiReply r); EvSend who r None;
      EvLog INFO (LogReplied who)])).
  { unfold filter_and_reply. rewrite Hkw.
    rewrite (bool_decide_eq_true_2 _ Hty).
    rewrite bool_decide_eq_true_2 by (now apply list_elem_of_In).
    cbn [andb].
    pose proof (run_eta (get_reply w (content m) default_retries) s1) as E.
    rewrite Hr in E.
    remember (final (get_reply w (content m) default_retries) s1) as s2 eqn:Hs2.
    remember (events (get_reply w (content m) default_retries) s1) as evs
      eqn:Hevs.
    clear Hs2 Hevs. unfold reply_to, try_except.
    rewrite (bind_ok _ _ _ _ _ _ E).
    unfold result, final, events, bind, log, emit, send_msg. simpl.
    replace (len r >? max_message_length self) with false
      by (symmetry; rewrite Z.gtb_ltb; apply Z.ltb_ge; lia).
    simpl. rewrite Hsend. simpl. reflexivity. }
  unfold result, final, events. rewrite E. reflexivity.
Qed.

Lemma accepted_message_answered_once_witness :
  process_message MoreExamples.w_ok Examples.bot 10 Examples.alice
    Examples.from_alice Examples.s0 =
    (Ok tt,
     count_send
       (final (get_reply MoreExamples.w_ok (content Examples.from_alice)
                 default_retries)
          (set_last_message_time Examples.alice
             (datetime_now MoreExamples.w_ok (n_now Examples.s0))
             (count_now Examples.s0))),
     EvLog INFO (LogReceived Examples.alice (content Examples.from_alice)) ::
     events (get_reply MoreExamples.w_ok (content Examples.from_alice)
               default_retries)
       (set_last_message_time Examples.alice
          (datetime_now MoreExamples.w_ok (n_now Examples.s0))
          (count_now Examples.s0)) ++
     [EvLog INFO (LogApiReply Examples.short_answer);
      EvSend Examples.alice Examples.short_answer None;
      EvLog INFO (LogReplied Examples.alice)]).
Proof.
  apply (accepted_message_answered_once MoreExamples.w_ok Examples.bot 10
           Examples.alice Examples.from_alice Examples.s0
           Examples.short_answer).
  - vm_compute. discriminate.
  - vm_compute. reflexivity.
  - reflexivity.
  - left. reflexivity.
  - vm_compute. reflexivity.
  - vm_compute. discriminate.
  - reflexivity.
Defined.

(** X10. Whatever the message and however its processing ends,
    [process_message] leaves the credential and the last reported hour as
    they were, and changes the recorded time of no chat but the one the
    message came in. *)
Theorem process_message_touches_one_chat (w : world) (self : listener)
    (fuel : nat) (who : str) (m : msg) (s : state) :
  API_KEY (final (process_message w self fuel who m) s) = API_KEY s /\
  last_reported_hour (final (process_message w self fuel who m) s)
    = last_reported_hour s /\
  (forall other : str,
     other <> who ->
     last_message_time (final (process_message w self fuel who m) s) !! other
     = last_message_time s !! other).
Proof.
  destruct (decide (sender m = self_name self)) as [Hown|Hother].
  - unfold final. rewrite (process_message_own _ _ _ _ _ _ Hown). auto.
  - unfold final at 1 2 3.
    rewrite (process_message_other _ _ _ _ _ _ Hother). cbn [fst snd].
    pose proof (frame_filter_and_reply w self fuel who m
                  (set_last_message_time who (datetime_now w (n_now s))
                     (count_now s))) as F.
    unfold store in F. injection F as F1 F2 F3.
    rewrite F1, F2, F3. simpl. repeat split.
    intros other Hne. apply lookup_insert_ne. congruence.
Qed.

(** ** More on the polling loop *)

Lemma report_check_run (w : world) (self : listener) (s : state) :
  report_check w self s =
  (Ok tt, final (report_check w self) s, events (report_check w self) s).
Proof.
  rewrite (run_eta (report_check w self) s) at 1.
  pose proof (ends_report_check w self false false s) as H.
  destruct (result (report_check w self) s) as [[]| |];
    [reflexivity | discriminate | discriminate].
Qed.

(** X11. When fetching the new messages fails, the turn of the polling
    loop ends normally all the same: after the report check the error is
    logged and the loop waits five seconds instead of its interval;
    no message is processed. *)
Theorem fetch_failure_backs_off (w : world) (self : listener) (fuel : nat)
    (s : state) (e : exn) :
  GetListenMessage w (n_poll (final (report_check w self) s)) = inl e ->
  poll_cycle w self fuel s =
    (Ok tt, count_poll (final (report_check w self) s),
     events (report_check w self) s ++
     [EvLog ERROR (LogListenError e); EvSleep 5000]).
Proof.
  intros H. pose proof (report_check_run w self s) as E.
  remember (final (report_check w self) s) as s1 eqn:Hs1.
  remember (events (report_check w self) s) as ev1 eqn:Hev1.
  clear Hs1 Hev1. unfold poll_cycle, try_except, bind at 1. rewrite E.
  unfold bind, get_listen_message, log, sleep, emit. rewrite H.
  simpl. rewrite app_nil_r. reflexivity.
Qed.

Lemma fetch_failure_backs_off_witness :
  poll_cycle MoreExamples.w_fetch_fails Examples.bot 10 Examples.s0 =
    (Ok tt,
     count_poll
       (final (report_check MoreExamples.w_fetch_fails Examples.bot)
          Examples.s0),
     events (report_check MoreExamples.w_fetch_fails Examples.bot)
       Examples.s0 ++
     [EvLog ERROR (LogListenError OtherException); EvSleep 5000]).
Proof.
  apply (fetch_failure_backs_off MoreExamples.w_fetch_fails Examples.bot 10
           Examples.s0 OtherException).
  reflexivity.
Defined.

Lemma unwatched_chats_skipped (w : world) (self : listener) (fuel : nat)
    (msgs : list (str * list msg)) (s : state) :
  Forall (fun chat => ~ In (fst chat) (listen_list self)) msgs ->
  for_each msgs (fun chat =>
    let '(who, one_msgs) := chat in
    if bool_decide (who ∈ listen_list self) then
      process_batch w self fuel who one_msgs
    else ret tt) s = (Ok tt, s, []).
Proof.
  induction 1 as [|[who one_msgs] msgs Hwho _ IH]; [reflexivity|].
  cbn [for_each]. unfold bind at 1.
  rewrite bool_decide_eq_false_2
    by (intros Hin; apply Hwho; now apply list_elem_of_In).
  simpl. rewrite IH. reflexivity.
Qed.

(** X12. Messages of chats that are not in the watch list are fetched and
    dropped: a turn whose batch holds only such chats (or nothing) does
    the report check, waits its interval, and nothing else. *)
Theorem unwatched_batch_ignored (w : world) (self : listener) (fuel : nat)
    (s : state) (msgs : list (str * list msg)) :
  GetListenMessage w (n_poll (final (report_check w self) s)) = inr msgs ->
  Forall (fun chat => ~ In (fst chat) (listen_list self)) msgs ->
  poll_cycle w self fuel s =
    (Ok tt, count_poll (final (report_check w self) s),
     events (report_check w self) s ++ [EvSleep (interval self)]).
Proof.
  intros H Hall. unfold poll_cycle, try_except.
  rewrite (bind_ok _ _ _ _ _ _ (report_check_run w self s)).
  assert (E : get_listen_message w (final (report_check w self) s) =
              (Ok msgs, count_poll (final (report_check w self) s), [])).
  { unfold get_listen_message. rewrite H. reflexivity. }
  rewrite (result_bind_ok _ _ _ _ _ _ E), (final_bind_ok _ _ _ _ _ _ E),
    (events_bind_ok _ _ _ _ _ _ E).
  pose proof (unwatched_chats_skipped w self fuel msgs
                (count_poll (final (report_check w self) s)) Hall) as E2.
  rewrite (result_bind_ok _ _ _ _ _ _ E2), (final_bind_ok _ _ _ _ _ _ E2),
    (events_bind_ok _ _ _ _ _ _ E2).
  reflexivity.
Qed.

Lemma unwatched_batch_ignored_witness :
  poll_cycle MoreExamples.w_carol Examples.bot 10 Examples.s0 =
    (Ok tt,
     count_poll (final (report_check MoreExamples.w_carol Examples.bot)
                   Examples.s0),
     events (report_check MoreExamples.w_carol Examples.bot) Examples.s0 ++
     [EvSleep (interval Examples.bot)]).
Proof.
  apply (unwatched_batch_ignored MoreExamples.w_carol Examples.bot 10
           Examples.s0 [(Examples.a "Carol"%string, [Examples.from_alice])]).
  - reflexivity.
  - constructor; [|constructor]. vm_compute. intros [H|[]]. discriminate.
Defined.

(** ** More on the hourly report *)

(** X13. An announcement that cannot be sent is not counted as made: when
    the report is due and [SendMsg] raises, or the template cannot be
    formatted, [send_time_report] logs the failure, ends normally and
    leaves the last reported hour as it was, so that the next evaluation
    within the window tries again. *)
Theorem failed_report_not_recorded (w : world) (self : listener) (s : state) :
  let t := datetime_now w (n_now s) in
  time_report self = true ->
  minute t = 0 -> second t < 10 -> hour t <> last_reported_hour s ->
  (forall message e,
     str_format w (time_report_message self) (strftime t) = inr message ->
     SendMsg w (n_send s) (time_report_who self) message = Some e ->
     report_check w self s =
       (Ok tt, count_send (count_now s),
        [EvSend (time_report_who self) message (Some e);
         EvLog ERROR (LogReportFailed e)]) /\
     last_reported_hour (final (report_check w self) s)
       = last_reported_hour s) /\
  (forall e,
     str_format w (time_report_message self) (strftime t) = inl e ->
     report_check w self s =
       (Ok tt, count_now s, [EvLog ERROR (LogReportFailed e)]) /\
     last_reported_hour (final (report_check w self) s)
       = last_reported_hour s).
Proof.
  intros t Hon Hm Hs Hh.
  assert (Hcond : (minute t =? 0) && (second t <? 10)
                  && negb (hour t =? last_reported_hour s) = true).
  { rewrite Hm. simpl.
    replace (second t <? 10) with true by (symmetry; apply Z.ltb_lt; lia).
    replace (hour t =? last_reported_hour s) with false
      by (symmetry; apply Z.eqb_neq; exact Hh).
    reflexivity. }
  split.
  - intros message e Hf Hsend.
    assert (E : report_check w self s =
      (Ok tt, count_send (count_now s),
       [EvSend (time_report_who self) message (Some e);
        EvLog ERROR (LogReportFailed e)])).
    { unfold report_check. rewrite Hon.
      unfold send_time_report, try_except, bind, now, get, put, lift,
        send_msg, log, emit, raise, ret. fold t. simpl.
      rewrite Hcond. fold t. rewrite Hf. simpl. rewrite Hsend. reflexivity. }
    split; [exact E|]. unfold final. rewrite E. reflexivity.
  - intros e Hf.
    assert (E : report_check w self s =
      (Ok tt, count_now s, [EvLog ERROR (LogReportFailed e)])).
    { unfold report_check. rewrite Hon.
      unfold send_time_report, try_except, bind, now, get, put, lift,
        send_msg, log, emit, raise, ret. fold t. simpl.
      rewrite Hcond. fold t. rewrite Hf. reflexivity. }
    split; [exact E|]. unfold final. rewrite E. reflexivity.
Qed.

Lemma failed_report_not_recorded_witness :
  report_check MoreExamples.w_report_fails Examples.bot Examples.s0 =
    (Ok tt, count_send (count_now Examples.s0),
     [EvSend (time_report_who Examples.bot)
        (time_report_message Examples.bot ++ strftime Examples.five_oclock)
        (Some OtherException);
      EvLog ERROR (LogReportFailed OtherException)]) /\
  last_reported_hour
    (final (report_check MoreExamples.w_report_fails Examples.bot) Examples.s0)
    = last_reported_hour Examples.s0.
Proof.
  destruct (failed_report_not_recorded MoreExamples.w_report_fails Examples.bot
              Examples.s0) as [H _]; try reflexivity.
  - vm_compute. discriminate.
  - apply H; reflexivity.
Defined.

(** ** Stripping *)

Import Strip.

Lemma lstrip_spec (s : str) :
  exists pre,
    s = pre ++ lstrip s /\
    Forall (fun c => isspace c = true) pre /\
    (forall c t, lstrip s = c :: t -> isspace c = false).
Proof.
  induction s as [|c s (pre & Hs & Hpre & Hhead)]; simpl.
  - exists []. repeat split; [constructor | discriminate].
  - destruct (isspace c) eqn:Hc.
    + exists (c :: pre). simpl. rewrite <- Hs.
      repeat split; [constructor; assumption | exact Hhead].
    + exists []. repeat split; [constructor|]. intros d t [= <- <-]. exact Hc.
Qed.

Lemma lstrip_spaces (s : str) :
  Forall (fun c => isspace c = true) s -> lstrip s = [].
Proof. induction 1 as [|c s Hc _ IH]; simpl; [|rewrite Hc]; auto. Qed.

Lemma rstrip_spec (s : str) :
  exists post,
    s = rstrip s ++ post /\
    Forall (fun c => isspace c = true) post /\
    (forall t c, rstrip s = t ++ [c] -> isspace c = false).
Proof.
  destruct (lstrip_spec (rev s)) as (pre & Hs & Hpre & Hhead).
  exists (rev pre). unfold rstrip. repeat split.
  - rewrite <- rev_app_distr, <- Hs. symmetry. apply rev_involutive.
  - now apply List.Forall_rev.
  - intros t c Ht. apply (Hhead c (rev t)).
    rewrite <- (rev_involutive (lstrip (rev s))), Ht, rev_app_distr.
    reflexivity.
Qed.

(** [strip] takes white space off both ends and nothing else: the
    string is what was stripped, between a run of white space in front and
    one behind; what is left neither starts nor ends with white space; and
    it is empty exactly when the string is white space throughout. *)
Theorem strip_spec (s : str) :
  (exists pre post,
     s = pre ++ strip s ++ post /\
     Forall (fun c => isspace c = true) pre /\
     Forall (fun c => isspace c = true) post) /\
  (forall c t, strip s = c :: t -> isspace c = false) /\
  (forall t c, strip s = t ++ [c] -> isspace c = false) /\
  (strip s = [] <-> Forall (fun c => isspace c = true) s).
Proof.
  destruct (lstrip_spec s) as (pre & Hs & Hpre & Hhead).
  destruct (rstrip_spec (lstrip s)) as (post & Hu & Hpost & Hlast).
  fold (strip s) in Hu, Hlast.
  assert (Hfirst : forall c t, strip s = c :: t -> isspace c = false).
  { intros c t Hc. apply (Hhead c (t ++ post)). rewrite Hu at 1.
    rewrite Hc. reflexivity. }
  split; [|split; [exact Hfirst | split; [exact Hlast|]]].
  - exists pre, post. rewrite <- Hu. auto.
  - split.
    + intros Hempty. rewrite Hempty in Hu. simpl in Hu.
      rewrite Hs. apply Forall_app. split; [exact Hpre|].
      rewrite Hu. exact Hpost.
    + intros Hall. unfold strip. rewrite (lstrip_spaces s Hall). reflexivity.
Qed.

(** ** The constructor of the listener *)

Import Setup.

Lemma add_listen_chats_calls (wx : wx_world) (contacts : list str) :
  forall n : nat,
    List.filter is_add_listen_chat (add_listen_chats wx n contacts) =
    imap (fun i contact =>
            SAddListenChat contact (AddListenChat wx (n + i) contact))
      contacts.
Proof.
  induction contacts as [|contact rest IH]; intros n; [reflexivity|].
  cbn [add_listen_chats imap]. rewrite List.filter_app, IH, Nat.add_0_r.
  destruct (AddListenChat wx n contact) as [e|]; simpl; f_equal;
    apply imap_ext; intros i c _; simpl; f_equal; f_equal; lia.
Qed.

(** X15. The constructor of the listener fails in two cases only: when
    [WeChat()] raises, and when [GetSessionList()] raises something other
    than [AttributeError].  A failure to read the user's name, to list the
    chats the other way or to register a contact is logged and survived. *)
Theorem init_listener_fails_iff (wx : wx_world) (listen_list : list str)
    (interval : Z) (time_report : bool) (who template : str) (limit : Z) :
  (exists e, fst (init_listener wx listen_list interval time_report who
                    template limit) = inl e) <->
  (WeChat wx <> None \/ GetSessionList wx = inl OtherError).
Proof.
  unfold init_listener, look_at_chats, find_self_name.
  destruct (WeChat wx) as [e0|].
  - split; [intros _; left; discriminate | intros _; eexists; reflexivity].
  - destruct (GetSelfInfo wx), (GetSessionList wx) as [[]|];
      try destruct (GetAllChats wx); simpl;
      split; try (intros [e He]; discriminate);
      try (intros [H|H]; congruence);
      try (intros _; eexists; reflexivity); try (intros _; right; reflexivity).
Qed.

Lemma init_listener_builds (wx : wx_world) (contacts : list str)
    (interval : Z) (report : bool) (who template : str) (limit : Z) :
  WeChat wx = None ->
  GetSessionList wx <> inl OtherError ->
  exists self evs,
    init_listener wx contacts interval report who template limit
      = (inr self, evs) /\
    listen_list self = contacts /\
    WeChatListener.interval self = interval /\
    time_report self = report /\
    time_report_who self = who /\
    time_report_message self = template /\
    max_message_length self = limit /\
    self_name self =
      match GetSelfInfo wx with
      | inr name => name
      | inl _ => UNKNOWN_USER
      end /\
    List.filter is_add_listen_chat evs =
      imap (fun i contact =>
              SAddListenChat contact (AddListenChat wx i contact)) contacts.
Proof.
  intros Hwx Hchats.
  pose proof (add_listen_chats_calls wx contacts 0) as Hadd. simpl in Hadd.
  unfold init_listener, look_at_chats, find_self_name. rewrite Hwx.
  destruct (GetSelfInfo wx), (GetSessionList wx) as [[]|];
    try congruence; try destruct (GetAllChats wx);
    do 2 eexists; (split; [reflexivity|]); simpl; repeat split; exact Hadd.
Qed.

(** X16. When the constructor succeeds, the listener it builds has the
    parameters it was given, and for its own name the nickname the backend
    reports or, when that cannot be read, the placeholder "未知用户"; and
    [AddListenChat] has been called exactly once for every contact of the
    list, in the order of the list, whether the calls before it failed or
    not. *)
Theorem init_listener_ok (wx : wx_world) (contacts : list str)
    (interval : Z) (report : bool) (who template : str) (limit : Z) :
  WeChat wx = None ->
  GetSessionList wx <> inl OtherError ->
  exists self evs,
    init_listener wx contacts interval report who template limit
      = (inr self, evs) /\
    listen_list self = contacts /\
    WeChatListener.interval self = interval /\
    time_report self = report /\
    time_report_who self = who /\
    time_report_message self = template /\
    max_message_length self = limit /\
    self_name self =
      match GetSelfInfo wx with
      | inr name => name
      | inl _ => UNKNOWN_USER
      end /\
    List.filter is_add_listen_chat evs =
      imap (fun i contact =>
              SAddListenChat contact (AddListenChat wx i contact)) contacts.
Proof.
  exact (init_listener_builds wx contacts interval report who template limit).
Qed.

Lemma init_listener_ok_witness :
  exists self evs,
    init_listener MoreExamples.wx_flaky [Examples.alice; Examples.a "Bob"%string]
      1000 true Examples.alice App.REPORT_TEMPLATE 2000 = (inr self, evs) /\
    listen_list self = [Examples.alice; Examples.a "Bob"%string] /\
    WeChatListener.interval self = 1000 /\
    time_report self = true /\
    time_report_who self = Examples.alice /\
    time_report_message self = App.REPORT_TEMPLATE /\
    max_message_length self = 2000 /\
    self_name self =
      match GetSelfInfo MoreExamples.wx_flaky with
      | inr name => name
      | inl _ => UNKNOWN_USER
      end /\
    List.filter is_add_listen_chat evs =
      imap (fun i contact =>
              SAddListenChat contact
                (AddListenChat MoreExamples.wx_flaky i contact))
        [Examples.alice; Examples.a "Bob"%string].
Proof.
  apply (init_listener_ok MoreExamples.wx_flaky
           [Examples.alice; Examples.a "Bob"%string] 1000 true Examples.alice
           App.REPORT_TEMPLATE 2000).
  - reflexivity.
  - discriminate.
Defined.

(** ** Starting and stopping a listener *)

Lemma controls_invariant (self : listener) (cs : list control) :
  forall lc : lifecycle,
    (running lc = true -> listener_thread lc <> None) ->
    exists lc' evs,
      controls self cs lc = (inr lc', evs) /\
      (running lc' = true -> listener_thread lc' <> None) /\
      (length (List.filter is_spawn evs) + (if running lc then 1 else 0) =
       length (List.filter is_stopped_log evs)
       + (if running lc' then 1 else 0))%nat.
Proof.
  induction cs as [|[t|alive] cs IH]; intros lc Hinv.
  - exists lc, []. split; [reflexivity|]. split; [exact Hinv | simpl; lia].
  - cbn [controls]. unfold Setup.start_listening.
    destruct (running lc) eqn:Hrun.
    + destruct (IH lc (fun _ => Hinv eq_refl))
        as (lc' & evs & E & Hinv' & Hcount).
      rewrite E, Hrun in *. exists lc', evs. auto.
    + destruct (IH {| running := true; start_time := Some t;
                      listener_thread := Some (next_thread lc) |})
        as (lc' & evs & E & Hinv' & Hcount); [discriminate|].
      rewrite E. do 2 eexists. split; [reflexivity|]. split; [exact Hinv'|].
      simpl in Hcount. rewrite !List.filter_app, !length_app.
      destruct (time_report self); simpl; lia.
  - cbn [controls]. unfold Setup.stop_listening.
    destruct (running lc) eqn:Hrun.
    + destruct (listener_thread lc) as [thread|] eqn:Hth;
        [|now destruct (Hinv eq_refl)].
      destruct (IH {| running := false; start_time := start_time lc;
                      listener_thread := Some thread |})
        as (lc' & evs & E & Hinv' & Hcount); [discriminate|].
      rewrite E. do 2 eexists. split; [reflexivity|]. split; [exact Hinv'|].
      simpl in Hcount. rewrite !List.filter_app, !length_app.
      destruct alive; simpl; lia.
    + assert (Hinv0 : running lc = true -> listener_thread lc <> None)
        by (rewrite Hrun; discriminate).
      destruct (IH lc Hinv0) as (lc' & evs & E & Hinv' & Hcount).
      rewrite E, Hrun in *. exists lc', evs. auto.
Qed.

(** X17. Whatever sequence of [start_listening] and [stop_listening] is
    called on a new listener, no call raises (the thread is never read
    before a start has created it), and the loops started are matched by
    the stops logged but for the one loop a running listener has: a start
    on a running listener starts nothing. *)
Theorem controls_keep_one_loop (self : listener) (cs : list control) :
  exists lc evs,
    controls self cs new_lifecycle = (inr lc, evs) /\
    (running lc = true -> listener_thread lc <> None) /\
    length (List.filter is_spawn evs) =
      (length (List.filter is_stopped_log evs)
       + (if running lc then 1 else 0))%nat.
Proof.
  destruct (controls_invariant self cs new_lifecycle)
    as (lc & evs & E & Hinv & Hcount); [discriminate|].
  exists lc, evs. simpl in Hcount.
  split; [exact E|]. split; [exact Hinv | lia].
Qed.

(** ** The window *)

Lemma strip_nonempty_iff (s : str) :
  strip s <> [] <-> ~ Forall (fun c => isspace c = true) s.
Proof.
  destruct (strip_spec s) as (_ & _ & _ & H). rewrite <- H. tauto.
Qed.

Lemma set_api_key_not_missing (c : char) (k : str) (s : state) :
  key_missing (fst (App.set_api_key (c :: k) s)) = false.
Proof. reflexivity. Qed.

(** X18. [WeChatListenerApp.start_listening] refuses to start, and builds
    no listener, in three cases.  A key that is empty or white space
    throughout: nothing at all is changed but the status line.  A usable
    key but no contact in the list: the (stripped) key has been stored all
    the same.  A constructor that fails: the key has been stored, the
    error is shown, and the buttons stay as they were. *)
Theorem app_start_refused (wx : wx_world) (t : datetime) (a : App.app)
    (s : state) :
  (Forall (fun c => isspace c = true) (App.api_key_var a) ->
   App.start_listening wx t a s =
     (App.with_status App.StNoKey a, s, [SShowWarning NoKeyDialog])) /\
  (~ Forall (fun c => isspace c = true) (App.api_key_var a) ->
   App.listen_listbox a = [] ->
   App.start_listening wx t a s =
     (App.with_status App.StNoContacts a,
      fst (App.set_api_key (strip (App.api_key_var a)) s),
      [SLog INFO LogKeySet; SShowWarning NoContactsDialog])) /\
  (forall e,
     ~ Forall (fun c => isspace c = true) (App.api_key_var a) ->
     App.listen_listbox a <> [] ->
     WeChat wx = Some e \/ (WeChat wx = None /\ e = OtherError /\
                            GetSessionList wx = inl OtherError) ->
     exists evs,
       App.start_listening wx t a s =
         (App.with_status (App.StError e) a,
          fst (App.set_api_key (strip (App.api_key_var a)) s), evs) /\
       List.filter is_spawn evs = []).
Proof.
  split; [|split].
  - intros Hall. apply (proj2 (proj2 (proj2 (proj2 (strip_spec _))))) in Hall.
    unfold App.start_listening. rewrite Hall. reflexivity.
  - intros Hkey Hlist. apply strip_nonempty_iff in Hkey.
    unfold App.start_listening.
    destruct (strip (App.api_key_var a)) as [|c k]; [congruence|].
    simpl. rewrite Hlist. reflexivity.
  - intros e Hkey Hlist Hfail. apply strip_nonempty_iff in Hkey.
    unfold App.start_listening.
    destruct (strip (App.api_key_var a)) as [|c k]; [congruence|].
    destruct (App.listen_listbox a) as [|first rest] eqn:Hlb; [congruence|].
    cbn [App.set_api_key fst]. unfold init_listener, look_at_chats, find_self_name.
    destruct Hfail as [Hwx|(Hwx & -> & Hchats)]; rewrite Hwx.
    + eexists. split; reflexivity.
    + rewrite Hchats. destruct (GetSelfInfo wx);
        eexists; split; reflexivity.
Qed.

Lemma app_start_refused_witness :
  App.start_listening MoreExamples.wx_fine Examples.five_oclock
    (App.type_key (Examples.a "   "%string) App.create_widgets) Examples.s0 =
    (App.with_status App.StNoKey
       (App.type_key (Examples.a "   "%string) App.create_widgets),
     Examples.s0, [SShowWarning NoKeyDialog]) /\
  App.start_listening MoreExamples.wx_fine Examples.five_oclock
    MoreExamples.no_contacts (init_state None) =
    (App.with_status App.StNoContacts MoreExamples.no_contacts,
     fst (App.set_api_key (strip (App.api_key_var MoreExamples.no_contacts))
            (init_state None)),
     [SLog INFO LogKeySet; SShowWarning NoContactsDialog]) /\
  exists evs,
    App.start_listening MoreExamples.wx_broken Examples.five_oclock
      (App.type_key (Examples.a " sk-1 "%string) App.create_widgets)
      (init_state None) =
      (App.with_status (App.StError OtherError)
         (App.type_key (Examples.a " sk-1 "%string) App.create_widgets),
       fst (App.set_api_key
              (strip (App.api_key_var
                        (App.type_key (Examples.a " sk-1 "%string)
                           App.create_widgets)))
              (init_state None)), evs) /\
    List.filter is_spawn evs = [].
Proof.
  split; [|split].
  - apply (app_start_refused MoreExamples.wx_fine Examples.five_oclock
             (App.type_key (Examples.a "   "%string) App.create_widgets)
             Examples.s0).
    repeat constructor.
  - apply (app_start_refused MoreExamples.wx_fine Examples.five_oclock
             MoreExamples.no_contacts (init_state None)); [|reflexivity].
    intros H. apply Forall_cons in H as [_ H]. apply Forall_cons in H as [H _].
    discriminate.
  - apply (app_start_refused MoreExamples.wx_broken Examples.five_oclock
             (App.type_key (Examples.a " sk-1 "%string) App.create_widgets)
             (init_state None)).
    + intros H. apply Forall_cons in H as [_ H].
      apply Forall_cons in H as [H _]. discriminate.
    + discriminate.
    + left. reflexivity.
Defined.

(** X19. When the key is usable, the list has a contact and the
    constructor succeeds, [WeChatListenerApp.start_listening] stores the
    stripped key and starts one listener: on the whole list, running, with
    one loop started, the default limit of 2000 characters, and the hourly
    report switched on and addressed to the first contact of the list,
    which is therefore a watched chat.  From the state it leaves,
    [get_reply] never answers "not configured"; the listener is a new one,
    with no chat seen yet and no hour reported ([last_reported_hour] is
    -1), and the counts of calls made to the outside are as they were. *)
Theorem app_start_ok (wx : wx_world) (t : datetime) (a : App.app) (s : state)
    (first : str) (rest : list str) :
  ~ Forall (fun c => isspace c = true) (App.api_key_var a) ->
  App.listen_listbox a = first :: rest ->
  WeChat wx = None ->
  GetSessionList wx <> inl OtherError ->
  exists a' s' evs inst,
    App.start_listening wx t a s = (a', s', evs) /\
    App.app_listener a' = Some inst /\
    App.start_button a' = false /\ App.stop_button a' = true /\
    listen_list (App.config inst) = first :: rest /\
    time_report (App.config inst) = true /\
    time_report_who (App.config inst) = first /\
    In (time_report_who (App.config inst)) (listen_list (App.config inst)) /\
    max_message_length (App.config inst) = 2000 /\
    running (App.life inst) = true /\
    start_time (App.life inst) = Some t /\
    length (List.filter is_spawn evs) = 1%nat /\
    API_KEY s' = Some (strip (App.api_key_var a)) /\
    (forall w message retries,
       result (get_reply w message retries) s' <> Ok Text.NOT_CONFIGURED) /\
    last_message_time s' = ∅ /\
    last_reported_hour s' = -1 /\
    (n_post s', n_send s', n_now s', n_poll s') =
      (n_post s, n_send s, n_now s, n_poll s).
Proof.
  intros Hkey Hlist Hwx Hchats. apply strip_nonempty_iff in Hkey.
  destruct (init_listener_builds wx (first :: rest) default_interval true first
              App.REPORT_TEMPLATE default_max_message_length Hwx Hchats)
    as (self & ev1 & E & H1 & _ & H3 & H4 & _ & H6 & _ & Hadd).
  unfold App.start_listening.
  destruct (strip (App.api_key_var a)) as [|c k] eqn:Hstrip; [congruence|].
  cbn [App.set_api_key]. rewrite Hlist, E.
  unfold Setup.start_listening. cbn [running new_lifecycle]. rewrite H3.
  do 4 eexists. split; [reflexivity|]. cbn [App.app_listener App.start_button
    App.stop_button App.config App.life running start_time].
  repeat split; auto.
  - cbn [App.config]. rewrite H1, H4. left. reflexivity.
  - rewrite !List.filter_app, !length_app.
    assert (Hev1 : List.filter is_spawn ev1 = []).
    { clear -E. unfold init_listener, look_at_chats, find_self_name in E.
      assert (Hno : forall n l,
                List.filter is_spawn (add_listen_chats wx n l) = []).
      { intros n l. revert n. induction l as [|x l IH]; intros n;
          [reflexivity|]. cbn [add_listen_chats].
        rewrite List.filter_app, IH.
        now destruct (AddListenChat wx n x). }
      destruct (WeChat wx); [discriminate|].
      destruct (GetSelfInfo wx), (GetSessionList wx) as [[]|];
        try discriminate; try destruct (GetAllChats wx);
        injection E as _ <-; exact (Hno 0%nat (first :: rest)). }
    rewrite Hev1. reflexivity.
  - intros w message retries.
    match goal with
    | |- result _ ?st <> _ =>
        destruct (get_reply_value_cases w message retries st)
          as (r & Hres & [[Hmiss _]|(_ & Hne & _)]); [discriminate|];
        rewrite Hres; congruence
    end.
Qed.

Lemma app_start_ok_witness :
  exists a' s' evs inst,
    App.start_listening MoreExamples.wx_flaky Examples.five_oclock
      (App.type_key (Examples.a " sk-1 "%string) App.create_widgets)
      (init_state None) = (a', s', evs) /\
    App.app_listener a' = Some inst /\
    App.start_button a' = false /\ App.stop_button a' = true /\
    listen_list (App.config inst) =
      [25991; 20214; 20256; 36755; 21161; 25163]%N ::
      [[24494; 20449; 22242; 38431]%N] /\
    time_report (App.config inst) = true /\
    time_report_who (App.config inst) =
      [25991; 20214; 20256; 36755; 21161; 25163]%N /\
    In (time_report_who (App.config inst)) (listen_list (App.config inst)) /\
    max_message_length (App.config inst) = 2000 /\
    running (App.life inst) = true /\
    start_time (App.life inst) = Some Examples.five_oclock /\
    length (List.filter is_spawn evs) = 1%nat /\
    API_KEY s' =
      Some (strip (App.api_key_var
                     (App.type_key (Examples.a " sk-1 "%string)
                        App.create_widgets))) /\
    (forall w message retries,
       result (get_reply w message retries) s' <> Ok Text.NOT_CONFIGURED) /\
    last_message_time s' = ∅ /\
    last_reported_hour s' = -1 /\
    (n_post s', n_send s', n_now s', n_poll s') =
      (n_post (init_state None), n_send (init_state None),
       n_now (init_state None), n_poll (init_state None)).
Proof.
  apply (app_start_ok MoreExamples.wx_flaky Examples.five_oclock
           (App.type_key (Examples.a " sk-1 "%string) App.create_widgets)
           (init_state None)
           [25991; 20214; 20256; 36755; 21161; 25163]%N
           [[24494; 20449; 22242; 38431]%N]).
  - intros H. apply Forall_cons in H as [_ H].
    apply Forall_cons in H as [H _]. discriminate.
  - reflexivity.
  - reflexivity.
  - discriminate.
Defined.

Lemma window_ok_status (st : App.status) (a : App.app) (s s' : state) :
  App.window_ok a s ->
  (key_missing s = false -> key_missing s' = false) ->
  App.window_ok (App.with_status st a) s'.
Proof.
  intros (Hnd & Hne & Hl) Hkey. unfold App.window_ok in *.
  cbn [App.with_status App.with_listbox App.listen_listbox App.app_listener
       App.start_button App.stop_button].
  destruct (App.app_listener a); intuition.
Qed.

Lemma window_ok_act (x : App.action) (a : App.app) (s : state) :
  App.window_ok a s ->
  App.window_ok (fst (App.act x a s)) (snd (App.act x a s)).
Proof.
  intros Hok. pose proof Hok as (Hnd & Hne & Hl).
  destruct x as [text|answer|selected|wx t|alive]; cbn [App.act fst snd].
  - exact Hok.
  - unfold App.add_listener. destruct answer as [[|c contact]|];
      try exact Hok.
    destruct (bool_decide_reflect ((c :: contact) ∈ App.listen_listbox a))
      as [Hin|Hin]; [exact Hok|].
    split; [|split; [|exact Hl]]; cbn [App.with_listbox App.listen_listbox].
    + apply NoDup_app. split; [exact Hnd|]. split.
      * intros y Hy Hy'. apply list_elem_of_singleton in Hy'. subst y. auto.
      * apply NoDup_singleton.
    + intros Hin'. apply in_app_or in Hin' as [Hin'|[Hin'|[]]];
        [auto | discriminate].
  - unfold App.remove_listener. destruct selected as [|i rest];
      [exact Hok|].
    split; [|split; [|exact Hl]]; cbn [App.with_listbox App.listen_listbox].
    + exact (sublist_NoDup _ _ Hnd (sublist_delete _ i)).
    + intros Hin. apply Hne. apply list_elem_of_In.
      eapply elem_of_sublist; [|apply (sublist_delete _ i)].
      now apply list_elem_of_In.
  - unfold App.start_listening.
    destruct (strip (App.api_key_var a)) as [|c k];
      [cbn [fst snd]; apply (window_ok_status _ a s); auto|].
    cbn [App.set_api_key].
    destruct (App.listen_listbox a) as [|first rest] eqn:Hlb;
      [cbn [fst snd]; apply (window_ok_status _ a s); auto|].
    destruct (init_listener _ _ _ _ _ _ _) as [[e|self] ev1];
      [cbn [fst snd]; apply (window_ok_status _ a s); auto|].
    unfold Setup.start_listening. cbn [running new_lifecycle fst snd].
    unfold App.window_ok.
    cbn [App.listen_listbox App.app_listener App.start_button
         App.stop_button App.life listener_thread running].
    rewrite ?Hlb. repeat split; auto.
  - unfold App.stop_listening.
    destruct (App.app_listener a) as [inst|] eqn:Hinst; [|exact Hok].
    destruct Hl as (_ & _ & Hrun & Hth & Hkey).
    unfold Setup.stop_listening. rewrite Hrun.
    destruct (listener_thread (App.life inst)); [|congruence].
    unfold App.window_ok. cbn. auto.
Qed.

Lemma window_ok_acts (xs : list App.action) :
  forall (a : App.app) (s : state),
    App.window_ok a s ->
    App.window_ok (fst (App.acts xs a s)) (snd (App.acts xs a s)).
Proof.
  induction xs as [|x xs IH]; intros a s H; [exact H|].
  cbn [App.acts]. pose proof (window_ok_act x a s H) as H1.
  destruct (App.act x a s) as [a1 s1]. apply IH. exact H1.
Qed.

Lemma window_ok_start (s : state) : App.window_ok App.create_widgets s.
Proof.
  split; [|split; [|split; reflexivity]].
  - apply NoDup_cons. split; [|apply NoDup_singleton].
    intros H. apply list_elem_of_singleton in H. discriminate.
  - intros [H|[H|[]]]; discriminate.
Qed.

(** X20. Whatever the user does in the window (typing a key, adding and
    removing contacts, pressing the buttons), the list of contacts never
    holds the same name twice nor an empty name. *)
Theorem contacts_stay_distinct (xs : list App.action) (s : state) :
  NoDup (App.listen_listbox (fst (App.acts xs App.create_widgets s))) /\
  ~ In [] (App.listen_listbox (fst (App.acts xs App.create_widgets s))).
Proof.
  destruct (window_ok_acts xs App.create_widgets s (window_ok_start s))
    as (H1 & H2 & _). auto.
Qed.

(** X21. Whatever the user does in the window, the two buttons are never
    enabled together: as long as there is no listener the start button is
    enabled and the stop button is not; as long as there is one, it is the
    other way round, the listener is running with its loop started, and a
    credential is set.  In particular stopping never meets a listener
    without a thread. *)
Theorem buttons_follow_listener (xs : list App.action) (s : state) :
  match App.app_listener (fst (App.acts xs App.create_widgets s)) with
  | None =>
      App.start_button (fst (App.acts xs App.create_widgets s)) = true /\
      App.stop_button (fst (App.acts xs App.create_widgets s)) = false
  | Some inst =>
      App.start_button (fst (App.acts xs App.create_widgets s)) = false /\
      App.stop_button (fst (App.acts xs App.create_widgets s)) = true /\
      running (App.life inst) = true /\
      listener_thread (App.life inst) <> None /\
      key_missing (snd (App.acts xs App.create_widgets s)) = false
  end.
Proof.
  destruct (window_ok_acts xs App.create_widgets s (window_ok_start s))
    as (_ & _ & H). exact H.
Qed.

(** ** The colour of a log line *)



(** An INFO line that quotes the word ERROR is coloured as an error. *)
Example info_line_tagged_error :
  App.log_tag
    (App.format_record (Examples.a "2024-01-02 05:00:03,000"%string) INFO
       (Examples.a "replied: ERROR 404 means not found"%string))
  = Some App.TagError.
Proof. vm_compute. reflexivity. Qed.

(** ** The pace of a long reply *)

Lemma send_parts_paced (w : world) (who : str) (total : Z) (parts : list str) :
  forall (i : nat) (s : state),
    length (List.filter is_sleep (events (send_parts w who total i parts) s)) =
    length (List.filter is_delivered
              (events (send_parts w who total i parts) s)) /\
    Forall (fun ev => is_sleep ev = true -> ev = EvSleep 500)
      (events (send_parts w who total i parts) s).
Proof.
  induction parts as [|part rest IH]; intros i s.
  - split; [reflexivity | constructor].
  - cbn [send_parts].
    assert (E : exists evs,
      try_except
        (send_msg w who (strip_banner i part) ;;
         log INFO (LogPartSent (Z.of_nat i + 1) total who) ;;
         sleep 500)
        (fun e => log ERROR (LogLongFailed e)) s = (Ok tt, count_send s, evs) /\
      length (List.filter is_sleep evs) = length (List.filter is_delivered evs) /\
      Forall (fun ev => is_sleep ev = true -> ev = EvSleep 500) evs).
    { unfold try_except, bind, send_msg, log, sleep, emit. simpl.
      destruct (SendMsg w (n_send s) who (strip_banner i part)); simpl;
        eexists; (split; [reflexivity|]); (split; [reflexivity|]);
        repeat constructor; discriminate. }
    destruct E as (evs & E & Hcount & Hall).
    rewrite (events_bind_ok _ _ _ _ _ _ E).
    destruct (IH (S i) (count_send s)) as [Hcount' Hall'].
    rewrite !List.filter_app, !length_app, Hcount, Hcount'.
    split; [reflexivity | now apply Forall_app].
Qed.

(** X14. A long reply is sent at a steady pace: every segment the chat
    backend takes is followed by a pause of half a second, a segment it
    refuses by none, and nothing else is waited for. *)
Theorem long_reply_paced (w : world) (self : listener) (fuel : nat)
    (who message : str) (s : state) :
  length (List.filter is_sleep
            (events (send_long_message w self fuel who message) s)) =
  length (List.filter is_delivered
            (events (send_long_message w self fuel who message) s)) /\
  Forall (fun ev => is_sleep ev = true -> ev = EvSleep 500)
    (events (send_long_message w self fuel who message) s).
Proof.
  unfold send_long_message.
  destruct (split_parts fuel (max_message_length self) message) as [parts|].
  - apply send_parts_paced.
  - split; [reflexivity | constructor].
Qed.

(** ** The start of the polling loop *)

(** X23. What the chat backend has in store when the loop starts is
    fetched once and dropped: whatever that first fetch returns, and even
    if it fails, only a log line tells, and the turns of the loop run from
    the state in which nothing but the count of fetches has moved. *)
Theorem startup_fetch_discarded (w : world) (self : listener)
    (fuel turns : nat) (s : state) :
  listen_messages w self fuel turns s =
    (result (for_each (seq 0 turns) (fun _ => poll_cycle w self fuel))
       (count_poll s),
     final (for_each (seq 0 turns) (fun _ => poll_cycle w self fuel))
       (count_poll s),
     EvLog INFO LogListening ::
     match GetListenMessage w (n_poll s) with
     | inr _ => EvLog INFO LogHistoryCleared
     | inl e => EvLog ERROR (LogClearFailed e)
     end ::
     events (for_each (seq 0 turns) (fun _ => poll_cycle w self fuel))
       (count_poll s)).
Proof.
  unfold listen_messages.
  assert (E1 : log INFO LogListening s = (Ok tt, s, [EvLog INFO LogListening]))
    by reflexivity.
  rewrite (bind_ok _ _ _ _ _ _ E1).
  assert (E2 :
    try_except (get_listen_message w ;; log INFO LogHistoryCleared)
      (fun e => log ERROR (LogClearFailed e)) s =
    (Ok tt, count_poll s,
     [match GetListenMessage w (n_poll s) with
      | inr _ => EvLog INFO LogHistoryCleared
      | inl e => EvLog ERROR (LogClearFailed e)
      end])).
  { unfold try_except, bind, get_listen_message, log, emit.
    destruct (GetListenMessage w (n_poll s)); reflexivity. }
  rewrite (result_bind_ok _ _ _ _ _ _ E2), (final_bind_ok _ _ _ _ _ _ E2),
    (events_bind_ok _ _ _ _ _ _ E2).
  reflexivity.
Qed.

(** ** The properties above at concrete inputs *)

Lemma process_message_touches_one_chat_witness :
  API_KEY (final (process_message MoreExamples.w_ok Examples.bot 10
                    Examples.alice Examples.from_alice) Examples.s0)
    = API_KEY Examples.s0 /\
  last_reported_hour
    (final (process_message MoreExamples.w_ok Examples.bot 10 Examples.alice
              Examples.from_alice) Examples.s0)
    = last_reported_hour Examples.s0 /\
  last_message_time
    (final (process_message MoreExamples.w_ok Examples.bot 10 Examples.alice
              Examples.from_alice) Examples.s0) !! Examples.a "Bob"%string
    = last_message_time Examples.s0 !! Examples.a "Bob"%string.
Proof.
  destruct (process_message_touches_one_chat MoreExamples.w_ok Examples.bot 10
              Examples.alice Examples.from_alice Examples.s0)
    as (H1 & H2 & H3).
  split; [exact H1|]. split; [exact H2|]. apply H3. discriminate.
Defined.

Lemma long_reply_paced_witness :
  length (List.filter is_sleep
            (events (send_long_message MoreExamples.w_ok Examples.bot 10
                       Examples.alice Examples.long_answer) Examples.s0)) =
  length (List.filter is_delivered
            (events (send_long_message MoreExamples.w_ok Examples.bot 10
                       Examples.alice Examples.long_answer) Examples.s0)) /\
  Forall (fun ev => is_sleep ev = true -> ev = EvSleep 500)
    (events (send_long_message MoreExamples.w_ok Examples.bot 10
               Examples.alice Examples.long_answer) Examples.s0).
Proof.
  apply (long_reply_paced MoreExamples.w_ok Examples.bot 10 Examples.alice
           Examples.long_answer Examples.s0).
Defined.

Lemma init_listener_fails_iff_witness :
  exists e,
    fst (init_listener MoreExamples.wx_broken [Examples.alice] 1000 true
           Examples.alice App.REPORT_TEMPLATE 2000) = inl e.
Proof.
  apply (init_listener_fails_iff MoreExamples.wx_broken [Examples.alice] 1000
           true Examples.alice App.REPORT_TEMPLATE 2000).
  left. discriminate.
Defined.

Lemma controls_keep_one_loop_witness :
  exists lc evs,
    controls Examples.bot
      [Start Examples.five_oclock; Start Examples.five_oclock; Stop true;
       Stop false; Start Examples.five_oclock] new_lifecycle = (inr lc, evs) /\
    (running lc = true -> listener_thread lc <> None) /\
    length (List.filter is_spawn evs) =
      (length (List.filter is_stopped_log evs)
       + (if running lc then 1 else 0))%nat.
Proof.
  apply (controls_keep_one_loop Examples.bot
           [Start Examples.five_oclock; Start Examples.five_oclock; Stop true;
            Stop false; Start Examples.five_oclock]).
Defined.

(** Two starts, two stops and a start: two loops were started in all. *)
Example controls_run :
  length (List.filter is_spawn
            (snd (controls Examples.bot
                    [Start Examples.five_oclock; Start Examples.five_oclock;
                     Stop true; Stop false; Start Examples.five_oclock]
                    new_lifecycle))) = 2%nat.
Proof. reflexivity. Qed.
